(** * Tabular dynamic programming over grid MDPs: environments and solvers

    A shallow embedding of

    - [rl/environment/environment.py]            (class [Environment]),
    - [rl/environment/frozenlake/frozenlake_environment.py] (class [FrozenLake]),
    - [rl/environment/gridworld/gridworld_environment.py]   (class [GridWorld]),
    - [algorithms/model_based_tabular_algorithms.py]        (the DP solvers),
    - [env/run_env.py]                           (the interactive episode),

    Conventions of the embedding.

    - Python integers are [Z]; array shapes and loop ranges are [nat].
    - Python floats: the environments are embedded over a number model
      ([Num]) with two instances, binary64 floats ([Binary64], what the code
      runs on) and exact rationals ([Exact], the arithmetic the code writes
      down); the solvers are embedded over exact rationals.
    - A Python exception is the [Raise] branch of [result]; statements are
      sequenced with [x <- e ;; k].
    - numpy arrays are lists (of lists); an index goes through [np_index],
      which wraps a negative index once and raises [IndexError] otherwise.
    - Mutable object fields are threaded explicitly ([EnvState], [FileSystem]).
*)

From Stdlib Require Import String ZArith List Bool Lia.
From Stdlib Require Import QArith Qcanon Qcabs Lqa.
From Stdlib Require PrimFloat FloatOps SpecFloat.
Import ListNotations.
Open Scope Z_scope.

(** ** Exceptions and sequencing *)

Inductive exn : Type :=
| InvalidAction        (* Exception('Invalid Action!!!') *)
| IndexError
| ValueError
| NotImplementedError.

Inductive result (A : Type) : Type :=
| Ok (a : A)
| Raise (e : exn).
Arguments Ok {A} a.
Arguments Raise {A} e.

Definition bind {A B} (m : result A) (k : A -> result B) : result B :=
  match m with
  | Ok a => k a
  | Raise e => Raise e
  end.

Notation "x <- m ;; k" := (bind m (fun x => k))
  (at level 61, m at next level, right associativity).
Notation "' pat <- m ;; k" := (bind m (fun x => match x with pat => k end))
  (at level 61, pat pattern, m at next level, right associativity).

(** [for x in l: s = body(x, s)], stopping at the first exception. *)
Fixpoint for_each {A S} (l : list A) (body : A -> S -> result S) (s : S)
  : result S :=
  match l with
  | [] => Ok s
  | x :: l' => s' <- body x s ;; for_each l' body s'
  end.

(** [[f(x) for x in l]], stopping at the first exception. *)
Fixpoint map_result {A B} (f : A -> result B) (l : list A) : result (list B) :=
  match l with
  | [] => Ok []
  | x :: l' => y <- f x ;; ys <- map_result f l' ;; Ok (y :: ys)
  end.

(** ** Numbers *)

(** What the environments do with floats: the constants 0 and 1, addition,
    subtraction, division and the test [x == 0]. *)
Class Num : Type := {
  num : Type;
  zero : num;
  one : num;
  add : num -> num -> num;
  sub : num -> num -> num;
  div : num -> num -> num;
  eq_zero : num -> bool
}.

(** The float of a small non-negative [int] (a count of actions). *)
Definition of_nat {K : Num} (n : nat) : num :=
  Nat.iter n (fun x => add x one) zero.

(** Exact rational arithmetic. *)
#[global] Instance Exact : Num := {|
  num := Qc;
  zero := 0%Qc;
  one := 1%Qc;
  add := Qcplus;
  sub := Qcminus;
  div := Qcdiv;
  eq_zero := fun x => Qc_eq_bool x 0%Qc
|}.

(** IEEE 754 binary64, Python's [float]. *)
Definition Binary64 : Num := {|
  num := PrimFloat.float;
  zero := PrimFloat.zero;
  one := PrimFloat.one;
  add := PrimFloat.add;
  sub := PrimFloat.sub;
  div := PrimFloat.div;
  eq_zero := PrimFloat.is_zero
|}.

Canonical Structure Exact.
Canonical Structure Binary64.

(** ** numpy / Python sequences *)

Module Np.

(** [range(n)] *)
Definition range (n : nat) : list Z := map Z.of_nat (seq 0 n).

(** Index normalisation of a sequence of length [n]: [0 <= i < n] is used
    as it is, [-n <= i < 0] counts from the end, anything else raises. *)
Definition np_index (n : nat) (i : Z) : result nat :=
  if (0 <=? i) && (i <? Z.of_nat n) then Ok (Z.to_nat i)
  else if (- Z.of_nat n <=? i) && (i <? 0) then Ok (Z.to_nat (i + Z.of_nat n))
  else Raise IndexError.

(** [l[i]] *)
Definition item {A} (l : list A) (i : Z) : result A :=
  k <- np_index (length l) i ;;
  match nth_error l k with
  | Some x => Ok x
  | None => Raise IndexError
  end.

(** The list [l] with position [k] replaced by [x]. *)
Fixpoint upd {A} (l : list A) (k : nat) (x : A) : list A :=
  match l, k with
  | [], _ => []
  | _ :: l', O => x :: l'
  | y :: l', S k' => y :: upd l' k' x
  end.

(** [l[i] = x] *)
Definition setitem {A} (l : list A) (i : Z) (x : A) : result (list A) :=
  k <- np_index (length l) i ;; Ok (upd l k x).

(** [np.zeros(n)] *)
Definition zeros {K : Num} (n : nat) : list num := repeat zero n.

(** [np.sum] of a vector. *)
Definition sum {K : Num} (l : list num) : num := fold_right add zero l.

(** A 2-D array of one-character strings, stored row-major. *)
Record chararray : Type := {
  rows : nat;
  columns : nat;
  cells : list string
}.

(** [a.size] *)
Definition size (a : chararray) : nat := (rows a * columns a)%nat.

(** [a[x, y]] *)
Definition item2 (a : chararray) (x y : Z) : result string :=
  i <- np_index (rows a) x ;;
  j <- np_index (columns a) y ;;
  match nth_error (cells a) (i * columns a + j) with
  | Some c => Ok c
  | None => Raise IndexError
  end.

(** The array holds exactly [rows * columns] cells, and its rows are not
    empty. *)
Definition well_formed (a : chararray) : Prop :=
  length (cells a) = size a /\ (0 < columns a)%nat.

(** A dense 3-D array of floats. *)
Definition tensor {K : Num} : Type := list (list (list num)).

(** [np.zeros((n, m, k))] *)
Definition zeros3 {K : Num} (n m k : nat) : tensor :=
  repeat (repeat (zeros k) m) n.

(** [t[i, j, k]] *)
Definition item3 {K : Num} (t : tensor) (i j k : Z) : result num :=
  plane <- item t i ;; line <- item plane j ;; item line k.

(** [t[i, j, k] += v] *)
Definition iadd3 {K : Num} (t : tensor) (i j k : Z) (v : num)
  : result tensor :=
  plane <- item t i ;;
  line <- item plane j ;;
  x <- item line k ;;
  line' <- setitem line k (add x v) ;;
  plane' <- setitem plane j line' ;;
  setitem t i plane'.

(** [t[i, :, k] = v] *)
Definition fill_column {K : Num} (t : tensor) (i k : Z) (v : num)
  : result tensor :=
  plane <- item t i ;;
  plane' <- map_result (fun line => setitem line k v) plane ;;
  setitem t i plane'.

(** [a[x, y] = c] *)
Definition setitem2 (a : chararray) (x y : Z) (c : string) : result chararray :=
  i <- np_index (rows a) x ;;
  j <- np_index (columns a) y ;;
  Ok {| rows := rows a; columns := columns a;
        cells := upd (cells a) (i * columns a + j) c |}.

(** [np.where(a.reshape(-1) == c)[0]] *)
Definition where_eq (a : chararray) (c : string) : list Z :=
  map Z.of_nat
      (filter (fun i => String.eqb (nth i (cells a) EmptyString) c)
              (seq 0 (size a))).

(** [a[a == c] = d] *)
Definition replace_eq (a : chararray) (c d : string) : chararray :=
  {| rows := rows a; columns := columns a;
     cells := map (fun x => if String.eqb x c then d else x) (cells a) |}.

(** [l.reshape(rows, columns)] for a flat sequence of strings. *)
Definition reshape (l : list string) (rows columns : nat) : result chararray :=
  if Nat.eqb (length l) (rows * columns)
  then Ok {| rows := rows; columns := columns; cells := l |}
  else Raise ValueError.

(** What [print] is handed: a line of text, a 2-D array of strings, or a
    2-D array of floats. The floats are printed under
    [self._printoptions(precision=3, suppress=True)], a context manager of
    [EnvironmentModel] (not among the sources) that sets how floats are
    written; the array is recorded, not its text. *)
Inductive printed {K : Num} : Type :=
| Text (s : string)
| Grid (g : chararray)
| Values (rows columns : nat) (v : list num).

End Np.

(** ** rl/environment/env_helper.py *)

Module EnvHelper.

(** Modelled from the spec: [env_helper.index_to_position] is not among the
    sources. The spec describes it as the pure function from a flat state
    index to its (row, column) coordinate under row-major flattening. *)
Definition index_to_position (index columns : Z) : Z * Z :=
  (index / columns, index mod columns).

(** Modelled from the spec: [env_helper.position_to_index] is not among the
    sources. The spec describes it as the inverse of [index_to_position]:
    row-major flattening of a (row, column) coordinate. *)
Definition position_to_index (x y columns : Z) : Z :=
  x * columns + y.

End EnvHelper.

(** ** rl/environment/environment.py *)

Module Environment.

(** The mutable fields of an environment object: the step counter, the
    current state and the random source ([self.random_state], whose type
    [RS] belongs to the base class [EnvironmentModel]). *)
Record EnvState (RS : Type) : Type := {
  n_steps : Z;
  state : Z;
  random_state : RS
}.
Arguments n_steps {RS} _.
Arguments state {RS} _.
Arguments random_state {RS} _.

Section Step.

Variable RS : Type.
(** The type of rewards, whatever the subclass's [r] returns. *)
Variable Reward : Type.
(** [self.n_actions] and [self.max_steps], fixed at construction. *)
Variable n_actions : nat.
Variable max_steps : Z.
(** [EnvironmentModel.draw(state, action)] is inherited from
    [environment_model.py], which is not among the sources: it samples
    the next state from the random source and returns it with the
    reward of that transition. It is a parameter here. *)
Variable draw : RS -> Z -> Z -> (Z * Reward) * RS.

(** [Environment.step]: the result (an exception or the triple
    [(state, reward, done)]) together with the object's fields after
    the call. *)
Definition step (self : EnvState RS) (action : Z)
  : result (Z * Reward * bool) * EnvState RS :=
  if (action <? 0) || (action >=? Z.of_nat n_actions) then
    (Raise InvalidAction, self)
  else
    let n_steps' := n_steps self + 1 in
    let done := n_steps' >=? max_steps in
    let '((state', reward), rs') :=
      draw (random_state self) (state self) action in
    let self' := {| n_steps := n_steps';
                    state := state';
                    random_state := rs' |} in
    (Ok (state', reward, done), self').

(** [Environment.p] and [Environment.r] are abstract. *)
Definition p (next_state state action : Z) : result Reward :=
  Raise NotImplementedError.
Definition r (next_state state action : Z) : result Reward :=
  Raise NotImplementedError.

(** [self.n_states] and [self.pi], fixed at construction. *)
Variable n_states : nat.
Variable Prob : Type.
Variable pi : list Prob.
(** [self.random_state.choice(n_states, p=pi)]: the sampler of the random
    source, which belongs to [EnvironmentModel] (not among the sources). It
    is a parameter here; numpy's sampler raises on a [pi] that is not a
    distribution. *)
Variable choice : RS -> nat -> list Prob -> result Z * RS.

(** [Environment.reset]: the result and the object's fields after the
    call. The counter is cleared before the state is drawn. *)
Definition reset (self : EnvState RS) : result Z * EnvState RS :=
  match choice (random_state self) n_states pi with
  | (Raise e, rs') =>
      (Raise e, {| n_steps := 0; state := state self; random_state := rs' |})
  | (Ok state', rs') =>
      (Ok state', {| n_steps := 0; state := state'; random_state := rs' |})
  end.

End Step.

End Environment.

(** ** rl/environment/frozenlake/frozenlake_environment.py *)

Module FrozenLake.
Import Np EnvHelper.

(** The fields [__init__] sets (the episode fields are in [EnvState]). *)
Record t {K : Num} : Type := {
  lake : chararray;
  slip : num;
  max_steps : Z;
  _p : tensor
}.

Definition actions : list (Z * Z) := [(-1, 0); (1, 0); (0, -1); (0, 1)].

Definition n_states {K : Num} (self : t) : nat := (size (lake self) + 1)%nat.
Definition n_actions : nat := length actions.
Definition absorbing_state {K : Num} (self : t) : Z :=
  Z.of_nat (n_states self) - 1.

(** [FrozenLake.p] *)
Definition p {K : Num} (self : t) (next_state state action : Z)
  : result num :=
  item3 (_p self) state action next_state.

(** [FrozenLake.r] *)
Definition r {K : Num} (self : t) (next_state state action : Z) : result Z :=
  q <- item3 (_p self) state action next_state ;;
  if eq_zero q || (absorbing_state self =? state) then Ok 0
  else
    let '(x, y) := index_to_position state (Z.of_nat (columns (lake self))) in
    c <- item2 (lake self) x y ;;
    if String.eqb c "$" then Ok 1 else Ok 0.

(** Body of the innermost loop of [_populate_probabilities]. *)
Definition populate_slip {K : Num} (self : t)
    (state x y action slip_action : Z) (P : tensor) : result tensor :=
  d <- item actions slip_action ;;
  let next_x := x + fst d in
  let next_y := y + snd d in
  let next_state :=
    if (0 <=? next_x) && (next_x <? Z.of_nat (rows (lake self)))
       && (0 <=? next_y) && (next_y <? Z.of_nat (columns (lake self)))
    then position_to_index next_x next_y (Z.of_nat (columns (lake self)))
    else state in
  P <- iadd3 P state action next_state (div (slip self) (of_nat n_actions)) ;;
  if action =? slip_action
  then iadd3 P state action next_state (sub one (slip self))
  else Ok P.

(** Body of the loop over [state] of [_populate_probabilities]. *)
Definition populate_state {K : Num} (self : t) (state : Z) (P : tensor)
  : result tensor :=
  let '(x, y) := index_to_position state (Z.of_nat (columns (lake self))) in
  terminal <-
    (if state =? absorbing_state self then Ok true
     else c <- item2 (lake self) x y ;;
          Ok (String.eqb c "#" || String.eqb c "$")) ;;
  if terminal then fill_column P state (absorbing_state self) one
  else
    for_each (range n_actions)
      (fun action P =>
         for_each (range n_actions) (populate_slip self state x y action) P)
      P.

(** [FrozenLake._populate_probabilities], returning the new [self._p]. *)
Definition _populate_probabilities {K : Num} (self : t) : result tensor :=
  for_each (range (n_states self)) (populate_state self) (_p self).

(** [FrozenLake.__init__], as far as the fields the oracle reads: the
    tensor is allocated and populated. (The base class's constructor, which
    draws the first state from the random source, is not part of it.) *)
Definition init {K : Num} (lake : chararray) (slip : num) (max_steps : Z)
  : result t :=
  let self := {| lake := lake; slip := slip; max_steps := max_steps;
                 _p := zeros3 (size lake + 1) n_actions (size lake + 1) |} in
  P <- _populate_probabilities self ;;
  Ok {| lake := lake; slip := slip; max_steps := max_steps; _p := P |}.

Section Step.
Context {K : Num}.
Variable RS : Type.
Variable Reward : Type.
Variable draw : RS -> Z -> Z -> (Z * Reward) * RS.

(** [FrozenLake.step] *)
Definition step (self : t) (st : Environment.EnvState RS) (action : Z)
  : result (Z * Reward * bool) * Environment.EnvState RS :=
  match Environment.step RS Reward n_actions (max_steps self) draw st action
  with
  | (Raise e, st') => (Raise e, st')
  | (Ok (state, reward, done), st') =>
      let done := (state =? absorbing_state self) || done in
      (Ok (state, reward, done), st')
  end.
End Step.

(** The initial distribution [pi] of [__init__]:
    [pi = np.zeros(n_states)] and then
    [pi[np.where(self.lake.reshape(-1) == '&')[0]] = 1.0]. *)
Definition initial_distribution {K : Num} (lake : chararray)
  : result (list num) :=
  for_each (where_eq lake "&") (fun i pi => setitem pi i one)
           (zeros (size lake + 1)).

(** [['u', 'd', 'l', 'r']] *)
Definition action_letters : list string := ["u"; "d"; "l"; "r"]%string.

(** [FrozenLake.render]: the exception, if any, and the output so far. The
    arguments [policy] and [value] are given together or not at all. *)
Definition render {K : Num} (self : t) (state : Z)
    (overlay : option (list Z * list num)) (out : list printed)
  : result unit * list printed :=
  let out := out ++ [Text "FrozenLake:"] in
  let shown :=
    if state <? absorbing_state self
    then
      let '(x, y) := index_to_position state (Z.of_nat (columns (lake self))) in
      setitem2 (lake self) x y "@"
    else Ok (lake self) in
  match shown with
  | Raise e => (Raise e, out)
  | Ok shown =>
      let out := out ++ [Grid shown] in
      match overlay with
      | None => (Ok tt, out)
      | Some (policy, value) =>
          let out := out ++ [Text "Policy:"] in
          match
            letters <- map_result (item action_letters) (removelast policy) ;;
            reshape letters (rows (lake self)) (columns (lake self))
          with
          | Raise e => (Raise e, out)
          | Ok letters =>
              let out := out ++ [Grid letters; Text "Value:"] in
              if Nat.eqb (length (removelast value)) (size (lake self))
              then (Ok tt,
                    out ++ [Values (rows (lake self)) (columns (lake self))
                                   (removelast value)])
              else (Raise ValueError, out)
          end
      end
  end.

End FrozenLake.

(** ** rl/environment/gridworld/gridworld_environment.py *)

Module GridWorld.
Import Np EnvHelper.

(** The fields [__init__] sets (the episode fields are in [EnvState]). *)
Record t : Type := {
  world : chararray;
  max_steps : Z
}.

Definition actions : list (Z * Z) := [(-1, 0); (1, 0); (0, -1); (0, 1)].

Definition n_actions : nat := 4.
Definition n_states (self : t) : nat := (size (world self) + 1)%nat.
Definition absorbing_state (self : t) : Z := Z.of_nat (n_states self) - 1.

(** [GridWorld.p]; [int(b)] is [Z.b2z b]. *)
Definition p (self : t) (next_state state action : Z) : result Z :=
  let columns := Z.of_nat (columns (world self)) in
  let rows := Z.of_nat (rows (world self)) in
  let '(x, y) := index_to_position state columns in
  d <- item actions action ;;
  let next_x := x + fst d in
  let next_y := y + snd d in
  stuck <-
    (if state =? absorbing_state self then Ok true
     else c <- item2 (world self) x y ;; Ok (String.eqb c "#")) ;;
  if stuck then Ok (Z.b2z (state =? next_state))
  else
    c <- item2 (world self) x y ;;
    if String.eqb c "£" || String.eqb c "$"
    then Ok (Z.b2z (next_state =? absorbing_state self))
    else
      free <-
        (if (0 <=? next_x) && (next_x <? rows)
            && (0 <=? next_y) && (next_y <? columns)
         then c' <- item2 (world self) next_x next_y ;;
              Ok (negb (String.eqb c' "#"))
         else Ok false) ;;
      if free
      then Ok (Z.b2z (next_state =? position_to_index next_x next_y columns))
      else Ok (Z.b2z (state =? next_state)).

(** [GridWorld.r] *)
Definition r (self : t) (next_state state action : Z) : result Z :=
  q <- p self next_state state action ;;
  if (q =? 0) || (absorbing_state self =? state)
     || (absorbing_state self =? next_state)
  then Ok 0
  else
    let '(x, y) :=
      index_to_position next_state (Z.of_nat (columns (world self))) in
    token <- item2 (world self) x y ;;
    if String.eqb token "$" then Ok 1
    else if String.eqb token "£" then Ok (-1)
    else Ok 0.

Section Step.
Variable RS : Type.
Variable Reward : Type.
Variable draw : RS -> Z -> Z -> (Z * Reward) * RS.

(** [GridWorld.step] *)
Definition step (self : t) (st : Environment.EnvState RS) (action : Z)
  : result (Z * Reward * bool) * Environment.EnvState RS :=
  match Environment.step RS Reward n_actions (max_steps self) draw st action
  with
  | (Raise e, st') => (Raise e, st')
  | (Ok (state, reward, done), st') =>
      let done := (state =? absorbing_state self) || done in
      (Ok (state, reward, done), st')
  end.
End Step.

(** The initial distribution [pi] of [__init__]:
    [pi = np.zeros(n_states)] and then
    [pi[np.where(self.world.reshape(-1) == '&')[0]] = 1.0]. *)
Definition initial_distribution {K : Num} (world : chararray)
  : result (list num) :=
  for_each (where_eq world "&") (fun i pi => setitem pi i one)
           (zeros (size world + 1)).

(** [GridWorld.print_world]: the exception, if any, and the output so
    far. *)
Definition print_world {K : Num} (self : t) (state : Z) (out : list printed)
  : result unit * list printed :=
  let out := out ++ [Text "GridWorld:"] in
  let shown :=
    if state <? absorbing_state self
    then
      let '(x, y) :=
        index_to_position state (Z.of_nat (columns (world self))) in
      setitem2 (world self) x y "@@"
    else Ok (world self) in
  match shown with
  | Raise e => (Raise e, out)
  | Ok world =>
      let world :=
        {| rows := rows world; columns := columns world;
           cells := map (fun c => if String.eqb c "." || String.eqb c "&"
                                  then "__"%string else c)
                        (cells world) |} in
      let world := replace_eq world "#" "##" in
      let world := replace_eq world "$" "+1" in
      let world := replace_eq world "£" "-1" in
      (Ok tt, out ++ [Grid world])
  end.

(** [['u', 'd', 'l', 'r']] *)
Definition action_letters : list string := ["u"; "d"; "l"; "r"]%string.

(** [GridWorld.render]: the exception, if any, and the output so far. The
    arguments [policy] and [value] are given together or not at all. *)
Definition render {K : Num} (self : t) (state : Z)
    (overlay : option (list Z * list num)) (out : list printed)
  : result unit * list printed :=
  match print_world self state out with
  | (Raise e, out) => (Raise e, out)
  | (Ok _, out) =>
      match overlay with
      | None => (Ok tt, out)
      | Some (policy, value) =>
          let out := out ++ [Text "Policy:"] in
          match
            letters <- map_result (item action_letters) (removelast policy) ;;
            reshape letters (rows (world self)) (columns (world self))
          with
          | Raise e => (Raise e, out)
          | Ok letters =>
              let out := out ++ [Grid letters; Text "Value:"] in
              if Nat.eqb (length (removelast value)) (size (world self))
              then (Ok tt,
                    out ++ [Values (rows (world self)) (columns (world self))
                                   (removelast value)])
              else (Raise ValueError, out)
          end
      end
  end.

End GridWorld.

(** ** algorithms/model_based_tabular_algorithms.py

    The solvers are embedded in exact arithmetic: [np.float] is Python's
    float, read as a rational. *)

Module Algorithms.
Import Np.

(** What the solvers read of [env]: [env.n_states], [env.n_actions] and the
    two tensors [p, r = env.get_prob_rewards()]. [get_prob_rewards] belongs
    to [EnvironmentModel], which is not among the sources, so the tensors
    are parameters: [prob s s' a] is the entry [p[s][s'][a]] and
    [rew s s' a] the entry [r[s][s'][a]] (the axis order the solvers'
    broadcasting against [value.reshape(-1, 1)] and [identity[...]]
    requires). *)
Record Env : Type := {
  n_states : nat;
  n_actions : nat;
  prob : nat -> nat -> nat -> Qc;
  rew : nat -> nat -> nat -> Qc
}.

(** [a < b] on floats. *)
Definition Qcltb (a b : Qc) : bool :=
  match (a ?= b)%Qc with Lt => true | _ => false end.

(** Python's [max(a, b)]: [b] only when it is strictly larger. *)
Definition py_max (a b : Qc) : Qc := if Qcltb a b then b else a.

(** [np.identity(n)] *)
Definition identity (n : nat) : list (list Qc) :=
  map (fun i => map (fun j => if Nat.eqb i j then 1%Qc else 0%Qc) (seq 0 n))
      (seq 0 n).

(** [value.reshape(-1, 1)] as it is added to [r[s]]: one entry per next
    state. Arrays of another length, which numpy would broadcast or
    reject, are rejected. *)
Definition column (env : Env) (value : list Qc) : result (list Qc) :=
  if Nat.eqb (length value) (n_states env) then Ok value
  else Raise ValueError.

(** [np.sum(policy_action_prob * p[s] * (r[s] + gamma * value.reshape(-1, 1)))] *)
Definition expected_backup (env : Env) (policy_action_prob : list Qc)
    (s : nat) (gamma : Qc) (value : list Qc) : Qc :=
  sum (map (fun s' =>
         sum (map (fun a =>
                nth a policy_action_prob 0 * prob env s s' a
                * (rew env s s' a + gamma * nth s' value 0))%Qc
              (seq 0 (n_actions env))))
       (seq 0 (n_states env))).

(** [np.sum(p[s] * (r[s] + gamma * value.reshape(-1, 1)), axis=0)] *)
Definition action_values (env : Env) (s : nat) (gamma : Qc)
    (value : list Qc) : list Qc :=
  map (fun a =>
         sum (map (fun s' =>
                prob env s s' a
                * (rew env s s' a + gamma * nth s' value 0))%Qc
              (seq 0 (n_states env))))
      (seq 0 (n_actions env)).

(** Scan of [np.argmax]: the first position of the largest entry. *)
Fixpoint argmax_from (best_i : nat) (best : Qc) (i : nat) (l : list Qc)
  : nat :=
  match l with
  | [] => best_i
  | x :: l' =>
      if Qcltb best x then argmax_from i x (S i) l'
      else argmax_from best_i best (S i) l'
  end.

(** [np.argmax]; an empty sequence raises. *)
Definition argmax (l : list Qc) : result Z :=
  match l with
  | [] => Raise ValueError
  | x :: l' => Ok (Z.of_nat (argmax_from 0 x 1 l'))
  end.

(** [np.all(np.equal(a, b))] for two vectors of the same length; other
    shapes are rejected. *)
Fixpoint all_equal (a b : list Z) : result bool :=
  match a, b with
  | [], [] => Ok true
  | x :: a', y :: b' => t <- all_equal a' b' ;; Ok ((x =? y) && t)
  | _, _ => Raise ValueError
  end.

(** Body of the [for s] loop of [policy_evaluation]; the loop state is
    [(value, delta)]. *)
Definition evaluation_state (env : Env) (policy : list Z) (gamma : Qc)
    (s : nat) (st : list Qc * Qc) : result (list Qc * Qc) :=
  let '(value, delta) := st in
  current_value <- item value (Z.of_nat s) ;;
  action <- item policy (Z.of_nat s) ;;
  policy_action_prob <- item (identity (n_actions env)) action ;;
  col <- column env value ;;
  value <- setitem value (Z.of_nat s)
             (expected_backup env policy_action_prob s gamma col) ;;
  new_value <- item value (Z.of_nat s) ;;
  Ok (value, py_max delta (Qcabs (current_value - new_value))).

(** The [while] loop of [policy_evaluation]; [fuel] is the number of
    iterations [curr_iteration < max_iterations] still allows. *)
Fixpoint evaluation_loop (env : Env) (policy : list Z) (gamma theta : Qc)
    (fuel : nat) (stop : bool) (value : list Qc) : result (list Qc) :=
  match fuel with
  | O => Ok value
  | S fuel' =>
      if stop then Ok value
      else
        '(value, delta) <-
          for_each (seq 0 (n_states env))
                   (evaluation_state env policy gamma) (value, 0%Qc) ;;
        evaluation_loop env policy gamma theta fuel' (Qcltb delta theta) value
  end.

(** [policy_evaluation] *)
Definition policy_evaluation (env : Env) (policy : list Z) (gamma theta : Qc)
    (max_iterations : Z) : result (list Qc) :=
  evaluation_loop env policy gamma theta (Z.to_nat max_iterations) false
                  (zeros (n_states env)).

(** The [for s] loop of [policy_improvement], from
    [improved_policy = np.zeros(env.n_states, dtype=int)]. *)
Definition improvement_loop (env : Env) (value : list Qc) (gamma : Qc)
  : result (list Z) :=
  for_each (seq 0 (n_states env))
    (fun s improved_policy =>
       col <- column env value ;;
       a <- argmax (action_values env s gamma col) ;;
       setitem improved_policy (Z.of_nat s) a)
    (repeat 0 (n_states env)).

(** [policy_improvement] *)
Definition policy_improvement (env : Env) (policy : list Z)
    (value : list Qc) (gamma : Qc) : result (list Z * bool) :=
  improved_policy <- improvement_loop env value gamma ;;
  stable <- all_equal policy improved_policy ;;
  Ok (improved_policy, stable).

(** The files written so far, newest first: [np.save(name, {'value': v})]
    is recorded as [(name, v)]. *)
Definition FileSystem : Type := list (string * list Qc).

(** [save_file] *)
Definition save_file (npy_filename : string) (value : list Qc)
    (fs : FileSystem) : FileSystem :=
  (npy_filename, value) :: fs.

(** The [while] loop of [policy_iteration]. *)
Fixpoint iteration_loop (env : Env) (gamma theta : Qc) (max_iterations : Z)
    (fuel : nat) (stop : bool) (policy : list Z) (value : list Qc)
  : result (list Z * list Qc) :=
  match fuel with
  | O => Ok (policy, value)
  | S fuel' =>
      if stop then Ok (policy, value)
      else
        value <- policy_evaluation env policy gamma theta max_iterations ;;
        '(policy, stop) <- policy_improvement env policy value gamma ;;
        iteration_loop env gamma theta max_iterations fuel' stop policy value
  end.

(** The file [policy_iteration] chooses by the number of states. *)
Definition npy_filename (env : Env) : string :=
  if Nat.eqb (n_states env) 17
  then "data/small_frozenlake_policy_evaluation.npy"%string
  else "data/big_frozenlake_policy_evaluation.npy"%string.

(** [policy_iteration]: the result and the files after the call. *)
Definition policy_iteration (env : Env) (gamma theta : Qc)
    (max_iterations : Z) (fs : FileSystem)
  : result (list Z * list Qc) * FileSystem :=
  match iteration_loop env gamma theta max_iterations
          (Z.to_nat max_iterations) false
          (repeat 0 (n_states env)) (zeros (n_states env)) with
  | Raise e => (Raise e, fs)
  | Ok (policy, value) =>
      (Ok (policy, value), save_file (npy_filename env) value fs)
  end.

(** [np.max]; an empty sequence raises. *)
Definition amax (l : list Qc) : result Qc :=
  match l with
  | [] => Raise ValueError
  | x :: l' => Ok (fold_left py_max l' x)
  end.

(** Body of the [for s] loop of [value_iteration]; the loop state is
    [(value, delta)]. *)
Definition optimality_state (env : Env) (gamma : Qc)
    (s : nat) (st : list Qc * Qc) : result (list Qc * Qc) :=
  let '(value, delta) := st in
  current_value <- item value (Z.of_nat s) ;;
  col <- column env value ;;
  best <- amax (action_values env s gamma col) ;;
  value <- setitem value (Z.of_nat s) best ;;
  new_value <- item value (Z.of_nat s) ;;
  Ok (value, py_max delta (Qcabs (current_value - new_value))).

(** The [while] loop of [value_iteration]; [fuel] is the number of
    iterations [curr_iteration < max_iterations] still allows. *)
Fixpoint optimality_loop (env : Env) (gamma theta : Qc)
    (fuel : nat) (stop : bool) (value : list Qc) : result (list Qc) :=
  match fuel with
  | O => Ok value
  | S fuel' =>
      if stop then Ok value
      else
        '(value, delta) <-
          for_each (seq 0 (n_states env))
                   (optimality_state env gamma) (value, 0%Qc) ;;
        optimality_loop env gamma theta fuel' (Qcltb delta theta) value
  end.

(** [value_iteration] *)
Definition value_iteration (env : Env) (gamma theta : Qc)
    (max_iterations : Z) : result (list Z * list Qc) :=
  value <- optimality_loop env gamma theta (Z.to_nat max_iterations) false
             (zeros (n_states env)) ;;
  '(policy, _) <-
    policy_improvement env (repeat 0 (n_states env)) value gamma ;;
  Ok (policy, value).

(** Modelled from the spec: [EnvironmentModel.get_prob_rewards] is not among
    the sources. The solvers call it to "calculate probability & rewards
    only once for environment", and the spec has them read the oracle through
    it: the tensors tabulate [env.p] and [env.r] over the index ranges,
    [p[s][s'][a] = env.p(s', s, a)] and [r[s][s'][a] = env.r(s', s, a)]. *)
Definition get_prob_rewards (n_states n_actions : nat)
    (p r : Z -> Z -> Z -> result Qc) : Env :=
  let entry (f : Z -> Z -> Z -> result Qc) (s s' a : nat) : Qc :=
    match f (Z.of_nat s') (Z.of_nat s) (Z.of_nat a) with
    | Ok q => q
    | Raise _ => 0%Qc
    end in
  {| n_states := n_states; n_actions := n_actions;
     prob := entry p; rew := entry r |}.

End Algorithms.

(** ** env/run_env.py *)

Module RunEnv.

(** What ends [run_env] early: its own [Exception('Invalid Action')], the
    end of the input ([input] raises [EOFError]), or an exception of the
    environment. *)
Inductive failure : Type :=
| InvalidKey
| EOFError
| EnvRaised (e : exn).

Inductive ending : Type :=
| Finished
| Failed (f : failure).

(** [actions.index(c)], [None] when [c not in actions]. *)
Fixpoint index (actions : list string) (c : string) : option nat :=
  match actions with
  | [] => None
  | a :: actions' =>
      if String.eqb a c then Some 0%nat else option_map S (index actions' c)
  end.

Section Run.

(** The environment object [env]: its fields, and the three methods
    [run_env] calls. [render] returns what it printed. *)
Variable Env : Type.
Variable Frame : Type.
Variable Reward : Type.
Variable reset : Env -> result Z * Env.
Variable render : Env -> result unit * list Frame.
Variable step : Env -> Z -> result (Z * Reward * bool) * Env.

(** What goes to the terminal: the output of [render], the prompt of
    [input] and the reward line. *)
Inductive event : Type :=
| Shown (f : Frame)
| Prompt (actions : list string)
| RewardLine (r : Reward).

(** What a run leaves behind: how it ended, the environment, the terminal
    output and the lines of input not yet read. *)
Record run : Type := {
  ended : ending;
  env_after : Env;
  output : list event;
  unread : list string
}.

(** The [while not done] loop; every iteration reads one line. *)
Fixpoint loop (actions : list string) (inputs : list string) (env : Env)
    (out : list event) : run :=
  let out := out ++ [Prompt actions] in
  match inputs with
  | [] => {| ended := Failed EOFError; env_after := env;
             output := out; unread := [] |}
  | c :: inputs' =>
      match index actions c with
      | None => {| ended := Failed InvalidKey; env_after := env;
                   output := out; unread := inputs' |}
      | Some i =>
          match step env (Z.of_nat i) with
          | (Raise e, env') =>
              {| ended := Failed (EnvRaised e); env_after := env';
                 output := out; unread := inputs' |}
          | (Ok (curr_state, r, done), env') =>
              match render env' with
              | (Raise e, frames) =>
                  {| ended := Failed (EnvRaised e); env_after := env';
                     output := out ++ map Shown frames; unread := inputs' |}
              | (Ok _, frames) =>
                  let out := out ++ map Shown frames ++ [RewardLine r] in
                  if done
                  then {| ended := Finished; env_after := env';
                          output := out; unread := inputs' |}
                  else loop actions inputs' env' out
              end
          end
      end
  end.

(** [run_env] *)
Definition run_env (env : Env) (actions : list string)
    (inputs : list string) : run :=
  match reset env with
  | (Raise e, env') =>
      {| ended := Failed (EnvRaised e); env_after := env';
         output := []; unread := inputs |}
  | (Ok _, env') =>
      match render env' with
      | (Raise e, frames) =>
          {| ended := Failed (EnvRaised e); env_after := env';
             output := map Shown frames; unread := inputs |}
      | (Ok _, frames) => loop actions inputs env' (map Shown frames)
      end
  end.

End Run.

Arguments Shown {Frame Reward} f.
Arguments Prompt {Frame Reward} actions.
Arguments RewardLine {Frame Reward} r.
Arguments ended {Env Frame Reward} _.
Arguments env_after {Env Frame Reward} _.
Arguments output {Env Frame Reward} _.
Arguments unread {Env Frame Reward} _.


Section Episodes.

Context {K : Num}.
(** The random source, with the sampler and [EnvironmentModel.draw], which
    are not among the sources. *)
Variable RS : Type.
Variable Reward : Type.
Variable choice : RS -> nat -> list num -> result Z * RS.
Variable draw : RS -> Z -> Z -> (Z * Reward) * RS.

(** [run_env(env, actions)] for a [FrozenLake] object [env]: the fields
    [__init__] sets and the episode fields. *)
Definition run_env_on_frozenlake (fl : FrozenLake.t) (pi : list num)
    (st : Environment.EnvState RS) (actions inputs : list string)
  : run (Environment.EnvState RS) Np.printed Reward :=
  run_env _ _ _
    (Environment.reset RS (FrozenLake.n_states fl) num pi choice)
    (fun st => FrozenLake.render fl (Environment.state st) None [])
    (FrozenLake.step RS Reward draw fl)
    st actions inputs.

(** [run_env(env, actions)] for a [GridWorld] object [env]. *)
Definition run_env_on_gridworld (gw : GridWorld.t) (pi : list num)
    (st : Environment.EnvState RS) (actions inputs : list string)
  : run (Environment.EnvState RS) Np.printed Reward :=
  run_env _ _ _
    (Environment.reset RS (GridWorld.n_states gw) num pi choice)
    (fun st => GridWorld.render gw (Environment.state st) None [])
    (GridWorld.step RS Reward draw gw)
    st actions inputs.

End Episodes.

End RunEnv.

(** * Example environments

    The lake and the grid of the constructors' docstrings. *)

Module Examples.
Import Np.
Open Scope string_scope.

Definition lake : chararray :=
  {| rows := 4; columns := 4;
     cells := ["&"; "."; "."; ".";
               "."; "#"; "."; "#";
               "."; "."; "."; "#";
               "#"; "."; "."; "$"] |}.

Definition grid : chararray :=
  {| rows := 4; columns := 4;
     cells := ["&"; "."; "."; ".";
               "."; "#"; "."; "#";
               "."; "."; "."; "£";
               "#"; "."; "."; "$"] |}.

(** A lake of two cells, start and goal. *)
Definition small_lake : chararray :=
  {| rows := 1; columns := 2; cells := ["&"; "$"] |}.

Definition tenth : Qc := Q2Qc (1 # 10).

(** The slip probability [0.2], in either arithmetic. *)
Definition fifth {K : Num} : num := div one (of_nat 5).

Definition gridworld : GridWorld.t :=
  {| GridWorld.world := grid; GridWorld.max_steps := 30 |}.

(** The frozen lake of the docstring with slip probability 0.1. *)
Definition frozenlake : FrozenLake.t :=
  match FrozenLake.init lake tenth 30 with
  | Ok fl => fl
  | Raise _ => {| FrozenLake.lake := lake; FrozenLake.slip := tenth;
                  FrozenLake.max_steps := 30; FrozenLake._p := [] |}
  end.

(** The lake of two cells without slipping. *)
Definition small_frozenlake : FrozenLake.t :=
  match FrozenLake.init small_lake 0%Qc 30 with
  | Ok fl => fl
  | Raise _ => {| FrozenLake.lake := small_lake; FrozenLake.slip := 0%Qc;
                  FrozenLake.max_steps := 30; FrozenLake._p := [] |}
  end.

(** What the solvers read of [small_frozenlake]. *)
Definition small_env : Algorithms.Env :=
  Algorithms.get_prob_rewards
    (FrozenLake.n_states small_frozenlake) FrozenLake.n_actions
    (FrozenLake.p small_frozenlake)
    (fun s' s a =>
       x <- FrozenLake.r small_frozenlake s' s a ;; Ok (Q2Qc (inject_Z x))).

(** A random source that is a counter, and a [draw] that moves one state
    up and pays nothing. *)
Definition counter_draw (rs : nat) (state action : Z) : (Z * Z) * nat :=
  ((state + 1, 0), S rs).

Definition start : Environment.EnvState nat :=
  {| Environment.n_steps := 0; Environment.state := 0;
     Environment.random_state := 0%nat |}.

End Examples.

(** * Specification vocabulary *)

(** An action index the environment accepts. *)
Definition valid_action (n_actions : nat) (action : Z) : Prop :=
  0 <= action < Z.of_nat n_actions.

(** The entry [t[i][j][k]] of a tensor, for positions inside its shape. *)
Definition val {K : Num} (t : Np.tensor) (i j k : nat) : num :=
  nth k (nth j (nth i t []) []) zero.

(** The tensor has shape [(n, m, k)]. *)
Definition shape3 {K : Num} (n m k : nat) (t : Np.tensor) : Prop :=
  length t = n
  /\ (forall i, (i < n)%nat -> length (nth i t []) = m)
  /\ (forall i j, (i < n)%nat -> (j < m)%nat ->
                  length (nth j (nth i t []) []) = k).

(** The symbol of cell [s] of a grid, in row-major order. *)
Definition cell (grid : Np.chararray) (s : nat) : string :=
  nth s (Np.cells grid) EmptyString.

(** A hole or the goal of a lake. *)
Definition lake_terminal (lake : Np.chararray) (s : nat) : bool :=
  String.eqb (cell lake s) "#" || String.eqb (cell lake s) "$".

(** The movement delta of action [a]: up, down, left, right. *)
Definition delta (a : nat) : Z * Z :=
  nth a [(-1, 0); (1, 0); (0, -1); (0, 1)] (0, 0).

(** Whether the movement delta of action [a], applied at cell [s], stays
    inside the grid. *)
Definition in_bounds (grid : Np.chararray) (s a : nat) : bool :=
  let c := Z.of_nat (Np.columns grid) in
  let x := Z.of_nat s / c + fst (delta a) in
  let y := Z.of_nat s mod c + snd (delta a) in
  (0 <=? x) && (x <? Z.of_nat (Np.rows grid)) && (0 <=? y) && (y <? c).

(** The cell the movement delta of action [a] leads to from cell [s]. *)
Definition destination (grid : Np.chararray) (s a : nat) : nat :=
  let c := Z.of_nat (Np.columns grid) in
  let x := Z.of_nat s / c + fst (delta a) in
  let y := Z.of_nat s mod c + snd (delta a) in
  Z.to_nat (x * c + y).

(** The cell reached from cell [s] by the movement delta of action [a]; a
    move that leaves the grid returns to [s]. *)
Definition reached (grid : Np.chararray) (s a : nat) : nat :=
  if in_bounds grid s a then destination grid s a else s.

(** Where the reward grid sends cell or absorbing state [s] under action
    [a]: the absorbing state and obstacles stay, the two goals go to the
    absorbing state, and any other cell moves when the destination is inside
    the grid and not an obstacle. *)
Definition world_target (world : Np.chararray) (s a : nat) : nat :=
  if Nat.eqb s (Np.size world) || String.eqb (cell world s) "#" then s
  else if String.eqb (cell world s) "£" || String.eqb (cell world s) "$"
  then Np.size world
  else if in_bounds world s a
          && negb (String.eqb (cell world (destination world s a)) "#")
  then destination world s a
  else s.


(** What slip action [b] does to the entry for next state [l] in the row of
    state [s] and intended action [a], in the innermost loop of
    [_populate_probabilities]: when [b] reaches [l] it adds
    [slip / n_actions], and [1 - slip] on top when it is the intended
    action. *)
Definition slip_step {K : Num} (lake : Np.chararray) (slip : num)
    (s a l : nat) (acc : num) (b : nat) : num :=
  if Nat.eqb (reached lake s b) l
  then
    let acc := add acc (div slip (of_nat FrozenLake.n_actions)) in
    if Nat.eqb a b then add acc (sub one slip) else acc
  else acc.

(** The masses the slip actions send to [l], added up from zero in the order
    of the loop. *)
Definition accumulated_mass {K : Num} (lake : Np.chararray) (slip : num)
    (s a l : nat) : num :=
  fold_left (slip_step lake slip s a l) (seq 0 FrozenLake.n_actions) zero.

(** The slip kernel in the words of the specification, in exact arithmetic:
    every action [a'] sends [slip / n_actions] towards the cell it reaches,
    and the intended action [a] sends [1 - slip] more towards its own. *)
Definition slip_kernel (lake : Np.chararray) (slip : Qc) (s a s' : nat) : Qc :=
  (Np.sum (map (fun a' =>
                  if Nat.eqb (reached lake s a') s'
                  then slip / Q2Qc (inject_Z (Z.of_nat FrozenLake.n_actions))
                  else 0)
               (seq 0 FrozenLake.n_actions))
   + (if Nat.eqb (reached lake s a) s' then 1 - slip else 0))%Qc.

(** The whole kernel of the lake: terminal cells and the absorbing state go
    to the absorbing state, the other cells slip. *)
Definition lake_kernel {K : Num} (lake : Np.chararray) (slip : num)
    (s a s' : nat) : num :=
  if Nat.eqb s (Np.size lake) || lake_terminal lake s
  then (if Nat.eqb s' (Np.size lake) then one else zero)
  else accumulated_mass lake slip s a s'.




(** An index no sequence of length [n] accepts, even counted from the end. *)
Definition beyond (n : nat) (i : Z) : Prop :=
  Z.of_nat n <= i \/ i < - Z.of_nat n.

(** A policy for [env]: one action per state. *)
Definition policy_ok (env : Algorithms.Env) (policy : list Z) : Prop :=
  length policy = Algorithms.n_states env
  /\ Forall (fun a => 0 <= a < Z.of_nat (Algorithms.n_actions env)) policy.

(** A call of [policy_iteration] that writes no file, whatever the files
    are before it. *)
Definition writes_no_file (env : Algorithms.Env) (gamma theta : Qc)
    (max_iterations : Z) : Prop :=
  forall fs,
    snd (Algorithms.policy_iteration env gamma theta max_iterations fs) = fs.

(** Two policies for [env] that agree on every state but the last, the
    absorbing one. *)
Definition agree_off_absorbing (env : Algorithms.Env) (policy1 policy2 : list Z)
  : Prop :=
  length policy1 = Algorithms.n_states env
  /\ length policy2 = Algorithms.n_states env
  /\ forall s, (s < Algorithms.n_states env - 1)%nat ->
               nth s policy1 0 = nth s policy2 0.

(** Every action has the same transition row and rewards at state [s]. *)
Definition action_independent (env : Algorithms.Env) (s : nat) : Prop :=
  forall s' a a',
    (s' < Algorithms.n_states env)%nat ->
    (a < Algorithms.n_actions env)%nat ->
    (a' < Algorithms.n_actions env)%nat ->
    Algorithms.prob env s s' a = Algorithms.prob env s s' a'
    /\ Algorithms.rew env s s' a = Algorithms.rew env s s' a'.

(** The policy component of what [policy_improvement] returns. *)
Definition improved_of (r : result (list Z * bool)) : result (list Z) :=
  match r with
  | Ok (improved_policy, _) => Ok improved_policy
  | Raise e => Raise e
  end.

(** A number model whose test [x == 0] tells 0 and 1 apart. *)
Definition zero_test_ok (K : Num) : Prop :=
  @eq_zero K zero = true /\ @eq_zero K one = false.

(** The cells of a grid that hold the start symbol. *)
Definition start_cells (grid : Np.chararray) : list nat :=
  filter (fun s => String.eqb (cell grid s) "&") (seq 0 (Np.size grid)).

(** The reward the grid world pays for a cell symbol. *)
Definition token_reward (c : string) : Z :=
  if String.eqb c "$" then 1 else if String.eqb c "£" then -1 else 0.

(** Position [i] holds the largest entry of [l], and no earlier position
    holds an entry as large. *)
Definition first_maximum (l : list Qc) (i : nat) : Prop :=
  (i < length l)%nat
  /\ (forall j, (j < length l)%nat -> (nth j l 0 <= nth i l 0)%Qc)
  /\ (forall j, (j < i)%nat -> (nth j l 0 < nth i l 0)%Qc).

(** A policy that picks, in every state, the first of the actions whose
    one-step lookahead under [value] is largest. *)
Definition greedy (env : Algorithms.Env) (gamma : Qc) (value : list Qc)
    (policy : list Z) : Prop :=
  length policy = Algorithms.n_states env
  /\ forall s, (s < Algorithms.n_states env)%nat ->
       exists a, nth s policy 0 = Z.of_nat a
                 /\ first_maximum (Algorithms.action_values env s gamma value) a.

(** A state that is never left and pays nothing for staying: whatever the
    action, every other state has probability zero and the self-loop has
    reward zero. *)
Definition trap (env : Algorithms.Env) (s : nat) : Prop :=
  forall a, (a < Algorithms.n_actions env)%nat ->
    Algorithms.rew env s s a = 0%Qc
    /\ forall s', (s' < Algorithms.n_states env)%nat -> s' <> s ->
                  Algorithms.prob env s s' a = 0%Qc.

(** One sweep of [policy_evaluation] over all states, and [n] sweeps in a
    row, none of them cut short. *)
Definition sweep (env : Algorithms.Env) (policy : list Z) (gamma : Qc)
    (value : list Qc) : result (list Qc) :=
  '(value, _) <-
    for_each (seq 0 (Algorithms.n_states env))
             (Algorithms.evaluation_state env policy gamma) (value, 0%Qc) ;;
  Ok value.

Fixpoint sweeps (env : Algorithms.Env) (policy : list Z) (gamma : Qc)
    (n : nat) (value : list Qc) : result (list Qc) :=
  match n with
  | O => Ok value
  | S n' => value <- sweep env policy gamma value ;;
            sweeps env policy gamma n' value
  end.

(** How the grid world is drawn, symbol by symbol. *)
Definition world_symbol (c : string) : string :=
  if String.eqb c "." || String.eqb c "&" then "__"
  else if String.eqb c "#" then "##"
  else if String.eqb c "$" then "+1"
  else if String.eqb c "£" then "-1"
  else c.

(** The letter [render] writes for an action index: u, d, l, r. *)
Definition action_letter (a : Z) : string :=
  nth (Z.to_nat a) FrozenLake.action_letters EmptyString.

(** What [render] adds to its output for a policy and a value array over a
    grid: the letters of all entries but the last, then all values but the
    last, both in the grid's shape. *)
Definition overlay {K : Num} (grid : Np.chararray) (policy : list Z)
    (value : list num) : list Np.printed :=
  [Np.Text "Policy:";
   Np.Grid {| Np.rows := Np.rows grid; Np.columns := Np.columns grid;
              Np.cells := map action_letter (removelast policy) |};
   Np.Text "Value:";
   Np.Values (Np.rows grid) (Np.columns grid) (removelast value)].

(** An environment without negative probabilities or rewards. *)
Definition nonnegative (env : Algorithms.Env) : Prop :=
  forall s s' a,
    (s < Algorithms.n_states env)%nat -> (s' < Algorithms.n_states env)%nat ->
    (a < Algorithms.n_actions env)%nat ->
    (0 <= Algorithms.prob env s s' a)%Qc /\ (0 <= Algorithms.rew env s s' a)%Qc.

(** The index a sequence of length [n] reads for [i], when it accepts [i]:
    a negative index counts from the end. *)
Definition wrapped (n : nat) (i : Z) : Z :=
  if i <? 0 then i + Z.of_nat n else i.

(** The reward expected from one step of action [a] in state [s]. *)
Definition expected_reward (env : Algorithms.Env) (s a : nat) : Qc :=
  Np.sum (map (fun s' => (Algorithms.prob env s s' a
                          * Algorithms.rew env s s' a)%Qc)
              (seq 0 (Algorithms.n_states env))).

(** * Properties *)

(** ** Episode stepping *)

Section StepFacts.
Import Environment.

Variable RS : Type.
Variable Reward : Type.
Variable draw : RS -> Z -> Z -> (Z * Reward) * RS.
Context {K : Num}.

Lemma guard_false_iff (n_actions : nat) (action : Z) :
  (action <? 0) || (action >=? Z.of_nat n_actions) = false
  <-> valid_action n_actions action.
Proof.
  unfold valid_action.
  rewrite orb_false_iff, Z.ltb_ge, Z.geb_leb, Z.leb_gt. lia.
Qed.

Lemma guard_true_iff (n_actions : nat) (action : Z) :
  (action <? 0) || (action >=? Z.of_nat n_actions) = true
  <-> ~ valid_action n_actions action.
Proof.
  rewrite <- guard_false_iff. destruct (_ || _); intuition congruence.
Qed.

(** The base class on a rejected action. *)
Lemma base_step_invalid n_actions max_steps (self : EnvState RS) action :
  ~ valid_action n_actions action ->
  step RS Reward n_actions max_steps draw self action = (Raise InvalidAction, self).
Proof.
  intros H. apply guard_true_iff in H. unfold step. now rewrite H.
Qed.

(** The base class on an accepted action. *)
Lemma base_step_valid n_actions max_steps (self : EnvState RS) action :
  valid_action n_actions action ->
  step RS Reward n_actions max_steps draw self action =
  (Ok (fst (fst (draw (random_state self) (state self) action)),
       snd (fst (draw (random_state self) (state self) action)),
       n_steps self + 1 >=? max_steps),
   {| n_steps := n_steps self + 1;
      state := fst (fst (draw (random_state self) (state self) action));
      random_state := snd (draw (random_state self) (state self) action) |}).
Proof.
  intros H. apply guard_false_iff in H. unfold step. rewrite H.
  destruct (draw _ _ _) as [[s' rw] rs']. reflexivity.
Qed.

Lemma frozenlake_step_invalid (fl : FrozenLake.t) (st : EnvState RS) action :
  ~ valid_action FrozenLake.n_actions action ->
  FrozenLake.step RS Reward draw fl st action = (Raise InvalidAction, st).
Proof.
  intros H. unfold FrozenLake.step. now rewrite base_step_invalid.
Qed.

Lemma frozenlake_step_valid (fl : FrozenLake.t) (st : EnvState RS) action :
  valid_action FrozenLake.n_actions action ->
  FrozenLake.step RS Reward draw fl st action =
  (Ok (fst (fst (draw (random_state st) (state st) action)),
       snd (fst (draw (random_state st) (state st) action)),
       (fst (fst (draw (random_state st) (state st) action))
          =? FrozenLake.absorbing_state fl)
       || (n_steps st + 1 >=? FrozenLake.max_steps fl)),
   {| n_steps := n_steps st + 1;
      state := fst (fst (draw (random_state st) (state st) action));
      random_state := snd (draw (random_state st) (state st) action) |}).
Proof.
  intros H. unfold FrozenLake.step. now rewrite base_step_valid.
Qed.

Lemma gridworld_step_invalid (gw : GridWorld.t) (st : EnvState RS) action :
  ~ valid_action GridWorld.n_actions action ->
  GridWorld.step RS Reward draw gw st action = (Raise InvalidAction, st).
Proof.
  intros H. unfold GridWorld.step. now rewrite base_step_invalid.
Qed.

Lemma gridworld_step_valid (gw : GridWorld.t) (st : EnvState RS) action :
  valid_action GridWorld.n_actions action ->
  GridWorld.step RS Reward draw gw st action =
  (Ok (fst (fst (draw (random_state st) (state st) action)),
       snd (fst (draw (random_state st) (state st) action)),
       (fst (fst (draw (random_state st) (state st) action))
          =? GridWorld.absorbing_state gw)
       || (n_steps st + 1 >=? GridWorld.max_steps gw)),
   {| n_steps := n_steps st + 1;
      state := fst (fst (draw (random_state st) (state st) action));
      random_state := snd (draw (random_state st) (state st) action) |}).
Proof.
  intros H. unfold GridWorld.step. now rewrite base_step_valid.
Qed.

Lemma done_flag_iff (s' absorbing count max_steps : Z) :
  (s' =? absorbing) || (count >=? max_steps) = true
  <-> (max_steps <= count \/ s' = absorbing).
Proof.
  rewrite orb_true_iff, Z.eqb_eq, Z.geb_leb, Z.leb_le. tauto.
Qed.

End StepFacts.

(** Claim C4. For a valid action, [step] adds one to the step counter, makes
    the drawn next state the current state, and reports [done = True]
    exactly when the new counter has reached [max_steps] (base class) or,
    in [FrozenLake] and [GridWorld], when it has reached [max_steps] or the
    new state is the absorbing state. *)
Theorem step_advances_and_reports_done :
  forall (RS Reward : Type) (draw : RS -> Z -> Z -> (Z * Reward) * RS)
         (n_actions : nat) (max_steps : Z)
         (K : Num) (fl : @FrozenLake.t K) (gw : GridWorld.t)
         (self : Environment.EnvState RS) (action : Z),
    let drawn := draw (Environment.random_state self)
                      (Environment.state self) action in
    let state' := fst (fst drawn) in
    let reward := snd (fst drawn) in
    let self' := {| Environment.n_steps := Environment.n_steps self + 1;
                    Environment.state := state';
                    Environment.random_state := snd drawn |} in
    (valid_action n_actions action ->
     exists done,
       Environment.step RS Reward n_actions max_steps draw self action
       = (Ok (state', reward, done), self')
       /\ (done = true <-> max_steps <= Environment.n_steps self'))
    /\ (valid_action FrozenLake.n_actions action ->
        exists done,
          FrozenLake.step RS Reward draw fl self action
          = (Ok (state', reward, done), self')
          /\ (done = true <->
              FrozenLake.max_steps fl <= Environment.n_steps self'
              \/ state' = FrozenLake.absorbing_state fl))
    /\ (valid_action GridWorld.n_actions action ->
        exists done,
          GridWorld.step RS Reward draw gw self action
          = (Ok (state', reward, done), self')
          /\ (done = true <->
              GridWorld.max_steps gw <= Environment.n_steps self'
              \/ state' = GridWorld.absorbing_state gw)).
Proof.
  intros RS Reward draw n_actions max_steps K fl gw self action drawn state' reward
         self'.
  repeat split.
  - intros H. eexists. split.
    + apply base_step_valid, H.
    + simpl. rewrite Z.geb_leb, Z.leb_le. reflexivity.
  - intros H. eexists. split.
    + apply frozenlake_step_valid, H.
    + apply done_flag_iff.
  - intros H. eexists. split.
    + apply gridworld_step_valid, H.
    + apply done_flag_iff.
Qed.


(** Claim C10. When [step] rejects the action, the object's fields after the
    call (step counter, current state, random source) are those before the
    call: the check comes before every assignment. *)
Theorem step_invalid_action_leaves_state :
  forall (RS Reward : Type) (draw : RS -> Z -> Z -> (Z * Reward) * RS)
         (n_actions : nat) (max_steps : Z)
         (K : Num) (fl : @FrozenLake.t K) (gw : GridWorld.t)
         (self : Environment.EnvState RS) (action : Z),
    (~ valid_action n_actions action ->
     Environment.step RS Reward n_actions max_steps draw self action
     = (Raise InvalidAction, self))
    /\ (~ valid_action FrozenLake.n_actions action ->
        FrozenLake.step RS Reward draw fl self action = (Raise InvalidAction, self))
    /\ (~ valid_action GridWorld.n_actions action ->
        GridWorld.step RS Reward draw gw self action = (Raise InvalidAction, self)).
Proof.
  intros. repeat split.
  - apply base_step_invalid.
  - apply frozenlake_step_invalid.
  - apply gridworld_step_invalid.
Qed.

(** ** Sequences and tensors *)

Section NpFacts.
Import Np.
Context {K : Num}.

Lemma np_index_in_range (n : nat) (i : Z) :
  0 <= i < Z.of_nat n -> np_index n i = Ok (Z.to_nat i).
Proof.
  intros H. unfold np_index.
  replace (0 <=? i) with true by (symmetry; apply Z.leb_le; lia).
  replace (i <? Z.of_nat n) with true by (symmetry; apply Z.ltb_lt; lia).
  reflexivity.
Qed.

Lemma np_index_above (n : nat) (i : Z) :
  Z.of_nat n <= i -> np_index n i = Raise IndexError.
Proof.
  intros H. unfold np_index.
  replace (i <? Z.of_nat n) with false by (symmetry; apply Z.ltb_ge; lia).
  replace (i <? 0) with false by (symmetry; apply Z.ltb_ge; lia).
  now rewrite !andb_false_r.
Qed.

Lemma item_in_range {A} (l : list A) (i : Z) (d : A) :
  0 <= i < Z.of_nat (length l) -> item l i = Ok (nth (Z.to_nat i) l d).
Proof.
  intros H. unfold item. rewrite np_index_in_range by exact H. simpl.
  destruct (nth_error l (Z.to_nat i)) eqn:E.
  - now rewrite (nth_error_nth _ _ d E).
  - apply nth_error_None in E. lia.
Qed.

Lemma length_upd {A} (l : list A) (k : nat) (x : A) :
  length (upd l k x) = length l.
Proof.
  revert k. induction l as [|y l IH]; intros [|k]; simpl; auto.
Qed.

Lemma nth_upd {A} (l : list A) (k j : nat) (x d : A) :
  nth j (upd l k x) d =
  if Nat.eqb j k && Nat.ltb k (length l) then x else nth j l d.
Proof.
  revert k j. induction l as [|y l IH]; intros k j.
  - simpl. rewrite andb_false_r. now destruct k.
  - destruct k as [|k], j as [|j]; simpl; auto.
Qed.

Lemma setitem_in_range {A} (l : list A) (i : Z) (x : A) :
  0 <= i < Z.of_nat (length l) -> setitem l i x = Ok (upd l (Z.to_nat i) x).
Proof.
  intros H. unfold setitem. now rewrite np_index_in_range.
Qed.

Lemma shape3_zeros3 (n m k : nat) : shape3 n m k (zeros3 n m k).
Proof.
  unfold shape3, zeros3, zeros. split; [apply repeat_length|].
  split; intros.
  - rewrite nth_repeat_lt by assumption. apply repeat_length.
  - rewrite nth_repeat_lt by assumption. rewrite nth_repeat_lt by assumption.
    apply repeat_length.
Qed.

Lemma val_zeros3 (n m k i j l : nat) : val (zeros3 n m k) i j l = zero.
Proof.
  unfold val, zeros3, zeros.
  destruct (Nat.lt_ge_cases i n) as [Hi|Hi].
  - rewrite nth_repeat_lt by assumption.
    destruct (Nat.lt_ge_cases j m) as [Hj|Hj].
    + rewrite nth_repeat_lt by assumption. apply nth_repeat.
    + rewrite (nth_overflow (repeat _ m)) by (now rewrite repeat_length).
      now destruct l.
  - rewrite (nth_overflow (repeat _ n)) by (now rewrite repeat_length).
    now destruct j, l.
Qed.

Lemma item3_in_shape (n m k : nat) (t : tensor) (i j l : Z) :
  shape3 n m k t ->
  0 <= i < Z.of_nat n -> 0 <= j < Z.of_nat m -> 0 <= l < Z.of_nat k ->
  item3 t i j l = Ok (val t (Z.to_nat i) (Z.to_nat j) (Z.to_nat l)).
Proof.
  intros (Hn & Hm & Hk) Hi Hj Hl. unfold item3, val.
  rewrite (item_in_range t i []) by lia. simpl.
  rewrite (item_in_range _ j []) by (rewrite Hm; lia). simpl.
  apply item_in_range. rewrite Hk; lia.
Qed.

End NpFacts.

Section TensorUpdates.
Import Np.
Context {K : Num}.

Variables n m k : nat.

Lemma iadd3_in_shape (t : tensor) (i j l : Z) (v : num) :
  shape3 n m k t ->
  0 <= i < Z.of_nat n -> 0 <= j < Z.of_nat m -> 0 <= l < Z.of_nat k ->
  exists t',
    iadd3 t i j l v = Ok t'
    /\ shape3 n m k t'
    /\ forall i' j' l',
        val t' i' j' l' =
        if Nat.eqb i' (Z.to_nat i) && Nat.eqb j' (Z.to_nat j)
           && Nat.eqb l' (Z.to_nat l)
        then add (val t i' j' l') v
        else val t i' j' l'.
Proof.
  intros (Hn & Hm & Hk) Hi Hj Hl. unfold iadd3.
  rewrite (item_in_range t i []) by lia. simpl.
  rewrite (item_in_range _ j []) by (rewrite Hm; lia). simpl.
  rewrite (item_in_range _ l zero) by (rewrite Hk; lia). simpl.
  rewrite setitem_in_range by (rewrite Hk; lia). simpl.
  rewrite setitem_in_range by (rewrite Hm; lia). simpl.
  rewrite setitem_in_range by lia.
  set (I := Z.to_nat i). set (J := Z.to_nat j). set (L := Z.to_nat l).
  assert (HI : (I < n)%nat) by (unfold I; lia).
  assert (HJ : (J < m)%nat) by (unfold J; lia).
  assert (HL : (L < k)%nat) by (unfold L; lia).
  eexists. split; [reflexivity|]. split.
  - split; [now rewrite length_upd|]. split.
    + intros i' Hi'. rewrite nth_upd.
      destruct (Nat.eqb i' I && Nat.ltb I (length t)); [|now apply Hm].
      rewrite length_upd. now apply Hm.
    + intros i' j' Hi' Hj'. rewrite nth_upd.
      destruct (Nat.eqb i' I && Nat.ltb I (length t)); [|now apply Hk].
      rewrite nth_upd.
      destruct (Nat.eqb j' J && Nat.ltb J _); [|now apply Hk].
      rewrite length_upd. now apply Hk.
  - intros i' j' l'. unfold val. rewrite nth_upd.
    replace (Nat.ltb I (length t)) with true
      by (symmetry; apply Nat.ltb_lt; lia).
    rewrite andb_true_r.
    destruct (Nat.eqb_spec i' I) as [->|Hne]; simpl; [|reflexivity].
    rewrite nth_upd.
    replace (Nat.ltb J (length (nth I t []))) with true
      by (symmetry; apply Nat.ltb_lt; rewrite Hm; lia).
    rewrite andb_true_r.
    destruct (Nat.eqb_spec j' J) as [->|Hne]; simpl; [|reflexivity].
    rewrite nth_upd.
    replace (Nat.ltb L (length (nth J (nth I t []) []))) with true
      by (symmetry; apply Nat.ltb_lt; rewrite Hk; lia).
    rewrite andb_true_r.
    destruct (Nat.eqb_spec l' L) as [->|Hne]; simpl; reflexivity.
Qed.

Lemma map_setitem_in_range (plane : list (list num)) (l : Z) (v : num) :
  (forall line, In line plane -> 0 <= l < Z.of_nat (length line)) ->
  map_result (fun line => setitem line l v) plane
  = Ok (map (fun line => upd line (Z.to_nat l) v) plane).
Proof.
  induction plane as [|line plane IH]; intros H; simpl; [reflexivity|].
  rewrite setitem_in_range by (apply H; now left). simpl.
  rewrite IH by (intros; apply H; now right). reflexivity.
Qed.

Lemma fill_column_in_shape (t : tensor) (i l : Z) (v : num) :
  shape3 n m k t ->
  0 <= i < Z.of_nat n -> 0 <= l < Z.of_nat k ->
  exists t',
    fill_column t i l v = Ok t'
    /\ shape3 n m k t'
    /\ forall i' j' l',
        val t' i' j' l' =
        if Nat.eqb i' (Z.to_nat i) && Nat.ltb j' m && Nat.eqb l' (Z.to_nat l)
        then v else val t i' j' l'.
Proof.
  intros (Hn & Hm & Hk) Hi Hl. unfold fill_column.
  rewrite (item_in_range t i []) by lia. simpl.
  set (I := Z.to_nat i). set (L := Z.to_nat l).
  assert (HI : (I < n)%nat) by (unfold I; lia).
  assert (HL : (L < k)%nat) by (unfold L; lia).
  rewrite map_setitem_in_range.
  2:{ intros line Hin. apply (In_nth _ _ []) in Hin.
      destruct Hin as (j & Hj & <-). rewrite Hk; [lia|assumption|].
      now rewrite Hm in Hj. }
  simpl. rewrite setitem_in_range by lia. fold I L.
  eexists. split; [reflexivity|].
  assert (Hnth : forall j', (j' < m)%nat ->
            nth j' (map (fun line => upd line L v) (nth I t [])) []
            = upd (nth j' (nth I t []) []) L v).
  { intros j' Hj'.
    change (@nil num) with ((fun line => upd line L v) []) at 1.
    now rewrite map_nth. }
  split.
  - split; [now rewrite length_upd|]. split.
    + intros i' Hi'. rewrite nth_upd.
      destruct (Nat.eqb i' I && Nat.ltb I (length t)); [|now apply Hm].
      rewrite length_map. now apply Hm.
    + intros i' j' Hi' Hj'. rewrite nth_upd.
      destruct (Nat.eqb i' I && Nat.ltb I (length t)); [|now apply Hk].
      rewrite Hnth by assumption. rewrite length_upd. now apply Hk.
  - intros i' j' l'. unfold val. rewrite nth_upd.
    replace (Nat.ltb I (length t)) with true
      by (symmetry; apply Nat.ltb_lt; lia).
    rewrite andb_true_r.
    destruct (Nat.eqb_spec i' I) as [->|Hne]; simpl; [|reflexivity].
    destruct (Nat.ltb_spec j' m) as [Hj'|Hj']; simpl.
    + rewrite Hnth by assumption. rewrite nth_upd.
      replace (Nat.ltb L (length (nth j' (nth I t []) []))) with true
        by (symmetry; apply Nat.ltb_lt; rewrite Hk; lia).
      now rewrite andb_true_r.
    + rewrite !(nth_overflow _ []); try reflexivity.
      * rewrite Hm; assumption.
      * rewrite length_map, Hm; assumption.
Qed.

End TensorUpdates.

(** ** Loops over a tensor *)

Section TensorLoops.
Import Np.
Context {K : Num}.

Variables n m k : nat.

(** A loop whose iterations change the entries one by one changes each
    entry by the iterations in turn. *)
Lemma for_each_pointwise {A} (l : list A) (body : A -> tensor -> result tensor)
    (change : A -> nat -> nat -> nat -> num -> num) :
  (forall x P, In x l -> shape3 n m k P ->
     exists P', body x P = Ok P' /\ shape3 n m k P'
       /\ forall i j l', val P' i j l' = change x i j l' (val P i j l')) ->
  forall P, shape3 n m k P ->
    exists P', for_each l body P = Ok P' /\ shape3 n m k P'
      /\ forall i j l',
          val P' i j l'
          = fold_left (fun acc x => change x i j l' acc) l (val P i j l').
Proof.
  induction l as [|x l IH]; intros Hbody P HP; simpl.
  - exists P. repeat split; apply HP.
  - destruct (Hbody x P (or_introl eq_refl) HP) as (P1 & -> & HP1 & Hval1).
    simpl.
    destruct (IH (fun y Q Hy => Hbody y Q (or_intror Hy)) P1 HP1)
      as (P2 & -> & HP2 & Hval2).
    exists P2. repeat split; try apply HP2.
    intros. now rewrite Hval2, Hval1.
Qed.

(** A loop over [range n] whose iteration [s] writes row [s] only, starting
    from the zero tensor. *)
Lemma for_each_rows (body : Z -> tensor -> result tensor)
    (kernel : nat -> nat -> nat -> num) :
  (forall s P, (s < n)%nat -> shape3 n m k P ->
     (forall j l, val P s j l = zero) ->
     exists P', body (Z.of_nat s) P = Ok P' /\ shape3 n m k P'
       /\ (forall i j l, i <> s -> val P' i j l = val P i j l)
       /\ (forall j l, (j < m)%nat -> val P' s j l = kernel s j l)) ->
  forall P, shape3 n m k P -> (forall i j l, val P i j l = zero) ->
    exists P', for_each (range n) body P = Ok P' /\ shape3 n m k P'
      /\ forall s j l, (s < n)%nat -> (j < m)%nat ->
                       val P' s j l = kernel s j l.
Proof.
  intros Hbody.
  assert (Hgen : forall len a P, (a + len = n)%nat -> shape3 n m k P ->
            (forall i j l, (a <= i)%nat -> val P i j l = zero) ->
            (forall i j l, (i < a)%nat -> (j < m)%nat ->
                           val P i j l = kernel i j l) ->
            exists P', for_each (map Z.of_nat (seq a len)) body P = Ok P'
              /\ shape3 n m k P'
              /\ forall s j l, (s < n)%nat -> (j < m)%nat ->
                               val P' s j l = kernel s j l).
  { induction len as [|len IH]; intros a P Ha HP Hzero Hdone; simpl.
    - exists P. repeat split; try apply HP.
      intros. apply Hdone; lia.
    - destruct (Hbody a P ltac:(lia) HP (fun j l => Hzero a j l (le_n a)))
        as (P1 & -> & HP1 & Hframe & Hrow).
      simpl. apply (IH (S a) P1); try assumption; try lia.
      + intros i j l Hi. rewrite Hframe by lia. apply Hzero. lia.
      + intros i j l Hi Hj. destruct (Nat.eq_dec i a) as [->|Hne].
        * now apply Hrow.
        * rewrite Hframe by assumption. apply Hdone; lia. }
  intros P HP Hzero. apply (Hgen n 0%nat P); auto; intros; lia.
Qed.

End TensorLoops.

(** ** Grids *)

Section GridFacts.
Import Np EnvHelper.

Variable grid : chararray.
Hypothesis Hwf : well_formed grid.

Lemma position_in_grid (s : nat) :
  (s < size grid)%nat ->
  0 <= Z.of_nat s / Z.of_nat (columns grid) < Z.of_nat (rows grid)
  /\ 0 <= Z.of_nat s mod Z.of_nat (columns grid) < Z.of_nat (columns grid).
Proof.
  unfold size. intros Hs. set (c := Z.of_nat (columns grid)).
  assert (Hc : 0 < c) by (unfold c; nia).
  split.
  - split; [apply Z.div_pos; lia|].
    apply Z.div_lt_upper_bound; [lia|]. unfold c. nia.
  - apply Z.mod_pos_bound. lia.
Qed.

(** Reading the grid at a coordinate inside it. *)
Lemma item2_in_grid (x y : Z) :
  0 <= x < Z.of_nat (rows grid) -> 0 <= y < Z.of_nat (columns grid) ->
  item2 grid x y
  = Ok (cell grid (Z.to_nat (x * Z.of_nat (columns grid) + y))).
Proof.
  intros Hx Hy. unfold item2, cell.
  rewrite !np_index_in_range by assumption. simpl.
  replace (Z.to_nat x * columns grid + Z.to_nat y)%nat
    with (Z.to_nat (x * Z.of_nat (columns grid) + y)) by nia.
  destruct (nth_error _ _) eqn:E.
  - now rewrite (nth_error_nth _ _ _ E).
  - apply nth_error_None in E. destruct Hwf as (Hlen & _).
    rewrite Hlen in E. unfold size in E. nia.
Qed.

(** Reading the grid at the coordinate of a cell index. *)
Lemma item2_at_index (s : nat) :
  (s < size grid)%nat ->
  item2 grid (Z.of_nat s / Z.of_nat (columns grid))
             (Z.of_nat s mod Z.of_nat (columns grid))
  = Ok (cell grid s).
Proof.
  intros Hs. destruct (position_in_grid s Hs) as (Hx & Hy).
  rewrite item2_in_grid by assumption. f_equal. f_equal.
  rewrite Z.mul_comm, <- Z.div_mod by lia. apply Nat2Z.id.
Qed.

(** The cell a move reaches is a cell of the grid. *)
Lemma reached_in_grid (s a : nat) :
  (s < size grid)%nat -> (reached grid s a < size grid)%nat.
Proof.
  intros Hs. unfold reached, in_bounds, destination.
  destruct (_ && _) eqn:E; [|assumption].
  rewrite !andb_true_iff in E. destruct E as (((H1 & H2) & H3) & H4).
  apply Z.leb_le in H1, H3. apply Z.ltb_lt in H2, H4.
  unfold size. nia.
Qed.

End GridFacts.

(** ** The transition tensor of the frozen lake *)

Section PopulateFacts.
Import Np EnvHelper.
Context {K : Num}.

Variable self : FrozenLake.t.
Hypothesis Hwf : well_formed (FrozenLake.lake self).

Let lake := FrozenLake.lake self.
Let slip := FrozenLake.slip self.
Let N := FrozenLake.n_states self.
Let c := Z.of_nat (columns lake).

Lemma next_state_reached (s b : nat) :
  (let next_x := Z.of_nat s / c + fst (delta b) in
   let next_y := Z.of_nat s mod c + snd (delta b) in
   if (0 <=? next_x) && (next_x <? Z.of_nat (rows lake))
      && (0 <=? next_y) && (next_y <? c)
   then position_to_index next_x next_y c
   else Z.of_nat s)
  = Z.of_nat (reached lake s b).
Proof.
  unfold reached, in_bounds, destination, position_to_index. fold c.
  cbv zeta.
  destruct (_ && _) eqn:E; [|reflexivity].
  rewrite !andb_true_iff in E. destruct E as (((H1 & H2) & H3) & H4).
  apply Z.leb_le in H1, H3. apply Z.ltb_lt in H2, H4.
  rewrite Z2Nat.id; [reflexivity|nia].
Qed.

(** One pass of the innermost loop. *)
Lemma populate_slip_spec (s a b : nat) (P : tensor) :
  (s < size lake)%nat -> (a < 4)%nat -> (b < 4)%nat ->
  shape3 N 4 N P ->
  exists P',
    FrozenLake.populate_slip self (Z.of_nat s)
      (Z.of_nat s / c) (Z.of_nat s mod c) (Z.of_nat a) (Z.of_nat b) P = Ok P'
    /\ shape3 N 4 N P'
    /\ forall i j l,
        val P' i j l =
        if Nat.eqb i s && Nat.eqb j a
        then slip_step lake slip s a l (val P i j l) b
        else val P i j l.
Proof.
  intros Hs Ha Hb HP. unfold FrozenLake.populate_slip.
  rewrite (item_in_range FrozenLake.actions (Z.of_nat b) (0, 0))
    by (simpl; lia).
  unfold bind at 1. rewrite Nat2Z.id.
  change (nth b FrozenLake.actions (0, 0)) with (delta b).
  fold lake c. cbv zeta.
  pose proof (next_state_reached s b) as Hns. cbv zeta in Hns. rewrite Hns.
  clear Hns.
  pose proof (reached_in_grid lake s b Hs) as Hr.
  assert (HN : N = (size lake + 1)%nat) by reflexivity.
  destruct (iadd3_in_shape N 4 N P (Z.of_nat s) (Z.of_nat a)
              (Z.of_nat (reached lake s b))
              (div (FrozenLake.slip self) (of_nat FrozenLake.n_actions)) HP)
    as (P1 & -> & HP1 & Hval1); try lia.
  unfold bind at 1.
  rewrite !Nat2Z.id in Hval1.
  destruct (Z.eqb_spec (Z.of_nat a) (Z.of_nat b)) as [Hab|Hab].
  - destruct (iadd3_in_shape N 4 N P1 (Z.of_nat s) (Z.of_nat a)
                (Z.of_nat (reached lake s b))
                (sub one (FrozenLake.slip self)) HP1)
      as (P2 & -> & HP2 & Hval2); try lia.
    rewrite !Nat2Z.id in Hval2.
    exists P2. repeat split; try apply HP2.
    intros i j l. rewrite Hval2, Hval1. unfold slip_step.
    replace (Nat.eqb a b) with true by (symmetry; apply Nat.eqb_eq; lia).
    rewrite (Nat.eqb_sym l). fold slip.
    destruct (Nat.eqb i s), (Nat.eqb j a), (Nat.eqb (reached lake s b) l);
      reflexivity.
  - exists P1. repeat split; try apply HP1.
    intros i j l. rewrite Hval1. unfold slip_step.
    replace (Nat.eqb a b) with false by (symmetry; apply Nat.eqb_neq; lia).
    rewrite (Nat.eqb_sym l). fold slip.
    destruct (Nat.eqb i s), (Nat.eqb j a), (Nat.eqb (reached lake s b) l);
      reflexivity.
Qed.

(** What the two inner loops do to an entry. *)
Lemma slip_total (s i j l : nat) (v : num) :
  fold_left
    (fun acc a =>
       fold_left
         (fun acc b =>
            if Nat.eqb i s && Nat.eqb j (Z.to_nat a)
            then slip_step lake slip s (Z.to_nat a) l acc (Z.to_nat b)
            else acc)
         (range FrozenLake.n_actions) acc)
    (range FrozenLake.n_actions) v
  = if Nat.eqb i s && Nat.ltb j 4
    then fold_left (slip_step lake slip s j l) (seq 0 FrozenLake.n_actions) v
    else v.
Proof.
  change (range FrozenLake.n_actions) with [0; 1; 2; 3].
  change (seq 0 FrozenLake.n_actions) with [0%nat; 1%nat; 2%nat; 3%nat].
  cbn [fold_left].
  change (Z.to_nat 0) with 0%nat. change (Z.to_nat 1) with 1%nat.
  change (Z.to_nat 2) with 2%nat. change (Z.to_nat 3) with 3%nat.
  destruct (Nat.eqb i s); cbn [andb]; [|reflexivity].
  destruct j as [|[|[|[|j]]]]; reflexivity.
Qed.

Lemma in_range_inv (len : nat) (x : Z) :
  In x (range len) -> exists b, x = Z.of_nat b /\ (b < len)%nat.
Proof.
  unfold range. rewrite in_map_iff. intros (b & <- & Hb).
  apply in_seq in Hb. exists b. split; [reflexivity|lia].
Qed.

(** One pass of the loop over the states. *)
Lemma populate_state_spec (s : nat) (P : tensor) :
  (s < N)%nat -> shape3 N 4 N P ->
  (forall j l, val P s j l = zero) ->
  exists P',
    FrozenLake.populate_state self (Z.of_nat s) P = Ok P'
    /\ shape3 N 4 N P'
    /\ (forall i j l, i <> s -> val P' i j l = val P i j l)
    /\ (forall j l, (j < 4)%nat -> val P' s j l = lake_kernel lake slip s j l).
Proof.
  intros Hs HP Hzero.
  assert (HN : N = (size lake + 1)%nat) by reflexivity.
  unfold FrozenLake.populate_state, index_to_position, lake_kernel.
  fold lake c.
  assert (Hterm :
            (if Z.of_nat s =? FrozenLake.absorbing_state self then Ok true
             else c0 <- item2 lake (Z.of_nat s / c) (Z.of_nat s mod c) ;;
                  Ok (String.eqb c0 "#" || String.eqb c0 "$"))
            = Ok (Nat.eqb s (size lake) || lake_terminal lake s)).
  { unfold FrozenLake.absorbing_state. fold N.
    destruct (Nat.eqb_spec s (size lake)) as [->|Hne].
    - replace (_ =? _) with true by (symmetry; apply Z.eqb_eq; lia).
      reflexivity.
    - replace (_ =? _) with false by (symmetry; apply Z.eqb_neq; lia).
      unfold c. rewrite item2_at_index by (assumption || lia).
      reflexivity. }
  rewrite Hterm. unfold bind at 1.
  destruct (Nat.eqb s (size lake) || lake_terminal lake s) eqn:Eterm.
  - destruct (fill_column_in_shape N 4 N P (Z.of_nat s)
                (FrozenLake.absorbing_state self) one HP)
      as (P1 & -> & HP1 & Hval1);
      try (unfold FrozenLake.absorbing_state; fold N; lia).
    exists P1. repeat split; try apply HP1.
    + intros i j l Hne. rewrite Hval1, Nat2Z.id.
      replace (Nat.eqb i s) with false by (symmetry; now apply Nat.eqb_neq).
      reflexivity.
    + intros j l Hj. rewrite Hval1, Nat2Z.id, Nat.eqb_refl.
      replace (Nat.ltb j 4) with true by (symmetry; now apply Nat.ltb_lt).
      unfold FrozenLake.absorbing_state. fold N.
      replace (Z.to_nat (Z.of_nat N - 1)) with (size lake) by lia.
      cbn [andb]. destruct (Nat.eqb l (size lake)); [reflexivity|apply Hzero].
  - apply orb_false_iff in Eterm. destruct Eterm as (Hne & _).
    apply Nat.eqb_neq in Hne.
    assert (Hs' : (s < size lake)%nat) by lia.
    destruct (for_each_pointwise N 4 N (range FrozenLake.n_actions)
                (fun action P0 =>
                   for_each (range FrozenLake.n_actions)
                     (FrozenLake.populate_slip self (Z.of_nat s)
                        (Z.of_nat s / c) (Z.of_nat s mod c) action) P0)
                (fun action i j l acc =>
                   fold_left
                     (fun acc b =>
                        if Nat.eqb i s && Nat.eqb j (Z.to_nat action)
                        then slip_step lake slip s (Z.to_nat action) l acc
                                       (Z.to_nat b)
                        else acc)
                     (range FrozenLake.n_actions) acc))
      with (P := P) as (P1 & HP1eq & HP1 & Hval1); [|exact HP|].
    + intros x Q Hx HQ. apply in_range_inv in Hx.
      destruct Hx as (a & -> & Ha).
      apply (for_each_pointwise N 4 N (range FrozenLake.n_actions)
               (FrozenLake.populate_slip self (Z.of_nat s)
                  (Z.of_nat s / c) (Z.of_nat s mod c) (Z.of_nat a))
               (fun b i j l acc =>
                  if Nat.eqb i s && Nat.eqb j (Z.to_nat (Z.of_nat a))
                  then slip_step lake slip s (Z.to_nat (Z.of_nat a)) l acc
                                 (Z.to_nat b)
                  else acc)); [|exact HQ].
      intros y Q' Hy HQ'. apply in_range_inv in Hy.
      destruct Hy as (b & -> & Hb). rewrite !Nat2Z.id.
      now apply populate_slip_spec.
    + exists P1. split; [exact HP1eq|]. split; [exact HP1|]. split.
      * intros i j l Hi. rewrite Hval1, slip_total.
        replace (Nat.eqb i s) with false by (symmetry; now apply Nat.eqb_neq).
        reflexivity.
      * intros j l Hj. rewrite Hval1, slip_total, Hzero, Nat.eqb_refl.
        replace (Nat.ltb j 4) with true by (symmetry; now apply Nat.ltb_lt).
        reflexivity.
Qed.

(** The whole loop, from the zero tensor. *)
Lemma populate_probabilities_spec (P : tensor) :
  shape3 N 4 N P -> (forall i j l, val P i j l = zero) ->
  exists P',
    for_each (range N) (FrozenLake.populate_state self) P = Ok P'
    /\ shape3 N 4 N P'
    /\ forall s j l, (s < N)%nat -> (j < 4)%nat ->
                     val P' s j l = lake_kernel lake slip s j l.
Proof.
  apply for_each_rows. intros s Q Hs HQ Hz. now apply populate_state_spec.
Qed.

End PopulateFacts.

(** ** Sums over a row *)

Section SumFacts.
Import Np.

Lemma map_result_ok {A B} (f : A -> result B) (g : A -> B) (l : list A) :
  (forall x, In x l -> f x = Ok (g x)) -> map_result f l = Ok (map g l).
Proof.
  induction l as [|x l IH]; intros H; simpl; [reflexivity|].
  rewrite H by now left. simpl.
  rewrite IH by (intros; apply H; now right). reflexivity.
Qed.



Lemma sum_zero {A} (f : A -> Qc) (l : list A) :
  (forall x, In x l -> f x = 0%Qc) -> sum (map f l) = 0%Qc.
Proof.
  induction l as [|x l IH]; intros H; simpl; [reflexivity|].
  rewrite H by now left. rewrite IH by (intros; apply H; now right). ring.
Qed.

(** A single entry of a row carries all of its mass. *)
Lemma sum_indicator (t : nat) (v : Qc) (a len : nat) :
  sum (map (fun s' => if Nat.eqb t s' then v else 0%Qc) (seq a len))
  = if Nat.leb a t && Nat.ltb t (a + len) then v else 0%Qc.
Proof.
  revert a. induction len as [|len IH]; intros a; simpl.
  - destruct (Nat.leb_spec a t), (Nat.ltb_spec t (a + 0)); simpl;
      try reflexivity; lia.
  - rewrite IH.
    destruct (Nat.eqb_spec t a), (Nat.leb_spec a t), (Nat.leb_spec (S a) t),
      (Nat.ltb_spec t (S a + len)), (Nat.ltb_spec t (a + S len));
      simpl; try lia; ring.
Qed.

Lemma sum_indicator_in (t : nat) (v : Qc) (len : nat) :
  (t < len)%nat ->
  sum (map (fun s' => if Nat.eqb t s' then v else 0%Qc) (seq 0 len)) = v.
Proof.
  intros H. rewrite sum_indicator. simpl.
  now replace (Nat.ltb t len) with true by (symmetry; now apply Nat.ltb_lt).
Qed.

End SumFacts.

(** ** The frozen lake after construction *)

Section FrozenLakeFacts.
Import Np.
Context {K : Num}.

Variable lake : chararray.
Variable slip : num.
Variable max_steps : Z.
Hypothesis Hwf : well_formed lake.

Let N := (size lake + 1)%nat.

(** Construction succeeds and fills the tensor with [lake_kernel]. *)
Lemma init_spec :
  exists fl,
    FrozenLake.init lake slip max_steps = Ok fl
    /\ FrozenLake.lake fl = lake
    /\ FrozenLake.slip fl = slip
    /\ FrozenLake.max_steps fl = max_steps
    /\ shape3 N 4 N (FrozenLake._p fl)
    /\ forall s a s', (s < N)%nat -> (a < 4)%nat ->
         val (FrozenLake._p fl) s a s' = lake_kernel lake slip s a s'.
Proof.
  unfold FrozenLake.init. fold N.
  set (self := {| FrozenLake.lake := lake; FrozenLake.slip := slip;
                  FrozenLake.max_steps := max_steps;
                  FrozenLake._p := zeros3 N FrozenLake.n_actions N |}).
  unfold FrozenLake._populate_probabilities.
  destruct (populate_probabilities_spec self Hwf (FrozenLake._p self))
    as (P & HP & Hshape & Hval).
  - apply shape3_zeros3.
  - intros. apply val_zeros3.
  - rewrite HP. simpl.
    eexists. split; [reflexivity|]. simpl. repeat split; try apply Hshape.
    exact Hval.
Qed.

(** The oracle of a constructed lake, inside the index ranges. *)
Lemma p_spec (fl : FrozenLake.t) (s a s' : nat) :
  FrozenLake.init lake slip max_steps = Ok fl ->
  (s < N)%nat -> (a < 4)%nat -> (s' < N)%nat ->
  FrozenLake.p fl (Z.of_nat s') (Z.of_nat s) (Z.of_nat a)
  = Ok (lake_kernel lake slip s a s').
Proof.
  intros Hfl Hs Ha Hs'.
  destruct init_spec as (fl' & Hfl' & _ & _ & _ & Hshape & Hval).
  rewrite Hfl in Hfl'. injection Hfl' as <-.
  unfold FrozenLake.p.
  rewrite (item3_in_shape N 4 N) by (assumption || lia).
  rewrite !Nat2Z.id. now rewrite Hval.
Qed.

End FrozenLakeFacts.

(** ** The kernel in exact arithmetic *)

Section ExactKernel.
Import Np.

Variable lake : chararray.
Variable slip : Qc.
Hypothesis Hwf : well_formed lake.

Let N := (size lake + 1)%nat.

Lemma four_actions :
  @of_nat Exact FrozenLake.n_actions
  = Q2Qc (inject_Z (Z.of_nat FrozenLake.n_actions)).
Proof. apply Qc_is_canon. reflexivity. Qed.


(** In exact arithmetic the order of the additions does not matter: the
    accumulated mass is the closed form of the specification. *)
Lemma accumulated_mass_exact (s a l : nat) :
  (a < 4)%nat ->
  @accumulated_mass Exact lake slip s a l = slip_kernel lake slip s a l.
Proof.
  intros Ha. unfold accumulated_mass, slip_kernel, slip_step.
  rewrite four_actions.
  set (q := (slip / Q2Qc (inject_Z (Z.of_nat FrozenLake.n_actions)))%Qc).
  change (@div Exact slip (Q2Qc (inject_Z (Z.of_nat FrozenLake.n_actions))))
    with q.
  change (@sub Exact (@one Exact) slip) with (1 - slip)%Qc.
  set (w := (1 - slip)%Qc).
  change (seq 0 FrozenLake.n_actions) with [0%nat; 1%nat; 2%nat; 3%nat].
  cbn [fold_left map sum fold_right].
  cbv [num zero one add sub div Exact].
  destruct a as [|[|[|[|a]]]]; [| | | |lia]; cbn [Nat.eqb];
    destruct (Nat.eqb (reached lake s 0) l), (Nat.eqb (reached lake s 1) l),
      (Nat.eqb (reached lake s 2) l), (Nat.eqb (reached lake s 3) l);
    ring.
Qed.



End ExactKernel.

(** ** The reward grid *)

Section GridWorldFacts.
Import Np EnvHelper.

Variable gw : GridWorld.t.
Hypothesis Hwf : well_formed (GridWorld.world gw).

Let world := GridWorld.world gw.
Let N := GridWorld.n_states gw.
Let c := Z.of_nat (columns world).

Lemma world_target_in_range (s a : nat) :
  (s < N)%nat -> (world_target world s a < N)%nat.
Proof.
  intros Hs. unfold world_target.
  assert (HN : N = (size world + 1)%nat) by reflexivity.
  destruct (Nat.eqb_spec s (size world)); cbn [orb]; [assumption|].
  destruct (String.eqb (cell world s) "#"); [assumption|].
  destruct (_ || _); [lia|].
  destruct (in_bounds world s a) eqn:E; cbn [andb]; [|assumption].
  destruct (negb _); [|assumption].
  pose proof (reached_in_grid world s a ltac:(lia)) as Hr.
  unfold reached in Hr. rewrite E in Hr. lia.
Qed.

(** [GridWorld.p] puts all the mass on [world_target]. *)
Lemma gridworld_p_spec (s a : nat) (next_state : Z) :
  (s < N)%nat -> (a < 4)%nat ->
  GridWorld.p gw next_state (Z.of_nat s) (Z.of_nat a)
  = Ok (Z.b2z (next_state =? Z.of_nat (world_target world s a))).
Proof.
  intros Hs Ha.
  assert (HN : N = (size world + 1)%nat) by reflexivity.
  unfold GridWorld.p, index_to_position, world_target. fold world c.
  rewrite (item_in_range GridWorld.actions (Z.of_nat a) (0, 0))
    by (simpl; lia).
  unfold bind at 1. rewrite Nat2Z.id.
  change (nth a GridWorld.actions (0, 0)) with (delta a).
  unfold GridWorld.absorbing_state. fold N.
  destruct (Nat.eqb_spec s (size world)) as [He|Hne]; cbn [orb].
  - replace (Z.of_nat s =? Z.of_nat N - 1) with true
      by (symmetry; apply Z.eqb_eq; lia).
    unfold bind. now rewrite Z.eqb_sym.
  - replace (Z.of_nat s =? Z.of_nat N - 1) with false
      by (symmetry; apply Z.eqb_neq; lia).
    assert (Hs' : (s < size world)%nat) by lia.
    unfold c. rewrite (item2_at_index world Hwf s Hs'). fold c.
    unfold bind at 1. unfold bind at 1.
    destruct (String.eqb (cell world s) "#").
    { now rewrite Z.eqb_sym. }
    unfold bind at 1.
    destruct (String.eqb (cell world s) "£" || String.eqb (cell world s) "$").
    { do 2 f_equal. f_equal. lia. }
    change ((0 <=? Z.of_nat s / c + fst (delta a))
            && (Z.of_nat s / c + fst (delta a) <? Z.of_nat (rows world))
            && (0 <=? Z.of_nat s mod c + snd (delta a))
            && (Z.of_nat s mod c + snd (delta a) <? c))
      with (in_bounds world s a).
    destruct (in_bounds world s a) eqn:E; cbn [andb].
    + assert (E' := E). unfold in_bounds in E'. fold c in E'.
      rewrite !andb_true_iff in E'. destruct E' as (((H1 & H2) & H3) & H4).
      apply Z.leb_le in H1, H3. apply Z.ltb_lt in H2, H4.
      unfold c in *. rewrite (item2_in_grid world Hwf) by lia.
      unfold bind.
      change (Z.to_nat
                ((Z.of_nat s / Z.of_nat (columns world) + fst (delta a))
                 * Z.of_nat (columns world)
                 + (Z.of_nat s mod Z.of_nat (columns world) + snd (delta a))))
        with (destination world s a).
      destruct (String.eqb (cell world (destination world s a)) "#");
        cbn [negb].
      * now rewrite Z.eqb_sym.
      * unfold position_to_index, destination. do 3 f_equal.
        rewrite Z2Nat.id; [reflexivity|nia].
    + unfold bind. now rewrite Z.eqb_sym.
Qed.




End GridWorldFacts.

(** * The transition and reward oracles *)

(** Claim C1. In the frozen lake, for a cell [s] that is neither a hole nor
    the goal (and so is not the absorbing state) and an intended action [a],
    the constructed probability of every next state [s'] is made of the
    masses of the four actions [a']: [slip / n_actions] when [a'] reaches
    [s'] from [s] (a move off the grid reaches [s] itself), and [1 - slip]
    on top when [a'] is the intended action, added up in the order of the
    loop. This holds in binary64 as in exact arithmetic, where the order
    does not matter and the entry is the closed form of the specification
    ([slip_kernel]). *)
Theorem frozenlake_slip_kernel :
  forall (lake : Np.chararray) (max_steps : Z),
    Np.well_formed lake ->
    (forall (K : Num) (slip : @num K),
        exists fl,
          FrozenLake.init lake slip max_steps = Ok fl
          /\ forall s a s',
              (s < Np.size lake)%nat -> lake_terminal lake s = false ->
              (a < FrozenLake.n_actions)%nat ->
              (s' < FrozenLake.n_states fl)%nat ->
              FrozenLake.p fl (Z.of_nat s') (Z.of_nat s) (Z.of_nat a)
              = Ok (accumulated_mass lake slip s a s'))
    /\ (forall (slip : Qc) s a s',
           (a < FrozenLake.n_actions)%nat ->
           @accumulated_mass Exact lake slip s a s'
           = slip_kernel lake slip s a s').
Proof.
  intros lake max_steps Hwf. split.
  - intros K slip.
    destruct (init_spec lake slip max_steps Hwf)
      as (fl & Hfl & Hlake & _ & _ & _ & _).
    exists fl. split; [exact Hfl|].
    intros s a s' Hs Hterm Ha Hs'.
    unfold FrozenLake.n_states in Hs'. rewrite Hlake in Hs'.
    rewrite (p_spec lake slip max_steps Hwf fl s a s' Hfl)
      by (assumption || lia).
    unfold lake_kernel. rewrite Hterm.
    replace (Nat.eqb s (Np.size lake)) with false
      by (symmetry; apply Nat.eqb_neq; lia).
    reflexivity.
  - intros slip s a s' Ha. now apply accumulated_mass_exact.
Qed.



(** Claim C3. In both environments, from the absorbing state
    ([n_states - 1]) every action leads to the absorbing state with
    probability one and to every other state with probability zero, and
    the reward of every transition out of the absorbing state is zero. The
    frozen lake's entries are the constants 1 and 0 in binary64 as in exact
    arithmetic. *)
Theorem absorbing_state_self_loop :
  forall (K : Num) (lake : Np.chararray) (slip : @num K) (max_steps : Z)
         (gw : GridWorld.t) (action : Z),
    Np.well_formed lake ->
    valid_action 4 action ->
    (exists fl,
        FrozenLake.init lake slip max_steps = Ok fl
        /\ forall s',
            (s' < FrozenLake.n_states fl)%nat ->
            FrozenLake.p fl (Z.of_nat s') (FrozenLake.absorbing_state fl) action
            = Ok (if Z.of_nat s' =? FrozenLake.absorbing_state fl
                  then one else zero)
            /\ FrozenLake.r fl (Z.of_nat s')
                            (FrozenLake.absorbing_state fl) action
               = Ok 0)
    /\ (forall next_state,
           GridWorld.p gw next_state (GridWorld.absorbing_state gw) action
           = Ok (if next_state =? GridWorld.absorbing_state gw then 1 else 0)
           /\ GridWorld.r gw next_state (GridWorld.absorbing_state gw) action
              = Ok 0).
Proof.
  intros K lake slip max_steps gw action Hlake Ha.
  unfold valid_action in Ha. split.
  - destruct (init_spec lake slip max_steps Hlake)
      as (fl & Hfl & Hl & _ & _ & _ & _).
    exists fl. split; [exact Hfl|].
    unfold FrozenLake.absorbing_state, FrozenLake.n_states. rewrite Hl.
    intros s' Hs'.
    assert (Hp : FrozenLake.p fl (Z.of_nat s')
                   (Z.of_nat (Np.size lake + 1) - 1) action
                 = Ok (if Z.of_nat s' =? Z.of_nat (Np.size lake + 1) - 1
                       then one else zero)).
    { replace (Z.of_nat (Np.size lake + 1) - 1)
        with (Z.of_nat (Np.size lake)) by lia.
      rewrite <- (Z2Nat.id action) by lia.
      rewrite (p_spec lake slip max_steps Hlake fl _ _ _ Hfl) by lia.
      unfold lake_kernel. rewrite Nat.eqb_refl. cbn [orb].
      destruct (Nat.eqb_spec s' (Np.size lake)), (Z.eqb_spec (Z.of_nat s')
                                                   (Z.of_nat (Np.size lake)));
        try reflexivity; lia. }
    split; [exact Hp|].
    unfold FrozenLake.r. unfold FrozenLake.p in Hp. rewrite Hp.
    unfold bind, FrozenLake.absorbing_state, FrozenLake.n_states.
    rewrite Hl, Z.eqb_refl, orb_true_r. reflexivity.
  - intros next_state.
    assert (Hp : GridWorld.p gw next_state (GridWorld.absorbing_state gw) action
                 = Ok (if next_state =? GridWorld.absorbing_state gw
                       then 1 else 0)).
    { unfold GridWorld.p, EnvHelper.index_to_position.
      rewrite (item_in_range GridWorld.actions action (0, 0)) by (simpl; lia).
      unfold bind. rewrite Z.eqb_refl, Z.eqb_sym.
      now destruct (next_state =? GridWorld.absorbing_state gw). }
    split; [exact Hp|].
    unfold GridWorld.r. rewrite Hp. unfold bind.
    rewrite Z.eqb_refl, orb_true_r. reflexivity.
Qed.

(** ** Queries outside the index ranges *)

Section BoundsFacts.
Import Np EnvHelper.
Context {K : Num}.

Lemma np_index_beyond (n : nat) (i : Z) :
  beyond n i -> np_index n i = Raise IndexError.
Proof.
  intros [H|H]; [now apply np_index_above|].
  unfold np_index.
  replace (0 <=? i) with false by (symmetry; apply Z.leb_gt; lia).
  replace (- Z.of_nat n <=? i) with false by (symmetry; apply Z.leb_gt; lia).
  reflexivity.
Qed.

Lemma np_index_wraps (n : nat) (i : Z) :
  - Z.of_nat n <= i < 0 -> np_index n i = np_index n (i + Z.of_nat n).
Proof.
  intros H. rewrite (np_index_in_range n (i + Z.of_nat n)) by lia.
  unfold np_index.
  replace (0 <=? i) with false by (symmetry; apply Z.leb_gt; lia).
  replace (- Z.of_nat n <=? i) with true by (symmetry; apply Z.leb_le; lia).
  replace (i <? 0) with true by (symmetry; apply Z.ltb_lt; lia).
  reflexivity.
Qed.

(** An index is rejected, or it names a position of the sequence. *)
Lemma np_index_cases (n : nat) (i : Z) :
  np_index n i = Raise IndexError
  \/ exists k, np_index n i = Ok k /\ (k < n)%nat.
Proof.
  unfold np_index.
  destruct ((0 <=? i) && (i <? Z.of_nat n)) eqn:E1.
  - right. eexists. split; [reflexivity|].
    apply andb_true_iff in E1. destruct E1 as (H1 & H2).
    apply Z.leb_le in H1. apply Z.ltb_lt in H2. lia.
  - destruct ((- Z.of_nat n <=? i) && (i <? 0)) eqn:E2; [|now left].
    right. eexists. split; [reflexivity|].
    apply andb_true_iff in E2. destruct E2 as (H1 & H2).
    apply Z.leb_le in H1. apply Z.ltb_lt in H2. lia.
Qed.

Lemma item_cases {A} (l : list A) (i : Z) (d : A) :
  item l i = Raise IndexError
  \/ exists k, item l i = Ok (nth k l d) /\ (k < length l)%nat.
Proof.
  unfold item.
  destruct (np_index_cases (length l) i) as [->|(k & -> & Hk)]; [now left|].
  right. exists k. simpl. split; [|assumption].
  destruct (nth_error l k) eqn:E.
  - now rewrite (nth_error_nth _ _ d E).
  - apply nth_error_None in E. lia.
Qed.

Lemma item_beyond {A} (l : list A) (i : Z) :
  beyond (length l) i -> item l i = Raise IndexError.
Proof.
  intros H. unfold item. now rewrite np_index_beyond.
Qed.

Lemma item_wraps {A} (l : list A) (i : Z) :
  - Z.of_nat (length l) <= i < 0 -> item l i = item l (i + Z.of_nat (length l)).
Proof.
  intros H. unfold item. now rewrite np_index_wraps.
Qed.



End BoundsFacts.

Lemma example_lake_well_formed : Np.well_formed Examples.lake.
Proof. split; [reflexivity | unfold lt; repeat constructor]. Defined.

Lemma example_grid_well_formed :
  Np.well_formed (GridWorld.world Examples.gridworld).
Proof. split; [reflexivity | unfold lt; repeat constructor]. Defined.

(** Claim C1 at the start cell of the docstring's lake, in exact
    arithmetic: moving down from cell 0 with slip 0.1 reaches cell 4. *)
Lemma frozenlake_slip_kernel_witness :
  exists fl,
    @FrozenLake.init Exact Examples.lake Examples.tenth 30 = Ok fl
    /\ FrozenLake.p fl (Z.of_nat 4) (Z.of_nat 0) (Z.of_nat 1)
       = Ok (slip_kernel Examples.lake Examples.tenth 0 1 4).
Proof.
  destruct (frozenlake_slip_kernel Examples.lake 30 example_lake_well_formed)
    as (Hany & Hexact).
  destruct (Hany Exact Examples.tenth) as (fl & Hfl & H).
  exists fl. split; [exact Hfl|].
  rewrite <- (Hexact Examples.tenth 0%nat 1%nat 4%nat)
    by (unfold lt; simpl; repeat constructor).
  apply H.
  - unfold lt. simpl. repeat constructor.
  - reflexivity.
  - unfold lt. simpl. repeat constructor.
  - unfold FrozenLake.n_states.
    assert (Hl : FrozenLake.lake fl = Examples.lake).
    { unfold FrozenLake.init in Hfl.
      destruct (FrozenLake._populate_probabilities _); simpl in Hfl;
        [|discriminate].
      injection Hfl as <-. reflexivity. }
    rewrite Hl. unfold lt. simpl. repeat constructor.
Defined.


(** Claim C3 for the action "left", in the docstring's lake over binary64
    and in the docstring's grid. *)
Lemma absorbing_state_self_loop_witness :
  (exists fl,
      @FrozenLake.init Binary64 Examples.lake Examples.fifth 30 = Ok fl
      /\ forall s',
          (s' < FrozenLake.n_states fl)%nat ->
          FrozenLake.p fl (Z.of_nat s') (FrozenLake.absorbing_state fl) 2
          = Ok (if Z.of_nat s' =? FrozenLake.absorbing_state fl
                then PrimFloat.one else PrimFloat.zero)
          /\ FrozenLake.r fl (Z.of_nat s') (FrozenLake.absorbing_state fl) 2
             = Ok 0)
  /\ (forall next_state,
         GridWorld.p Examples.gridworld next_state
                     (GridWorld.absorbing_state Examples.gridworld) 2
         = Ok (if next_state =? GridWorld.absorbing_state Examples.gridworld
               then 1 else 0)
         /\ GridWorld.r Examples.gridworld next_state
                        (GridWorld.absorbing_state Examples.gridworld) 2
            = Ok 0).
Proof.
  apply (absorbing_state_self_loop Binary64 Examples.lake Examples.fifth 30
           Examples.gridworld 2 example_lake_well_formed).
  unfold valid_action. split; [discriminate | reflexivity].
Defined.

(** Claim C4 for the action "down" from the start of an episode. *)
Lemma step_advances_and_reports_done_witness :
  let self' := {| Environment.n_steps := 1; Environment.state := 1;
                  Environment.random_state := 1%nat |} in
  (exists done,
      Environment.step nat Z 4 30 Examples.counter_draw Examples.start 1
      = (Ok (1, 0, done), self')
      /\ (done = true <-> 30 <= 1))
  /\ (exists done,
         FrozenLake.step nat Z Examples.counter_draw Examples.frozenlake
                         Examples.start 1
         = (Ok (1, 0, done), self')
         /\ (done = true <->
             FrozenLake.max_steps Examples.frozenlake <= 1
             \/ 1 = FrozenLake.absorbing_state Examples.frozenlake))
  /\ (exists done,
         GridWorld.step nat Z Examples.counter_draw Examples.gridworld
                        Examples.start 1
         = (Ok (1, 0, done), self')
         /\ (done = true <->
             GridWorld.max_steps Examples.gridworld <= 1
             \/ 1 = GridWorld.absorbing_state Examples.gridworld)).
Proof.
  intros self'.
  assert (Hv : valid_action 4 1)
    by (unfold valid_action; split; [discriminate | reflexivity]).
  destruct (step_advances_and_reports_done nat Z Examples.counter_draw 4 30
              Exact Examples.frozenlake Examples.gridworld Examples.start 1)
    as (H1 & H2 & H3).
  split; [exact (H1 Hv) | split; [exact (H2 Hv) | exact (H3 Hv)]].
Defined.

(** Claim C10 for the action 7 at the start of an episode. *)
Lemma step_invalid_action_leaves_state_witness :
  Environment.step nat Z 4 30 Examples.counter_draw Examples.start 7
  = (Raise InvalidAction, Examples.start)
  /\ FrozenLake.step nat Z Examples.counter_draw Examples.frozenlake
                     Examples.start 7
     = (Raise InvalidAction, Examples.start)
  /\ GridWorld.step nat Z Examples.counter_draw Examples.gridworld
                    Examples.start 7
     = (Raise InvalidAction, Examples.start).
Proof.
  assert (Hv : ~ valid_action 4 7).
  { unfold valid_action. intros (_ & H). discriminate H. }
  destruct (step_invalid_action_leaves_state nat Z Examples.counter_draw 4 30
              Exact Examples.frozenlake Examples.gridworld Examples.start 7)
    as (H1 & H2 & H3).
  split; [exact (H1 Hv) | split; [exact (H2 Hv) | exact (H3 Hv)]].
Defined.




(** * The solvers *)

Section SolverFacts.
Import Np Algorithms.

(** A loop whose iterations keep an invariant and do not raise. *)
Lemma for_each_invariant {A S} (Inv : S -> Prop) (l : list A)
    (body : A -> S -> result S) :
  (forall x st, In x l -> Inv st -> exists st', body x st = Ok st' /\ Inv st') ->
  forall st, Inv st -> exists st', for_each l body st = Ok st' /\ Inv st'.
Proof.
  induction l as [|x l IH]; intros Hbody st Hst; simpl.
  - now exists st.
  - destruct (Hbody x st (or_introl eq_refl) Hst) as (st1 & -> & Hst1). simpl.
    apply IH; [|exact Hst1]. intros y st' Hy. apply Hbody. now right.
Qed.

(** Two loops whose bodies agree on the elements visited are equal. *)
Lemma for_each_ext {A S} (l : list A) (body1 body2 : A -> S -> result S) :
  (forall x st, In x l -> body1 x st = body2 x st) ->
  forall st, for_each l body1 st = for_each l body2 st.
Proof.
  induction l as [|x l IH]; intros H st; simpl; [reflexivity|].
  rewrite H by now left. destruct (body2 x st); simpl; [|reflexivity].
  apply IH. intros. apply H. now right.
Qed.

Lemma all_equal_refl (l : list Z) : all_equal l l = Ok true.
Proof.
  induction l as [|x l IH]; simpl; [reflexivity|].
  now rewrite IH, Z.eqb_refl.
Qed.

Lemma all_equal_same_length (a b : list Z) :
  length a = length b -> exists t, all_equal a b = Ok t.
Proof.
  revert b. induction a as [|x a IH]; intros [|y b] H; simpl in *;
    try discriminate.
  - now exists true.
  - destruct (IH b) as (t & ->); [congruence|]. simpl. eauto.
Qed.

Lemma argmax_from_bound (l : list Qc) (best_i : nat) (best : Qc) (i : nat) :
  (best_i < i)%nat -> (argmax_from best_i best i l < i + length l)%nat.
Proof.
  revert best_i best i. induction l as [|x l IH]; intros best_i best i H; simpl.
  - lia.
  - destruct (Qcltb best x).
    + specialize (IH i x (S i) ltac:(lia)). lia.
    + specialize (IH best_i best (S i) ltac:(lia)). lia.
Qed.

(** [np.argmax] of a non-empty vector is one of its positions. *)
Lemma argmax_in_range (l : list Qc) :
  l <> [] -> exists a, argmax l = Ok a /\ 0 <= a < Z.of_nat (length l).
Proof.
  destruct l as [|x l]; [congruence|]. intros _. simpl.
  eexists. split; [reflexivity|].
  pose proof (argmax_from_bound l 0 x 1 ltac:(lia)). lia.
Qed.

Lemma action_values_length (env : Env) (s : nat) (gamma : Qc) (v : list Qc) :
  length (action_values env s gamma v) = n_actions env.
Proof.
  unfold action_values. now rewrite length_map, length_seq.
Qed.

Lemma column_ok (env : Env) (value : list Qc) :
  length value = n_states env -> column env value = Ok value.
Proof.
  intros H. unfold column. now rewrite H, Nat.eqb_refl.
Qed.

Lemma Forall_upd {A} (P : A -> Prop) (l : list A) (k : nat) (x : A) :
  Forall P l -> P x -> Forall P (upd l k x).
Proof.
  intros Hl Hx. revert k.
  induction Hl as [|y l Hy Hl IH]; intros [|k]; simpl; auto.
Qed.

(** The loop of [policy_improvement] returns a policy. *)
Lemma improvement_loop_ok (env : Env) (value : list Qc) (gamma : Qc) :
  length value = n_states env -> (0 < n_actions env)%nat ->
  exists improved,
    improvement_loop env value gamma = Ok improved /\ policy_ok env improved.
Proof.
  intros Hv HA. unfold improvement_loop.
  apply (for_each_invariant (policy_ok env)).
  - intros s improved Hs (Hlen & Hall). apply in_seq in Hs.
    rewrite column_ok by exact Hv. unfold bind at 1.
    destruct (argmax_in_range (action_values env s gamma value))
      as (a & -> & Ha).
    { intros E. apply (f_equal (@length Qc)) in E.
      rewrite action_values_length in E. simpl in E. lia. }
    unfold bind. rewrite action_values_length in Ha.
    rewrite setitem_in_range by lia.
    eexists. split; [reflexivity|]. split.
    + now rewrite length_upd.
    + now apply Forall_upd.
  - split; [apply repeat_length|].
    apply Forall_forall. intros x Hx. apply repeat_spec in Hx. subst. lia.
Qed.

(** [policy_improvement] returns on arrays of the environment's size. *)
Lemma policy_improvement_ok (env : Env) (policy : list Z) (value : list Qc)
    (gamma : Qc) :
  length policy = n_states env -> length value = n_states env ->
  (0 < n_actions env)%nat ->
  exists improved stable,
    policy_improvement env policy value gamma = Ok (improved, stable)
    /\ policy_ok env improved.
Proof.
  intros Hp Hv HA. unfold policy_improvement.
  destruct (improvement_loop_ok env value gamma Hv HA) as (imp & -> & Himp).
  unfold bind at 1.
  destruct (all_equal_same_length policy imp) as (t & ->).
  { destruct Himp as (Hlen & _). congruence. }
  simpl. eauto.
Qed.

(** The policy [policy_improvement] returns is the one its loop computes,
    whatever the input policy. *)
Lemma policy_improvement_inv (env : Env) (policy : list Z) (value : list Qc)
    (gamma : Qc) (improved : list Z) (stable : bool) :
  policy_improvement env policy value gamma = Ok (improved, stable) ->
  improvement_loop env value gamma = Ok improved
  /\ all_equal policy improved = Ok stable.
Proof.
  unfold policy_improvement.
  destruct (improvement_loop env value gamma) as [imp|e]; simpl;
    [|discriminate].
  destruct (all_equal policy imp) as [t|e] eqn:E; simpl; [|discriminate].
  intros H. injection H as <- <-. split; [reflexivity|exact E].
Qed.

End SolverFacts.

Lemma all_equal_true_iff (a b : list Z) (t : bool) :
  Algorithms.all_equal a b = Ok t -> (t = true <-> a = b).
Proof.
  revert b t. induction a as [|x a IH]; intros [|y b] t; simpl;
    try discriminate.
  - intros H. injection H as <-. tauto.
  - destruct (Algorithms.all_equal a b) as [t'|e] eqn:E; simpl;
      [|discriminate].
    intros H. injection H as <-. specialize (IH b t' E).
    rewrite andb_true_iff, Z.eqb_eq, IH. split.
    + intros (-> & ->). reflexivity.
    + intros H. injection H as -> ->. auto.
Qed.

(** Claim C8. The policy [policy_improvement] returns depends on the
    environment, the value array and the discount only: every input policy
    gets the same improved policy, and the input policy decides the stable
    flag alone (true exactly when it equals the improved policy). Hence
    improving the improved policy again, with the same value array, returns
    it unchanged with [stable = True]. The arrays have the environment's
    size, and the environment has an action. *)
Theorem policy_improvement_idempotent :
  forall (env : Algorithms.Env) (policy : list Z) (value : list Qc)
         (gamma : Qc),
    length policy = Algorithms.n_states env ->
    length value = Algorithms.n_states env ->
    (0 < Algorithms.n_actions env)%nat ->
    exists improved stable,
      Algorithms.policy_improvement env policy value gamma
      = Ok (improved, stable)
      /\ (forall policy',
             length policy' = Algorithms.n_states env ->
             improved_of (Algorithms.policy_improvement env policy' value gamma)
             = Ok improved)
      /\ (stable = true <-> policy = improved)
      /\ Algorithms.policy_improvement env improved value gamma
         = Ok (improved, true).
Proof.
  intros env policy value gamma Hp Hv HA.
  destruct (policy_improvement_ok env policy value gamma Hp Hv HA)
    as (improved & stable & H & Hok).
  exists improved, stable. split; [exact H|].
  apply policy_improvement_inv in H. destruct H as (Hloop & Hstable).
  split; [|split].
  - intros policy' Hp'. unfold Algorithms.policy_improvement.
    rewrite Hloop. unfold bind at 1.
    destruct (all_equal_same_length policy' improved) as (t & ->).
    { destruct Hok as (Hlen & _). congruence. }
    reflexivity.
  - now apply all_equal_true_iff.
  - unfold Algorithms.policy_improvement. rewrite Hloop. simpl.
    now rewrite all_equal_refl.
Qed.

(** Claim C8 on the two-cell lake: under the zero value array the policy
    [0, 0, 1] is improved to a policy that is stable. *)
Lemma policy_improvement_idempotent_witness :
  exists improved stable,
    Algorithms.policy_improvement Examples.small_env [0; 0; 1] (Np.zeros 3)
                                  1%Qc
    = Ok (improved, stable)
    /\ (forall policy',
           length policy' = Algorithms.n_states Examples.small_env ->
           improved_of (Algorithms.policy_improvement Examples.small_env
                          policy' (Np.zeros 3) 1%Qc)
           = Ok improved)
    /\ (stable = true <-> [0; 0; 1] = improved)
    /\ Algorithms.policy_improvement Examples.small_env improved (Np.zeros 3)
                                     1%Qc
       = Ok (improved, true).
Proof.
  apply (policy_improvement_idempotent Examples.small_env [0; 0; 1]
           (Np.zeros 3) 1%Qc).
  - reflexivity.
  - reflexivity.
  - unfold lt. simpl. repeat constructor.
Defined.

(** ** Policy evaluation and policy iteration return *)

Section IterationFacts.
Import Np Algorithms.

Variable env : Env.
Variables gamma theta : Qc.

Lemma identity_length (n : nat) : length (identity n) = n.
Proof. unfold identity. now rewrite length_map, length_seq. Qed.

(** One state of a sweep of [policy_evaluation]. *)
Lemma evaluation_state_ok (policy : list Z) (s : nat) (value : list Qc)
    (delta : Qc) :
  policy_ok env policy -> (s < n_states env)%nat ->
  length value = n_states env ->
  exists value' delta',
    evaluation_state env policy gamma s (value, delta) = Ok (value', delta')
    /\ length value' = n_states env.
Proof.
  intros (Hlen & Hall) Hs Hv. unfold evaluation_state.
  rewrite (item_in_range value (Z.of_nat s) 0%Qc) by lia. unfold bind at 1.
  rewrite (item_in_range policy (Z.of_nat s) 0) by lia. unfold bind at 1.
  rewrite Nat2Z.id.
  assert (Ha : 0 <= nth s policy 0 < Z.of_nat (n_actions env)).
  { rewrite Forall_forall in Hall. apply Hall. apply nth_In. lia. }
  rewrite (item_in_range (identity (n_actions env)) _ [])
    by (rewrite identity_length; exact Ha).
  unfold bind at 1. rewrite column_ok by exact Hv. unfold bind at 1.
  rewrite setitem_in_range by lia. unfold bind at 1.
  rewrite (item_in_range _ (Z.of_nat s) 0%Qc) by (rewrite length_upd; lia).
  unfold bind. eexists. eexists. split; [reflexivity|].
  now rewrite length_upd.
Qed.

(** The [while] loop of [policy_evaluation] returns a value array. *)
Lemma evaluation_loop_ok (policy : list Z) (fuel : nat) (stop : bool)
    (value : list Qc) :
  policy_ok env policy -> length value = n_states env ->
  exists value',
    evaluation_loop env policy gamma theta fuel stop value = Ok value'
    /\ length value' = n_states env.
Proof.
  intros Hp. revert stop value.
  induction fuel as [|fuel IH]; intros stop value Hv; simpl.
  - now exists value.
  - destruct stop; [now exists value|].
    destruct (for_each_invariant
                (fun st : list Qc * Qc => length (fst st) = n_states env)
                (seq 0 (n_states env))
                (evaluation_state env policy gamma))
      with (st := (value, 0%Qc)) as ((value1 & delta1) & -> & Hv1).
    + intros s (v & d) Hs Hlen. apply in_seq in Hs. simpl in Hlen.
      destruct (evaluation_state_ok policy s v d Hp ltac:(lia) Hlen)
        as (v' & d' & -> & Hv').
      now exists (v', d').
    + exact Hv.
    + unfold bind. simpl in Hv1. now apply IH.
Qed.

Lemma policy_evaluation_ok (policy : list Z) (max_iterations : Z) :
  policy_ok env policy ->
  exists value,
    policy_evaluation env policy gamma theta max_iterations = Ok value
    /\ length value = n_states env.
Proof.
  intros Hp. unfold policy_evaluation. apply evaluation_loop_ok; [exact Hp|].
  apply repeat_length.
Qed.

(** The [while] loop of [policy_iteration] returns a policy and a value
    array. *)
Lemma iteration_loop_ok (max_iterations : Z) (fuel : nat) (stop : bool)
    (policy : list Z) (value : list Qc) :
  (0 < n_actions env)%nat ->
  policy_ok env policy -> length value = n_states env ->
  exists policy' value',
    iteration_loop env gamma theta max_iterations fuel stop policy value
    = Ok (policy', value').
Proof.
  intros HA. revert stop policy value.
  induction fuel as [|fuel IH]; intros stop policy value Hp Hv; simpl.
  - eauto.
  - destruct stop; [eauto|].
    destruct (policy_evaluation_ok policy max_iterations Hp)
      as (value1 & -> & Hv1).
    unfold bind at 1.
    destruct (policy_improvement_ok env policy value1 gamma (proj1 Hp) Hv1 HA)
      as (policy1 & stable1 & -> & Hp1).
    unfold bind. now apply IH.
Qed.

Lemma zeros_policy_ok :
  (0 < n_actions env)%nat -> policy_ok env (repeat 0 (n_states env)).
Proof.
  intros HA. split; [apply repeat_length|].
  apply Forall_forall. intros x Hx. apply repeat_spec in Hx. subst. lia.
Qed.

End IterationFacts.

(** Claim C6, as the code has it. [policy_iteration] computes the final
    (policy, value) pair and, before it returns, saves the value array it
    returns to one file, whose name depends on whether [n_states] is 17;
    when it raises, it has written nothing. It returns whenever the
    environment has at least one action. *)
Theorem policy_iteration_saves_value :
  forall (env : Algorithms.Env) (gamma theta : Qc) (max_iterations : Z)
         (fs : Algorithms.FileSystem),
    (forall e fs',
        Algorithms.policy_iteration env gamma theta max_iterations fs
        = (Raise e, fs') -> fs' = fs)
    /\ (forall policy value fs',
           Algorithms.policy_iteration env gamma theta max_iterations fs
           = (Ok (policy, value), fs') ->
           fs' = (Algorithms.npy_filename env, value) :: fs)
    /\ ((0 < Algorithms.n_actions env)%nat ->
        exists policy value,
          Algorithms.policy_iteration env gamma theta max_iterations fs
          = (Ok (policy, value), (Algorithms.npy_filename env, value) :: fs)).
Proof.
  intros env gamma theta max_iterations fs.
  unfold Algorithms.policy_iteration, Algorithms.save_file.
  split; [|split].
  - intros e fs'. destruct (Algorithms.iteration_loop _ _ _ _ _ _ _ _)
      as [(policy & value)|e']; intros H; congruence.
  - intros policy value fs'.
    destruct (Algorithms.iteration_loop _ _ _ _ _ _ _ _)
      as [(policy' & value')|e']; intros H; congruence.
  - intros HA.
    destruct (iteration_loop_ok env gamma theta max_iterations
                (Z.to_nat max_iterations) false
                (repeat 0 (Algorithms.n_states env))
                (Np.zeros (Algorithms.n_states env)) HA)
      as (policy & value & ->).
    + now apply zeros_policy_ok.
    + apply repeat_length.
    + eauto.
Qed.

(** Claim C6 fails as it is stated: on the two-cell lake the call leaves a
    file behind. *)
Lemma policy_iteration_writes_file :
  ~ writes_no_file Examples.small_env (Q2Qc (9 # 10)) (Q2Qc (1 # 10000)) 10.
Proof.
  intros H. specialize (H []). vm_compute in H. discriminate H.
Qed.

(** Claim C6's amended form on the two-cell lake. *)
Lemma policy_iteration_saves_value_witness :
  exists (policy : list Z) (value : list Qc),
    Algorithms.policy_iteration Examples.small_env (Q2Qc (9 # 10))
                                (Q2Qc (1 # 10000)) 10 []
    = (Ok (policy, value),
       ("data/big_frozenlake_policy_evaluation.npy"%string, value) :: nil).
Proof.
  apply (proj2 (proj2 (policy_iteration_saves_value
                         Examples.small_env (Q2Qc (9 # 10))
                         (Q2Qc (1 # 10000)) 10 []))).
  unfold lt. simpl. repeat constructor.
Defined.

(** ** The policy entry of the absorbing state *)

Section AbsorbingEntryFacts.
Import Np Algorithms.

Variable env : Env.
Variable gamma : Qc.

Lemma nth_map_seq {B} (f : nat -> B) (len a : nat) (d : B) :
  (a < len)%nat -> nth a (map f (seq 0 len)) d = f a.
Proof.
  intros H. rewrite (nth_indep _ d (f 0%nat)) by (now rewrite length_map, length_seq).
  rewrite map_nth, seq_nth by exact H. reflexivity.
Qed.

(** Row [a] of the identity matrix is the indicator of [a]. *)
Lemma identity_entry (n a a' : nat) :
  (a < n)%nat -> (a' < n)%nat ->
  nth a' (nth a (identity n) []) 0%Qc = if Nat.eqb a a' then 1%Qc else 0%Qc.
Proof.
  intros Ha Ha'. unfold identity.
  rewrite nth_map_seq by exact Ha. now rewrite nth_map_seq by exact Ha'.
Qed.

Lemma sum_ext_in {A} (f g : A -> Qc) (l : list A) :
  (forall x, In x l -> f x = g x) -> sum (map f l) = sum (map g l).
Proof.
  intros H. f_equal. now apply map_ext_in.
Qed.

(** Weighting by a row of the identity selects one action. *)
Lemma sum_onehot (n a : nat) (g : nat -> Qc) :
  (a < n)%nat ->
  sum (map (fun a' => nth a' (nth a (identity n) []) 0 * g a')%Qc (seq 0 n))
  = g a.
Proof.
  intros Ha.
  rewrite (sum_ext_in _ (fun a' => if Nat.eqb a a' then g a else 0%Qc)).
  - now apply sum_indicator_in.
  - intros a' Ha'. apply in_seq in Ha'.
    rewrite identity_entry by lia.
    destruct (Nat.eqb_spec a a') as [->|_]; ring.
Qed.

(** The backup of [policy_evaluation] for the action the policy chooses is
    the value of that action. *)
Lemma expected_backup_onehot (a s : nat) (value : list Qc) :
  (a < n_actions env)%nat ->
  expected_backup env (nth a (identity (n_actions env)) []) s gamma value
  = sum (map (fun s' =>
                (prob env s s' a
                 * (rew env s s' a + gamma * nth s' value 0))%Qc)
             (seq 0 (n_states env))).
Proof.
  intros Ha. unfold expected_backup. apply sum_ext_in. intros s' _.
  rewrite (sum_ext_in _
             (fun a' =>
                (nth a' (nth a (identity (n_actions env)) []) 0
                 * (prob env s s' a'
                    * (rew env s s' a' + gamma * nth s' value 0)))%Qc))
    by (intros; ring).
  now rewrite sum_onehot.
Qed.

(** At a state where the actions do not differ, neither do the backups. *)
Lemma expected_backup_independent (a1 a2 s : nat) (value : list Qc) :
  action_independent env s ->
  (a1 < n_actions env)%nat -> (a2 < n_actions env)%nat ->
  expected_backup env (nth a1 (identity (n_actions env)) []) s gamma value
  = expected_backup env (nth a2 (identity (n_actions env)) []) s gamma value.
Proof.
  intros Hind Ha1 Ha2. rewrite !expected_backup_onehot by assumption.
  apply sum_ext_in. intros s' Hs'. apply in_seq in Hs'.
  destruct (Hind s' a1 a2) as (-> & ->); (lia || reflexivity).
Qed.

Variables policy1 policy2 : list Z.
Hypothesis Hagree : agree_off_absorbing env policy1 policy2.
Hypothesis Hind : action_independent env (n_states env - 1).
Hypothesis Hentry1 :
  valid_action (n_actions env) (nth (n_states env - 1) policy1 0).
Hypothesis Hentry2 :
  valid_action (n_actions env) (nth (n_states env - 1) policy2 0).

(** The two policies give every state of a sweep the same update. *)
Lemma evaluation_state_agree (s : nat) (st : list Qc * Qc) :
  (s < n_states env)%nat ->
  evaluation_state env policy1 gamma s st
  = evaluation_state env policy2 gamma s st.
Proof.
  intros Hs. destruct st as (value & delta).
  destruct Hagree as (Hlen1 & Hlen2 & Hsame).
  unfold evaluation_state.
  destruct (item value (Z.of_nat s)) as [current_value|e]; [|reflexivity].
  unfold bind at 1 7.
  rewrite (item_in_range policy1 (Z.of_nat s) 0) by lia.
  rewrite (item_in_range policy2 (Z.of_nat s) 0) by lia.
  unfold bind at 1 6. rewrite Nat2Z.id.
  destruct (Nat.eq_dec s (n_states env - 1)) as [->|Hne].
  - unfold valid_action in Hentry1, Hentry2.
    rewrite !(item_in_range (identity (n_actions env)) _ [])
      by (rewrite identity_length; assumption).
    unfold bind at 1 5.
    destruct (column env value) as [col|e]; [|reflexivity].
    unfold bind at 1 4.
    rewrite (expected_backup_independent
               (Z.to_nat (nth (n_states env - 1) policy1 0))
               (Z.to_nat (nth (n_states env - 1) policy2 0)))
      by (assumption || lia).
    reflexivity.
  - rewrite Hsame by lia. reflexivity.
Qed.

Lemma evaluation_loop_agree (theta : Qc) (fuel : nat) (stop : bool)
    (value : list Qc) :
  evaluation_loop env policy1 gamma theta fuel stop value
  = evaluation_loop env policy2 gamma theta fuel stop value.
Proof.
  revert stop value. induction fuel as [|fuel IH]; intros stop value; simpl;
    [reflexivity|].
  destruct stop; [reflexivity|].
  rewrite (for_each_ext _ (evaluation_state env policy1 gamma)
             (evaluation_state env policy2 gamma)).
  - destruct (for_each _ _ _) as [(v & d)|e]; simpl; [apply IH|reflexivity].
  - intros s st Hs. apply in_seq in Hs. apply evaluation_state_agree. lia.
Qed.

End AbsorbingEntryFacts.

(** A loop that does not raise keeps what each of its iterations keeps. *)
Lemma for_each_preserves {A S} (Inv : S -> Prop) (l : list A)
    (body : A -> S -> result S) :
  (forall x st st', body x st = Ok st' -> Inv st -> Inv st') ->
  forall st st', for_each l body st = Ok st' -> Inv st -> Inv st'.
Proof.
  intros Hbody. induction l as [|x l IH]; intros st st' H Hst; simpl in H.
  - injection H as <-. exact Hst.
  - destruct (body x st) as [st1|e] eqn:E; simpl in H; [|discriminate].
    apply (IH st1 st' H). now apply (Hbody x st).
Qed.

Lemma improvement_loop_length (env : Algorithms.Env) (value : list Qc)
    (gamma : Qc) (improved : list Z) :
  Algorithms.improvement_loop env value gamma = Ok improved ->
  length improved = Algorithms.n_states env.
Proof.
  intros H. unfold Algorithms.improvement_loop in H.
  apply (for_each_preserves
           (fun p : list Z => length p = Algorithms.n_states env)) in H.
  - exact H.
  - intros s st st' Hst Hlen.
    destruct (Algorithms.column env value); simpl in Hst; [|discriminate].
    destruct (Algorithms.argmax _); simpl in Hst; [|discriminate].
    unfold Np.setitem in Hst.
    destruct (Np.np_index _ _); simpl in Hst; [|discriminate].
    injection Hst as <-. now rewrite length_upd.
  - apply repeat_length.
Qed.

(** Claim C7, as the code has it. For two input policies that agree on every
    non-absorbing state, [policy_improvement] returns the same improved
    policy, and [policy_evaluation] returns the same value array provided
    the last state has the same transition row and rewards under every
    action (as the absorbing state of both environments has) and both
    policies hold a valid action there. The entry of the absorbing state is
    read all the same, and the stable flag compares it like any other. *)
Theorem absorbing_entry_of_policy :
  forall (env : Algorithms.Env) (policy1 policy2 : list Z) (value : list Qc)
         (gamma theta : Qc) (max_iterations : Z),
    agree_off_absorbing env policy1 policy2 ->
    improved_of (Algorithms.policy_improvement env policy1 value gamma)
    = improved_of (Algorithms.policy_improvement env policy2 value gamma)
    /\ (action_independent env (Algorithms.n_states env - 1) ->
        valid_action (Algorithms.n_actions env)
                     (nth (Algorithms.n_states env - 1) policy1 0) ->
        valid_action (Algorithms.n_actions env)
                     (nth (Algorithms.n_states env - 1) policy2 0) ->
        Algorithms.policy_evaluation env policy1 gamma theta max_iterations
        = Algorithms.policy_evaluation env policy2 gamma theta max_iterations).
Proof.
  intros env policy1 policy2 value gamma theta max_iterations Hagree. split.
  - destruct Hagree as (Hlen1 & Hlen2 & _).
    unfold Algorithms.policy_improvement.
    destruct (Algorithms.improvement_loop env value gamma) as [imp|e] eqn:E;
      [|reflexivity].
    apply improvement_loop_length in E. unfold bind at 1 3.
    destruct (all_equal_same_length policy1 imp) as (t1 & ->); [congruence|].
    destruct (all_equal_same_length policy2 imp) as (t2 & ->); [congruence|].
    reflexivity.
  - intros Hind H1 H2. unfold Algorithms.policy_evaluation.
    now apply evaluation_loop_agree.
Qed.

(** Claim C7 fails as it is stated: on the two-cell lake, with the zero
    value array, the policies [0, 0, 0] and [0, 0, 1] differ only at the
    absorbing state, and only the first one is reported stable. *)
Lemma absorbing_entry_changes_stable :
  agree_off_absorbing Examples.small_env [0; 0; 0] [0; 0; 1]
  /\ Algorithms.policy_improvement Examples.small_env [0; 0; 0]
                                   (Np.zeros 3) 1%Qc
     = Ok ([0; 0; 0], true)
  /\ Algorithms.policy_improvement Examples.small_env [0; 0; 1]
                                   (Np.zeros 3) 1%Qc
     = Ok ([0; 0; 0], false).
Proof.
  split; [|split].
  - split; [reflexivity|]. split; [reflexivity|].
    intros s Hs. vm_compute in Hs.
    destruct s as [|[|s]]; try reflexivity. lia.
  - vm_compute. reflexivity.
  - vm_compute. reflexivity.
Qed.

Lemma small_env_agree :
  agree_off_absorbing Examples.small_env [0; 0; 0] [0; 0; 1].
Proof.
  split; [reflexivity|]. split; [reflexivity|].
  intros s Hs. change (s < 2)%nat in Hs.
  destruct s as [|[|s]]; try reflexivity. lia.
Defined.

Lemma small_env_absorbing_independent :
  action_independent Examples.small_env
                     (Algorithms.n_states Examples.small_env - 1).
Proof.
  intros s' a a' Hs' Ha Ha'.
  change (s' < 3)%nat in Hs'. change (a < 4)%nat in Ha.
  change (a' < 4)%nat in Ha'.
  destruct s' as [|[|[|s']]]; try lia;
    destruct a as [|[|[|[|a]]]]; try lia;
    destruct a' as [|[|[|[|a']]]]; try lia;
    split; vm_compute; reflexivity.
Defined.

(** Claim C7's amended form on the two-cell lake, for the policies
    [0, 0, 0] and [0, 0, 1]. *)
Lemma absorbing_entry_of_policy_witness :
  improved_of (Algorithms.policy_improvement Examples.small_env [0; 0; 0]
                                             (Np.zeros 3) 1%Qc)
  = improved_of (Algorithms.policy_improvement Examples.small_env [0; 0; 1]
                                               (Np.zeros 3) 1%Qc)
  /\ Algorithms.policy_evaluation Examples.small_env [0; 0; 0] 1%Qc
                                  (Q2Qc (1 # 10000)) 10
     = Algorithms.policy_evaluation Examples.small_env [0; 0; 1] 1%Qc
                                    (Q2Qc (1 # 10000)) 10.
Proof.
  destruct (absorbing_entry_of_policy Examples.small_env [0; 0; 0] [0; 0; 1]
              (Np.zeros 3) 1%Qc (Q2Qc (1 # 10000)) 10 small_env_agree)
    as (H1 & H2).
  split; [exact H1|].
  apply H2.
  - exact small_env_absorbing_independent.
  - split; [discriminate | reflexivity].
  - split; [discriminate | reflexivity].
Defined.

(** * Further properties

    Properties of the oracles, the solvers, the interactive episode and the
    rendering that the code shows beyond the claims above. *)

(** ** The frozen lake: terminal cells, rewards and slipping *)

Section LakeOracleFacts.
Import Np.
Context {K : Num}.
Variable lake : chararray.
Variable slip : num.

Lemma accumulated_mass_unreached (s a l : nat) :
  (forall b, (b < FrozenLake.n_actions)%nat -> reached lake s b <> l) ->
  accumulated_mass lake slip s a l = zero.
Proof.
  intros H. unfold accumulated_mass.
  assert (G : forall bs acc,
             (forall b, In b bs -> reached lake s b <> l) ->
             fold_left (slip_step lake slip s a l) bs acc = acc).
  { induction bs as [|b bs IH]; intros acc Hb; [reflexivity|].
    cbn [fold_left]. rewrite IH by (intros; apply Hb; now right).
    unfold slip_step.
    destruct (Nat.eqb_spec (reached lake s b) l) as [E|E]; [|reflexivity].
    exfalso. apply (Hb b); [now left | exact E]. }
  apply G. intros b Hb. apply H. apply in_seq in Hb. lia.
Qed.

End LakeOracleFacts.

(** Property X1. In the frozen lake, from a hole or from the goal every
    action leads to the absorbing state with probability one and to every
    other state with probability zero, in binary64 as in exact
    arithmetic. *)
Theorem frozenlake_terminal_cells_exit :
  forall (K : Num) (lake : Np.chararray) (slip : @num K) (max_steps : Z),
    Np.well_formed lake ->
    exists fl,
      FrozenLake.init lake slip max_steps = Ok fl
      /\ forall s a s',
          (s < Np.size lake)%nat -> lake_terminal lake s = true ->
          (a < FrozenLake.n_actions)%nat ->
          (s' < FrozenLake.n_states fl)%nat ->
          FrozenLake.p fl (Z.of_nat s') (Z.of_nat s) (Z.of_nat a)
          = Ok (if Z.of_nat s' =? FrozenLake.absorbing_state fl
                then one else zero).
Proof.
  intros K lake slip max_steps Hwf.
  destruct (init_spec lake slip max_steps Hwf)
    as (fl & Hinit & Hlake & _ & _ & _ & _).
  exists fl. split; [exact Hinit|].
  intros s a s' Hs Ht Ha Hs'.
  unfold FrozenLake.n_states in Hs'. rewrite Hlake in Hs'.
  rewrite (p_spec lake slip max_steps Hwf fl s a s' Hinit) by
    (try assumption; lia).
  unfold lake_kernel. rewrite Ht, orb_true_r.
  unfold FrozenLake.absorbing_state, FrozenLake.n_states. rewrite Hlake.
  destruct (Nat.eqb_spec s' (Np.size lake)) as [E|E];
    destruct (Z.eqb_spec (Z.of_nat s') (Z.of_nat (Np.size lake + 1) - 1));
    try reflexivity; lia.
Qed.

Lemma binary64_zero_test : zero_test_ok Binary64.
Proof. split; reflexivity. Qed.

(** Property X2. The frozen lake pays on leaving the goal, not on reaching
    it: over all states, actions and next states in range, the reward is 1
    for the transition from the goal cell to the absorbing state and 0 for
    every other transition, in any arithmetic whose test [x == 0] tells 0
    from 1. *)
Theorem frozenlake_reward_on_leaving_goal :
  forall (K : Num) (lake : Np.chararray) (slip : @num K) (max_steps : Z),
    zero_test_ok K ->
    Np.well_formed lake ->
    exists fl,
      FrozenLake.init lake slip max_steps = Ok fl
      /\ forall s a s',
          (s < FrozenLake.n_states fl)%nat ->
          (a < FrozenLake.n_actions)%nat ->
          (s' < FrozenLake.n_states fl)%nat ->
          FrozenLake.r fl (Z.of_nat s') (Z.of_nat s) (Z.of_nat a)
          = Ok (if String.eqb (cell lake s) "$"
                   && (Z.of_nat s' =? FrozenLake.absorbing_state fl)
                then 1 else 0).
Proof.
  intros K lake slip max_steps [Hz Ho] Hwf.
  destruct (init_spec lake slip max_steps Hwf)
    as (fl & Hinit & Hlake & _ & _ & Hshape & Hval).
  exists fl. split; [exact Hinit|].
  intros s a s' Hs Ha Hs'.
  unfold FrozenLake.n_states in Hs, Hs'. rewrite Hlake in Hs, Hs'.
  change FrozenLake.n_actions with 4%nat in Ha.
  unfold FrozenLake.r.
  rewrite (item3_in_shape _ _ _ _ _ _ _ Hshape) by lia.
  rewrite !Nat2Z.id, Hval by lia.
  cbn [bind].
  unfold FrozenLake.absorbing_state, FrozenLake.n_states. rewrite Hlake.
  destruct (Z.eqb_spec (Z.of_nat (Np.size lake + 1) - 1) (Z.of_nat s))
    as [Eabs|Eabs].
  - rewrite orb_true_r.
    assert (Ec : cell lake s = EmptyString).
    { unfold cell. apply nth_overflow. destruct Hwf as [Hlen _]. lia. }
    rewrite Ec. reflexivity.
  - rewrite orb_false_r.
    assert (Hs2 : (s < Np.size lake)%nat) by lia.
    unfold EnvHelper.index_to_position.
    rewrite (item2_at_index lake Hwf s Hs2). cbn [bind].
    unfold lake_kernel, lake_terminal.
    destruct (Nat.eqb_spec s (Np.size lake)) as [E|_]; [lia|].
    cbn [orb].
    destruct (String.eqb (cell lake s) "$") eqn:Eg.
    + rewrite orb_true_r. cbn [andb].
      destruct (Nat.eqb_spec s' (Np.size lake)) as [E|E];
        destruct (Z.eqb_spec (Z.of_nat s') (Z.of_nat (Np.size lake + 1) - 1));
        try lia.
      * now rewrite Ho.
      * now rewrite Hz.
    + cbn [andb].
      match goal with |- (if ?b then _ else _) = _ => now destruct b end.
Qed.

Lemma frozenlake_reward_on_leaving_goal_witness :
  exists fl,
    @FrozenLake.init Binary64 Examples.lake Examples.fifth 30 = Ok fl
    /\ FrozenLake.r fl (Z.of_nat 16) (Z.of_nat 15) (Z.of_nat 0) = Ok 1
    /\ FrozenLake.r fl (Z.of_nat 15) (Z.of_nat 14) (Z.of_nat 3) = Ok 0.
Proof.
  destruct (frozenlake_reward_on_leaving_goal Binary64 Examples.lake
              Examples.fifth 30 binary64_zero_test example_lake_well_formed)
    as (fl & Hinit & Hr).
  exists fl. split; [exact Hinit|].
  assert (HN : FrozenLake.n_states fl = 17%nat).
  { unfold FrozenLake.init in Hinit.
    destruct (FrozenLake._populate_probabilities _); [|discriminate].
    injection Hinit as <-. reflexivity. }
  split.
  - rewrite Hr by (rewrite ?HN; unfold FrozenLake.n_actions; cbn; lia).
    unfold FrozenLake.absorbing_state. rewrite HN. reflexivity.
  - rewrite Hr by (rewrite ?HN; unfold FrozenLake.n_actions; cbn; lia).
    unfold FrozenLake.absorbing_state. rewrite HN. reflexivity.
Defined.

(** Property X3. From a cell that is neither a hole nor the goal, a next
    state that none of the four moves reaches (the absorbing state among
    them) has probability exactly zero, whatever the slip and the
    arithmetic. *)
Theorem frozenlake_moves_one_cell :
  forall (K : Num) (lake : Np.chararray) (slip : @num K) (max_steps : Z),
    Np.well_formed lake ->
    exists fl,
      FrozenLake.init lake slip max_steps = Ok fl
      /\ forall s a s',
          (s < Np.size lake)%nat -> lake_terminal lake s = false ->
          (a < FrozenLake.n_actions)%nat ->
          (s' < FrozenLake.n_states fl)%nat ->
          (forall b, (b < FrozenLake.n_actions)%nat -> reached lake s b <> s') ->
          FrozenLake.p fl (Z.of_nat s') (Z.of_nat s) (Z.of_nat a) = Ok zero.
Proof.
  intros K lake slip max_steps Hwf.
  destruct (init_spec lake slip max_steps Hwf)
    as (fl & Hinit & Hlake & _ & _ & _ & _).
  exists fl. split; [exact Hinit|].
  intros s a s' Hs Ht Ha Hs' Hfar.
  unfold FrozenLake.n_states in Hs'. rewrite Hlake in Hs'.
  rewrite (p_spec lake slip max_steps Hwf fl s a s' Hinit) by
    (try assumption; lia).
  unfold lake_kernel. rewrite Ht.
  destruct (Nat.eqb_spec s (Np.size lake)) as [E|_]; [lia|].
  cbn [orb]. now rewrite accumulated_mass_unreached.
Qed.

Lemma frozenlake_moves_one_cell_witness :
  exists fl,
    @FrozenLake.init Binary64 Examples.lake Examples.fifth 30 = Ok fl
    /\ FrozenLake.p fl (Z.of_nat 10) (Z.of_nat 0) (Z.of_nat 1)
       = Ok PrimFloat.zero.
Proof.
  destruct (frozenlake_moves_one_cell Binary64 Examples.lake Examples.fifth 30
              example_lake_well_formed) as (fl & Hinit & Hp).
  exists fl. split; [exact Hinit|].
  assert (HN : FrozenLake.n_states fl = 17%nat).
  { unfold FrozenLake.init in Hinit.
    destruct (FrozenLake._populate_probabilities _); [|discriminate].
    injection Hinit as <-. reflexivity. }
  apply Hp.
  - cbn. lia.
  - reflexivity.
  - cbn. lia.
  - rewrite HN. lia.
  - intros b Hb.
    assert (Hc : (b = 0 \/ b = 1 \/ b = 2 \/ b = 3)%nat)
      by (change FrozenLake.n_actions with 4%nat in Hb; lia).
    destruct Hc as [->|[->|[->| ->]]]; vm_compute; discriminate.
Defined.

Section NoSlip.
Import Np.

Variable lake : chararray.

Lemma no_slip_mass_exact (s a l : nat) :
  (a < 4)%nat ->
  @accumulated_mass Exact lake 0%Qc s a l
  = if Nat.eqb (reached lake s a) l then 1%Qc else 0%Qc.
Proof.
  intros Ha. unfold accumulated_mass, slip_step.
  change FrozenLake.n_actions with 4%nat. cbn [seq fold_left].
  assert (Hc : (a = 0 \/ a = 1 \/ a = 2 \/ a = 3)%nat) by lia.
  destruct Hc as [->|[->|[->| ->]]]; cbn [Nat.eqb];
    destruct (Nat.eqb (reached lake s 0) l),
             (Nat.eqb (reached lake s 1) l),
             (Nat.eqb (reached lake s 2) l),
             (Nat.eqb (reached lake s 3) l);
    apply Qc_is_canon; reflexivity.
Qed.

Lemma no_slip_mass_binary64 (s a l : nat) :
  (a < 4)%nat ->
  @accumulated_mass Binary64 lake PrimFloat.zero s a l
  = if Nat.eqb (reached lake s a) l then PrimFloat.one else PrimFloat.zero.
Proof.
  intros Ha. unfold accumulated_mass, slip_step.
  change FrozenLake.n_actions with 4%nat. cbn [seq fold_left].
  assert (Hc : (a = 0 \/ a = 1 \/ a = 2 \/ a = 3)%nat) by lia.
  destruct Hc as [->|[->|[->| ->]]]; cbn [Nat.eqb];
    destruct (Nat.eqb (reached lake s 0) l),
             (Nat.eqb (reached lake s 1) l),
             (Nat.eqb (reached lake s 2) l),
             (Nat.eqb (reached lake s 3) l);
    vm_compute; reflexivity.
Qed.

End NoSlip.

Section UnitInterval.
Import Np.

Variable lake : chararray.
Variable slip : Qc.
Hypothesis Hslip : (0 <= slip /\ slip <= 1)%Qc.


End UnitInterval.

Section Deterministic.
Import Np.
Context {K : Num}.
Variable lake : chararray.
Variable slip : num.
Variable max_steps : Z.
Hypothesis Hwf : well_formed lake.
Hypothesis Hmass : forall s a l, (a < 4)%nat ->
  accumulated_mass lake slip s a l
  = if Nat.eqb (reached lake s a) l then one else zero.

Lemma deterministic_lake :
  exists fl,
    FrozenLake.init lake slip max_steps = Ok fl
    /\ forall s a s',
        (s < size lake)%nat -> lake_terminal lake s = false ->
        (a < FrozenLake.n_actions)%nat ->
        (s' < FrozenLake.n_states fl)%nat ->
        FrozenLake.p fl (Z.of_nat s') (Z.of_nat s) (Z.of_nat a)
        = Ok (if Nat.eqb (reached lake s a) s' then one else zero).
Proof.
  destruct (init_spec lake slip max_steps Hwf)
    as (fl & Hinit & Hlake & _ & _ & _ & _).
  exists fl. split; [exact Hinit|].
  intros s a s' Hs Ht Ha Hs'.
  unfold FrozenLake.n_states in Hs'. rewrite Hlake in Hs'.
  rewrite (p_spec lake slip max_steps Hwf fl s a s' Hinit) by
    (try assumption; lia).
  unfold lake_kernel. rewrite Ht.
  destruct (Nat.eqb_spec s (size lake)) as [E|_]; [lia|].
  cbn [orb]. now rewrite Hmass.
Qed.

End Deterministic.

(** Property X4. With slip 0 (the lake of [run_frozenlake]) the frozen
    lake is deterministic: from a cell that is neither a hole nor the goal
    the intended move has probability exactly 1 and every other next state
    exactly 0, in exact arithmetic and in binary64. *)
Theorem frozenlake_without_slip_is_deterministic :
  forall (lake : Np.chararray) (max_steps : Z),
    Np.well_formed lake ->
    (exists fl,
        @FrozenLake.init Exact lake 0%Qc max_steps = Ok fl
        /\ forall s a s',
            (s < Np.size lake)%nat -> lake_terminal lake s = false ->
            (a < FrozenLake.n_actions)%nat ->
            (s' < FrozenLake.n_states fl)%nat ->
            FrozenLake.p fl (Z.of_nat s') (Z.of_nat s) (Z.of_nat a)
            = Ok (if Nat.eqb (reached lake s a) s' then 1%Qc else 0%Qc))
    /\ (exists fl,
           @FrozenLake.init Binary64 lake PrimFloat.zero max_steps = Ok fl
           /\ forall s a s',
               (s < Np.size lake)%nat -> lake_terminal lake s = false ->
               (a < FrozenLake.n_actions)%nat ->
               (s' < FrozenLake.n_states fl)%nat ->
               FrozenLake.p fl (Z.of_nat s') (Z.of_nat s) (Z.of_nat a)
               = Ok (if Nat.eqb (reached lake s a) s'
                     then PrimFloat.one else PrimFloat.zero)).
Proof.
  intros lake max_steps Hwf. split.
  - apply (@deterministic_lake Exact lake 0%Qc max_steps Hwf).
    intros s a l Ha. now apply no_slip_mass_exact.
  - apply (@deterministic_lake Binary64 lake PrimFloat.zero max_steps Hwf).
    intros s a l Ha. now apply no_slip_mass_binary64.
Qed.

Lemma frozenlake_without_slip_is_deterministic_witness :
  (exists fl,
      @FrozenLake.init Exact Examples.lake 0%Qc 30 = Ok fl
      /\ forall s a s',
          (s < Np.size Examples.lake)%nat ->
          lake_terminal Examples.lake s = false ->
          (a < FrozenLake.n_actions)%nat ->
          (s' < FrozenLake.n_states fl)%nat ->
          FrozenLake.p fl (Z.of_nat s') (Z.of_nat s) (Z.of_nat a)
          = Ok (if Nat.eqb (reached Examples.lake s a) s'
                then 1%Qc else 0%Qc))
  /\ (exists fl,
         @FrozenLake.init Binary64 Examples.lake PrimFloat.zero 30 = Ok fl
         /\ forall s a s',
             (s < Np.size Examples.lake)%nat ->
             lake_terminal Examples.lake s = false ->
             (a < FrozenLake.n_actions)%nat ->
             (s' < FrozenLake.n_states fl)%nat ->
             FrozenLake.p fl (Z.of_nat s') (Z.of_nat s) (Z.of_nat a)
             = Ok (if Nat.eqb (reached Examples.lake s a) s'
                   then PrimFloat.one else PrimFloat.zero)).
Proof.
  exact (frozenlake_without_slip_is_deterministic Examples.lake 30
           example_lake_well_formed).
Defined.



(** ** The initial distribution *)

Section InitialDistribution.
Import Np.
Context {K : Num}.

Lemma mark_all (x : num) (indices : list nat) (l : list num) :
  (forall i, In i indices -> (i < length l)%nat) ->
  exists l',
    for_each (map Z.of_nat indices) (fun i pi => setitem pi i x) l = Ok l'
    /\ length l' = length l
    /\ forall j, nth j l' zero
                 = if existsb (Nat.eqb j) indices then x else nth j l zero.
Proof.
  revert l. induction indices as [|i indices IH]; intros l Hin.
  - exists l. repeat split; reflexivity.
  - cbn [map for_each].
    rewrite setitem_in_range by (specialize (Hin i (or_introl eq_refl)); lia).
    cbn [bind]. rewrite Nat2Z.id.
    destruct (IH (upd l i x)) as (l' & Hrun & Hlen & Hnth).
    { intros k Hk. rewrite length_upd. apply Hin. now right. }
    exists l'. split; [exact Hrun|]. split.
    { now rewrite Hlen, length_upd. }
    intros j. rewrite Hnth. cbn [existsb]. rewrite nth_upd.
    specialize (Hin i (or_introl eq_refl)).
    destruct (existsb (Nat.eqb j) indices); [now rewrite orb_true_r|].
    rewrite orb_false_r.
    destruct (Nat.eqb_spec j i) as [->|]; [|reflexivity].
    cbn [andb]. destruct (Nat.ltb_spec i (length l)); [reflexivity|lia].
Qed.

Lemma existsb_start_cells (grid : chararray) (j : nat) :
  existsb (Nat.eqb j) (start_cells grid)
  = String.eqb (cell grid j) "&" && Nat.ltb j (size grid).
Proof.
  unfold start_cells.
  apply eq_true_iff_eq. rewrite existsb_exists, andb_true_iff.
  split.
  - intros (i & Hi & E). apply Nat.eqb_eq in E. subst i.
    apply filter_In in Hi. destruct Hi as [Hs Hc]. apply in_seq in Hs.
    split; [exact Hc|]. apply Nat.ltb_lt. lia.
  - intros [Hc Hs]. apply Nat.ltb_lt in Hs. exists j. split.
    + apply filter_In. split; [apply in_seq; lia | exact Hc].
    + apply Nat.eqb_refl.
Qed.

Lemma where_eq_start_cells (grid : chararray) :
  where_eq grid "&" = map Z.of_nat (start_cells grid).
Proof. reflexivity. Qed.

Lemma start_cell_in_grid (grid : chararray) (i : nat) :
  In i (start_cells grid) -> (i < size grid)%nat.
Proof.
  unfold start_cells. intros H. apply filter_In in H. destruct H as [H _].
  apply in_seq in H. lia.
Qed.

Lemma initial_distribution_spec (grid : chararray) :
  exists pi,
    for_each (where_eq grid "&") (fun i pi => setitem pi i one)
             (zeros (size grid + 1)) = Ok pi
    /\ length pi = (size grid + 1)%nat
    /\ forall s, nth s pi zero
                 = if String.eqb (cell grid s) "&" && Nat.ltb s (size grid)
                   then one else zero.
Proof.
  rewrite where_eq_start_cells.
  destruct (mark_all one (start_cells grid) (zeros (size grid + 1)))
    as (pi & Hrun & Hlen & Hnth).
  { intros i Hi. apply start_cell_in_grid in Hi. unfold zeros.
    rewrite repeat_length. lia. }
  exists pi. split; [exact Hrun|]. split.
  { rewrite Hlen. unfold zeros. apply repeat_length. }
  intros s. rewrite Hnth, existsb_start_cells.
  destruct (_ && _); [reflexivity|].
  unfold zeros. destruct (Nat.ltb_spec s (size grid + 1)).
  - now rewrite nth_repeat_lt.
  - now rewrite nth_overflow by (rewrite repeat_length; lia).
Qed.

End InitialDistribution.

Section Mass.
Import Np.

Lemma sum_indicator_count (f : nat -> bool) (l : list nat) :
  @sum Exact (map (fun s => if f s then 1%Qc else 0%Qc) l)
  = Q2Qc (inject_Z (Z.of_nat (length (filter f l)))).
Proof.
  induction l as [|x l IH]; [reflexivity|].
  cbn [map sum fold_right filter]. fold (@sum Exact) in *.
  change (fold_right (@add Exact) (@zero Exact)) with (@sum Exact).
  rewrite IH. cbv [num zero one add sub div Exact].
  destruct (f x).
  - cbn [length]. rewrite Nat2Z.inj_succ. unfold Z.succ.
    rewrite Z.add_comm. rewrite inject_Z_plus.
    apply Qc_is_canon. cbn [this Qcplus Q2Qc]. 
    rewrite !Qred_correct. reflexivity.
  - ring.
Qed.

Lemma list_as_map {A} (l : list A) (d : A) :
  l = map (fun i => nth i l d) (seq 0 (length l)).
Proof.
  apply nth_ext with (d := d) (d' := d).
  - now rewrite length_map, length_seq.
  - intros n Hn. now rewrite nth_map_seq.
Qed.

End Mass.

Lemma start_cells_count (grid : Np.chararray) :
  filter (fun s => String.eqb (cell grid s) "&" && Nat.ltb s (Np.size grid))
         (seq 0 (Np.size grid + 1))
  = start_cells grid.
Proof.
  unfold start_cells. rewrite seq_app, filter_app. cbn [seq filter plus].
  rewrite Nat.ltb_irrefl, andb_false_r, app_nil_r.
  apply filter_ext_in. intros s Hs. apply in_seq in Hs.
  destruct (Nat.ltb_spec s (Np.size grid)); [|lia]. apply andb_true_r.
Qed.

(** Property X7. The initial distribution both constructors build has one
    entry per state, 1 at every start cell ['&'] and 0 at every other cell
    and at the absorbing state; construction never fails. In exact
    arithmetic its entries add up to the number of start cells, so it is a
    probability distribution only for a grid with exactly one start. *)
Theorem initial_distribution_marks_start_cells :
  forall (grid : Np.chararray),
    (forall K : Num,
        exists pi,
          @FrozenLake.initial_distribution K grid = Ok pi
          /\ @GridWorld.initial_distribution K grid = Ok pi
          /\ length pi = (Np.size grid + 1)%nat
          /\ (forall s, (s < Np.size grid)%nat ->
                nth s pi zero
                = if String.eqb (cell grid s) "&" then one else zero)
          /\ nth (Np.size grid) pi zero = zero)
    /\ exists pi,
         @FrozenLake.initial_distribution Exact grid = Ok pi
         /\ Np.sum pi
            = Q2Qc (inject_Z (Z.of_nat (length (start_cells grid)))).
Proof.
  intros grid. split.
  - intros K.
    destruct (@initial_distribution_spec K grid) as (pi & Hrun & Hlen & Hnth).
    exists pi. repeat split; try assumption.
    + intros s Hs. rewrite Hnth.
      destruct (Nat.ltb_spec s (Np.size grid)); [|lia]. now rewrite andb_true_r.
    + now rewrite Hnth, Nat.ltb_irrefl, andb_false_r.
  - destruct (@initial_distribution_spec Exact grid)
      as (pi & Hrun & Hlen & Hnth).
    exists pi. split; [exact Hrun|].
    rewrite (list_as_map pi (@zero Exact)), Hlen.
    rewrite (map_ext _ _ Hnth).
    change (@one Exact) with 1%Qc. change (@zero Exact) with 0%Qc.
    rewrite sum_indicator_count. now rewrite start_cells_count.
Qed.

(** ** The grid world: rewards and obstacles *)

Section GridWorldRewardFacts.
Import Np EnvHelper.

Variable gw : GridWorld.t.
Hypothesis Hwf : well_formed (GridWorld.world gw).

Let world := GridWorld.world gw.
Let N := GridWorld.n_states gw.

Lemma gridworld_r_spec (s a : nat) (next_state : Z) :
  (s < N)%nat -> (a < 4)%nat ->
  GridWorld.r gw next_state (Z.of_nat s) (Z.of_nat a)
  = Ok (if (next_state =? Z.of_nat (world_target world s a))
           && negb (Nat.eqb s (size world))
        then token_reward (cell world (world_target world s a))
        else 0).
Proof.
  intros Hs Ha.
  assert (HN : N = (size world + 1)%nat) by reflexivity.
  unfold GridWorld.r. rewrite (gridworld_p_spec gw Hwf s a next_state Hs Ha).
  fold world. cbn [bind].
  pose proof (world_target_in_range gw s a Hs) as Ht. fold world N in Ht.
  unfold GridWorld.absorbing_state. fold N.
  destruct (Z.eqb_spec next_state (Z.of_nat (world_target world s a)))
    as [->|Hne]; cbn [Z.b2z andb]; [|reflexivity].
  change (1 =? 0) with false. cbn [orb].
  destruct (Nat.eqb_spec s (size world)) as [Es|Es]; cbn [negb].
  { replace (Z.of_nat N - 1 =? Z.of_nat s) with true
      by (symmetry; apply Z.eqb_eq; lia).
    reflexivity. }
  replace (Z.of_nat N - 1 =? Z.of_nat s) with false
    by (symmetry; apply Z.eqb_neq; lia).
  cbn [orb].
  destruct (Z.eqb_spec (Z.of_nat N - 1) (Z.of_nat (world_target world s a)))
    as [Ea|Ea].
  { assert (Ec : cell world (world_target world s a) = EmptyString).
    { unfold cell. apply nth_overflow. destruct Hwf as [Hlen _].
      fold world in Hlen. lia. }
    rewrite Ec. reflexivity. }
  unfold index_to_position.
  rewrite (item2_at_index world Hwf) by lia.
  cbn [bind]. unfold token_reward.
  destruct (String.eqb _ "$"); [reflexivity|].
  destruct (String.eqb _ "£"); reflexivity.
Qed.

Lemma world_target_free (s a : nat) :
  world_target world s a <> s ->
  String.eqb (cell world (world_target world s a)) "#" = false.
Proof.
  unfold world_target.
  destruct (Nat.eqb s (size world) || String.eqb (cell world s) "#");
    [congruence|].
  destruct (String.eqb (cell world s) "£" || String.eqb (cell world s) "$").
  { intros _. unfold cell. rewrite nth_overflow; [reflexivity|].
    destruct Hwf as [Hlen _]. fold world in Hlen. lia. }
  destruct (in_bounds world s a); cbn [andb]; [|congruence].
  destruct (String.eqb (cell world (destination world s a)) "#") eqn:E;
    cbn [negb]; [congruence|]. intros _. exact E.
Qed.

End GridWorldRewardFacts.

(** Property X8. The grid world pays on entering a goal: for a state and
    an action in range and any next state, the reward is the token of the
    cell moved to (+1 for ['$'], -1 for ['£'], 0 otherwise) when the next
    state is the one the move leads to and the current state is not the
    absorbing state, and 0 in every other case, in particular for leaving a
    goal towards the absorbing state. *)
Theorem gridworld_reward_on_entry :
  forall (gw : GridWorld.t) (s a : nat) (next_state : Z),
    Np.well_formed (GridWorld.world gw) ->
    (s < GridWorld.n_states gw)%nat ->
    (a < GridWorld.n_actions)%nat ->
    let target := world_target (GridWorld.world gw) s a in
    GridWorld.r gw next_state (Z.of_nat s) (Z.of_nat a)
    = Ok (if (next_state =? Z.of_nat target)
             && negb (Z.of_nat s =? GridWorld.absorbing_state gw)
          then token_reward (cell (GridWorld.world gw) target)
          else 0).
Proof.
  intros gw s a next_state Hwf Hs Ha target. subst target.
  rewrite (gridworld_r_spec gw Hwf s a next_state Hs Ha).
  unfold GridWorld.absorbing_state, GridWorld.n_states.
  destruct (Nat.eqb_spec s (Np.size (GridWorld.world gw)));
    destruct (Z.eqb_spec (Z.of_nat s)
                (Z.of_nat (Np.size (GridWorld.world gw) + 1) - 1));
    try lia; reflexivity.
Qed.

Lemma gridworld_reward_on_entry_witness :
  GridWorld.r Examples.gridworld 15 (Z.of_nat 14) (Z.of_nat 3) = Ok 1
  /\ GridWorld.r Examples.gridworld 11 (Z.of_nat 10) (Z.of_nat 3) = Ok (-1)
  /\ GridWorld.r Examples.gridworld 16 (Z.of_nat 15) (Z.of_nat 0) = Ok 0.
Proof.
  split; [|split].
  - rewrite (gridworld_reward_on_entry Examples.gridworld 14 3 15
               example_grid_well_formed); [reflexivity| cbv; lia | cbv; lia].
  - rewrite (gridworld_reward_on_entry Examples.gridworld 10 3 11
               example_grid_well_formed); [reflexivity| cbv; lia | cbv; lia].
  - rewrite (gridworld_reward_on_entry Examples.gridworld 15 0 16
               example_grid_well_formed); [reflexivity| cbv; lia | cbv; lia].
Defined.

(** Property X9. The grid world never moves the agent into an obstacle: a
    transition from a state to a different state whose cell is ['#'] has
    probability 0 under every action. *)
Theorem gridworld_never_enters_obstacle :
  forall (gw : GridWorld.t) (s a : nat) (next_state : Z),
    Np.well_formed (GridWorld.world gw) ->
    (s < GridWorld.n_states gw)%nat ->
    (a < GridWorld.n_actions)%nat ->
    next_state <> Z.of_nat s ->
    String.eqb (cell (GridWorld.world gw) (Z.to_nat next_state)) "#" = true ->
    GridWorld.p gw next_state (Z.of_nat s) (Z.of_nat a) = Ok 0.
Proof.
  intros gw s a next_state Hwf Hs Ha Hmove Hobs.
  rewrite (gridworld_p_spec gw Hwf s a next_state Hs Ha).
  destruct (Z.eqb_spec next_state
              (Z.of_nat (world_target (GridWorld.world gw) s a)))
    as [E|E]; [|reflexivity].
  exfalso. subst next_state. rewrite Nat2Z.id in Hobs.
  rewrite (world_target_free gw Hwf s a) in Hobs; [discriminate|].
  intros E. apply Hmove. now rewrite E.
Qed.

Lemma gridworld_never_enters_obstacle_witness :
  GridWorld.p Examples.gridworld 5 (Z.of_nat 1) (Z.of_nat 1) = Ok 0.
Proof.
  apply (gridworld_never_enters_obstacle Examples.gridworld 1 1 5
           example_grid_well_formed).
  - cbv; lia.
  - cbv; lia.
  - discriminate.
  - reflexivity.
Defined.

(** ** Greedy policies *)

Section GreedyFacts.
Import Np Algorithms.

Lemma Qcltb_true (a b : Qc) : Qcltb a b = true -> (a < b)%Qc.
Proof.
  unfold Qcltb, Qclt. destruct (a ?= b)%Qc eqn:E; try discriminate.
  intros _. exact E.
Qed.

Lemma Qcltb_false (a b : Qc) : Qcltb a b = false -> (b <= a)%Qc.
Proof.
  unfold Qcltb. intros H. apply Qcnot_lt_le. intros Hlt.
  assert (E : (a ?= b)%Qc = Lt) by exact Hlt.
  rewrite E in H. discriminate.
Qed.

Lemma first_maximum_snoc_new (pre : list Qc) (best_i : nat) (x : Qc) :
  first_maximum pre best_i -> (nth best_i pre 0 < x)%Qc ->
  first_maximum (pre ++ [x]) (length pre).
Proof.
  intros (Hi & Hmax & Hfirst) Hlt.
  unfold first_maximum. rewrite length_app. cbn [length].
  rewrite nth_middle. split; [lia|]. split.
  - intros j Hj. destruct (Nat.eq_dec j (length pre)) as [->|Hne].
    + rewrite nth_middle. apply Qcle_refl.
    + rewrite app_nth1 by lia. apply Qclt_le_weak.
      apply Qcle_lt_trans with (nth best_i pre 0%Qc); [|exact Hlt].
      apply Hmax. lia.
  - intros j Hj. rewrite app_nth1 by lia.
    apply Qcle_lt_trans with (nth best_i pre 0%Qc); [|exact Hlt].
    apply Hmax. lia.
Qed.

Lemma first_maximum_snoc_old (pre : list Qc) (best_i : nat) (x : Qc) :
  first_maximum pre best_i -> (x <= nth best_i pre 0)%Qc ->
  first_maximum (pre ++ [x]) best_i.
Proof.
  intros (Hi & Hmax & Hfirst) Hle.
  unfold first_maximum. rewrite length_app. cbn [length].
  rewrite (app_nth1 pre [x] 0%Qc Hi). split; [lia|]. split.
  - intros j Hj. destruct (Nat.eq_dec j (length pre)) as [->|Hne].
    + now rewrite nth_middle.
    + rewrite app_nth1 by lia. apply Hmax. lia.
  - intros j Hj. rewrite app_nth1 by lia. now apply Hfirst.
Qed.

Lemma argmax_from_spec (l pre : list Qc) (best_i : nat) :
  first_maximum pre best_i ->
  first_maximum (pre ++ l)
    (argmax_from best_i (nth best_i pre 0%Qc) (length pre) l).
Proof.
  revert pre best_i. induction l as [|x l IH]; intros pre best_i Hpre.
  - cbn [argmax_from]. now rewrite app_nil_r.
  - cbn [argmax_from].
    replace (pre ++ x :: l) with ((pre ++ [x]) ++ l)
      by (now rewrite <- app_assoc).
    replace (S (length pre)) with (length (pre ++ [x]))
      by (rewrite length_app; cbn [length]; lia).
    destruct (Qcltb (nth best_i pre 0%Qc) x) eqn:E.
    + apply Qcltb_true in E.
      pose proof (first_maximum_snoc_new pre best_i x Hpre E) as Hnew.
      specialize (IH (pre ++ [x]) (length pre) Hnew).
      now rewrite nth_middle in IH.
    + apply Qcltb_false in E.
      pose proof (first_maximum_snoc_old pre best_i x Hpre E) as Hold.
      specialize (IH (pre ++ [x]) best_i Hold).
      destruct Hpre as (Hi & _).
      now rewrite (app_nth1 pre [x] 0%Qc Hi) in IH.
Qed.

Lemma argmax_spec (l : list Qc) :
  l <> [] ->
  exists i, argmax l = Ok (Z.of_nat i) /\ first_maximum l i.
Proof.
  destruct l as [|x l]; [congruence|]. intros _.
  exists (argmax_from 0 x 1 l). split; [reflexivity|].
  apply (argmax_from_spec l [x] 0).
  unfold first_maximum. cbn [length nth]. split; [lia|]. split.
  - intros j Hj. assert (j = 0%nat) as -> by lia. apply Qcle_refl.
  - intros j Hj. lia.
Qed.

Lemma first_maximum_unique (l : list Qc) (i j : nat) :
  first_maximum l i -> first_maximum l j -> i = j.
Proof.
  intros (Hi & Hmi & Hfi) (Hj & Hmj & Hfj).
  destruct (Nat.lt_trichotomy i j) as [H|[H|H]]; [|exact H|].
  - exfalso. specialize (Hfj i H). specialize (Hmi j Hj).
    apply (Qclt_not_le _ _ Hfj Hmi).
  - exfalso. specialize (Hfi j H). specialize (Hmj i Hi).
    apply (Qclt_not_le _ _ Hfi Hmj).
Qed.

Lemma for_each_seq_fill {A} (body : nat -> list A -> result (list A))
    (P : nat -> A -> Prop) (n : nat) (d : A) :
  (forall s l, (s < n)%nat -> length l = n ->
     exists x, body s l = Ok (upd l s x) /\ P s x) ->
  forall k a l, (a + k = n)%nat -> length l = n ->
    (forall s, (s < a)%nat -> P s (nth s l d)) ->
    exists l', for_each (seq a k) body l = Ok l' /\ length l' = n
               /\ forall s, (s < n)%nat -> P s (nth s l' d).
Proof.
  intros Hbody. induction k as [|k IH]; intros a l Hak Hlen Hdone.
  - exists l. split; [reflexivity|]. split; [exact Hlen|].
    intros s Hs. apply Hdone. lia.
  - cbn [seq for_each].
    destruct (Hbody a l ltac:(lia) Hlen) as (x & Hx & HP).
    rewrite Hx. cbn [bind].
    apply IH; [lia | now rewrite length_upd |].
    intros s Hs. rewrite nth_upd.
    destruct (Nat.eqb_spec s a) as [->|Hne]; cbn [andb].
    + destruct (Nat.ltb_spec a (length l)); [exact HP|lia].
    + apply Hdone. lia.
Qed.

Lemma improvement_loop_greedy (env : Env) (value : list Qc) (gamma : Qc) :
  length value = n_states env -> (0 < n_actions env)%nat ->
  exists improved,
    improvement_loop env value gamma = Ok improved
    /\ greedy env gamma value improved.
Proof.
  intros Hv Hact. unfold improvement_loop.
  destruct (for_each_seq_fill
              (fun s improved_policy =>
                 col <- column env value ;;
                 a <- argmax (action_values env s gamma col) ;;
                 setitem improved_policy (Z.of_nat s) a)
              (fun s a => exists i, a = Z.of_nat i
                 /\ first_maximum (action_values env s gamma value) i)
              (n_states env) 0
              ) with (k := n_states env) (a := 0%nat)
                     (l := repeat 0 (n_states env))
    as (improved & Hrun & Hlen & Hall).
  - intros s l Hs Hl. rewrite column_ok by exact Hv. cbn [bind].
    destruct (argmax_spec (action_values env s gamma value)) as (i & Hi & Hmax).
    { intros E. apply (f_equal (@length Qc)) in E.
      rewrite action_values_length in E. cbn in E. lia. }
    rewrite Hi. cbn [bind]. rewrite setitem_in_range by lia.
    rewrite Nat2Z.id. exists (Z.of_nat i). split; [reflexivity|].
    now exists i.
  - lia.
  - apply repeat_length.
  - intros s Hs. lia.
  - exists improved. split; [exact Hrun|]. split; [exact Hlen|].
    intros s Hs. destruct (Hall s Hs) as (i & Hi & Hmax). now exists i.
Qed.

End GreedyFacts.


Lemma policy_improvement_greedy :
  forall (env : Algorithms.Env) (policy : list Z) (value : list Qc)
         (gamma : Qc),
    length policy = Algorithms.n_states env ->
    length value = Algorithms.n_states env ->
    (0 < Algorithms.n_actions env)%nat ->
    exists improved stable,
      Algorithms.policy_improvement env policy value gamma
      = Ok (improved, stable)
      /\ greedy env gamma value improved
      /\ policy_ok env improved.
Proof.
  intros env policy value gamma Hp Hv Hact.
  destruct (improvement_loop_greedy env value gamma Hv Hact)
    as (improved & Hrun & Hgreedy).
  destruct (Algorithms.all_equal policy improved) as [stable|e] eqn:Eeq.
  - exists improved, stable. unfold Algorithms.policy_improvement.
    rewrite Hrun. cbn [bind]. rewrite Eeq. cbn [bind].
    split; [reflexivity|]. split; [exact Hgreedy|].
    destruct (improvement_loop_ok env value gamma Hv Hact)
      as (improved' & Hrun' & Hok).
    rewrite Hrun in Hrun'. now injection Hrun' as <-.
  - exfalso. destruct Hgreedy as [Hlen _].
    destruct (all_equal_same_length policy improved) as (t & Ht); [lia|].
    rewrite Ht in Eeq. discriminate.
Qed.

(** Property X10. For arrays of the right length and at least one action,
    [policy_improvement] returns the greedy policy for [value]: in every
    state the action whose one-step lookahead is largest, the first such
    action on ties, and so a valid action index. No other policy is greedy
    for [value]. *)
Theorem policy_improvement_is_greedy :
  forall (env : Algorithms.Env) (policy : list Z) (value : list Qc)
         (gamma : Qc),
    length policy = Algorithms.n_states env ->
    length value = Algorithms.n_states env ->
    (0 < Algorithms.n_actions env)%nat ->
    exists improved stable,
      Algorithms.policy_improvement env policy value gamma
      = Ok (improved, stable)
      /\ greedy env gamma value improved
      /\ policy_ok env improved
      /\ forall other, greedy env gamma value other -> other = improved.
Proof.
  intros env policy value gamma Hp Hv Hact.
  destruct (policy_improvement_greedy env policy value gamma Hp Hv Hact)
    as (improved & stable & Hrun & Hgreedy & Hok).
  exists improved, stable.
  split; [exact Hrun|]. split; [exact Hgreedy|]. split; [exact Hok|].
  intros other [Hlen Hother]. destruct Hgreedy as [Hlen' Himproved].
  apply nth_ext with (d := 0) (d' := 0); [lia|].
  intros s Hs. rewrite Hlen in Hs.
  destruct (Hother s Hs) as (a & -> & Ha).
  destruct (Himproved s Hs) as (b & -> & Hb).
  f_equal. exact (first_maximum_unique _ _ _ Ha Hb).
Qed.

Section ValueIterationFacts.
Import Np Algorithms.

Variable env : Env.
Variables gamma theta : Qc.

Lemma fold_py_max_in (l : list Qc) (x : Qc) :
  In (fold_left py_max l x) (x :: l).
Proof.
  revert x. induction l as [|y l IH]; intros x; [now left|].
  cbn [fold_left]. specialize (IH (py_max x y)).
  destruct IH as [IH|IH].
  - rewrite <- IH. unfold py_max.
    destruct (Qcltb x y); [right; now left | now left].
  - right. now right.
Qed.

Lemma amax_in (l : list Qc) :
  l <> [] -> exists m, amax l = Ok m /\ In m l.
Proof.
  destruct l as [|x l]; [congruence|]. intros _.
  eexists. split; [reflexivity|]. apply fold_py_max_in.
Qed.

(** One state of a sweep of [value_iteration]. *)
Lemma optimality_state_value (s : nat) (value : list Qc) (delta : Qc) :
  (0 < n_actions env)%nat -> (s < n_states env)%nat ->
  length value = n_states env ->
  exists best delta',
    optimality_state env gamma s (value, delta)
    = Ok (upd value s best, delta')
    /\ In best (action_values env s gamma value).
Proof.
  intros Hact Hs Hv. unfold optimality_state.
  rewrite (item_in_range value (Z.of_nat s) 0%Qc) by lia. unfold bind at 1.
  rewrite column_ok by exact Hv. unfold bind at 1.
  destruct (amax_in (action_values env s gamma value)) as (best & Hbest & Hin).
  { intros E. apply (f_equal (@length Qc)) in E.
    rewrite action_values_length in E. cbn in E. lia. }
  rewrite Hbest. unfold bind at 1.
  rewrite setitem_in_range by lia. unfold bind at 1.
  rewrite (item_in_range _ (Z.of_nat s) 0%Qc) by (rewrite length_upd; lia).
  unfold bind. rewrite Nat2Z.id. exists best. eexists.
  split; [reflexivity|exact Hin].
Qed.

(** The [while] loop of [value_iteration] keeps every invariant of the value
    array that each state's update keeps. *)
Lemma optimality_loop_invariant (Inv : list Qc -> Prop) :
  (0 < n_actions env)%nat ->
  (forall value, Inv value -> length value = n_states env) ->
  (forall s value best, (s < n_states env)%nat -> Inv value ->
     In best (action_values env s gamma value) -> Inv (upd value s best)) ->
  forall fuel stop value, Inv value ->
    exists value',
      optimality_loop env gamma theta fuel stop value = Ok value'
      /\ Inv value'.
Proof.
  intros Hact Hlen Hkeep.
  induction fuel as [|fuel IH]; intros stop value Hv; cbn [optimality_loop].
  - now exists value.
  - destruct stop; [now exists value|].
    destruct (for_each_invariant
                (fun st : list Qc * Qc => Inv (fst st))
                (seq 0 (n_states env))
                (optimality_state env gamma))
      with (st := (value, 0%Qc)) as ((value1 & delta1) & -> & Hv1).
    + intros s (v & d) Hs Hinv. apply in_seq in Hs. cbn [fst] in Hinv.
      destruct (optimality_state_value s v d Hact ltac:(lia) (Hlen v Hinv))
        as (best & d' & -> & Hin).
      exists (upd v s best, d'). split; [reflexivity|].
      cbn [fst]. apply Hkeep; [lia|assumption|assumption].
    + exact Hv.
    + unfold bind. cbn [fst] in Hv1. now apply IH.
Qed.

Lemma value_iteration_invariant (Inv : list Qc -> Prop) (max_iterations : Z) :
  (0 < n_actions env)%nat ->
  (forall value, Inv value -> length value = n_states env) ->
  (forall s value best, (s < n_states env)%nat -> Inv value ->
     In best (action_values env s gamma value) -> Inv (upd value s best)) ->
  Inv (zeros (n_states env)) ->
  exists policy value,
    value_iteration env gamma theta max_iterations = Ok (policy, value)
    /\ Inv value /\ greedy env gamma value policy /\ policy_ok env policy.
Proof.
  intros Hact Hlen Hkeep Hzero. unfold value_iteration.
  destruct (optimality_loop_invariant Inv Hact Hlen Hkeep
              (Z.to_nat max_iterations) false (zeros (n_states env)) Hzero)
    as (value & -> & Hinv).
  unfold bind at 1.
  destruct (policy_improvement_greedy env (repeat 0 (n_states env)) value
              gamma (repeat_length _ _) (Hlen value Hinv) Hact)
    as (policy & stable & -> & Hgreedy & Hok).
  unfold bind. now exists policy, value.
Qed.

End ValueIterationFacts.

Section PolicyEvaluationFacts.
Import Np Algorithms.

Variable env : Env.
Variables gamma theta : Qc.

(** One state of a sweep of [policy_evaluation]. *)
Lemma evaluation_state_value (policy : list Z) (s : nat) (value : list Qc)
    (delta : Qc) :
  policy_ok env policy -> (s < n_states env)%nat ->
  length value = n_states env ->
  exists delta',
    evaluation_state env policy gamma s (value, delta)
    = Ok (upd value s
            (nth (Z.to_nat (nth s policy 0))
                 (action_values env s gamma value) 0%Qc),
          delta').
Proof.
  intros (Hlen & Hall) Hs Hv. unfold evaluation_state.
  rewrite (item_in_range value (Z.of_nat s) 0%Qc) by lia. unfold bind at 1.
  rewrite (item_in_range policy (Z.of_nat s) 0) by lia. unfold bind at 1.
  rewrite Nat2Z.id.
  assert (Ha : 0 <= nth s policy 0 < Z.of_nat (n_actions env)).
  { rewrite Forall_forall in Hall. apply Hall. apply nth_In. lia. }
  rewrite (item_in_range (identity (n_actions env)) _ [])
    by (rewrite identity_length; exact Ha).
  unfold bind at 1. rewrite column_ok by exact Hv. unfold bind at 1.
  rewrite setitem_in_range by lia. unfold bind at 1.
  rewrite (item_in_range _ (Z.of_nat s) 0%Qc) by (rewrite length_upd; lia).
  unfold bind. rewrite Nat2Z.id.
  rewrite expected_backup_onehot by lia.
  unfold action_values. rewrite nth_map_seq by lia.
  eexists. reflexivity.
Qed.

Lemma evaluation_loop_invariant (Inv : list Qc -> Prop) (policy : list Z) :
  policy_ok env policy ->
  (forall value, Inv value -> length value = n_states env) ->
  (forall s value, (s < n_states env)%nat -> Inv value ->
     Inv (upd value s
            (nth (Z.to_nat (nth s policy 0))
                 (action_values env s gamma value) 0%Qc))) ->
  forall fuel stop value, Inv value ->
    exists value',
      evaluation_loop env policy gamma theta fuel stop value = Ok value'
      /\ Inv value'.
Proof.
  intros Hp Hlen Hkeep.
  induction fuel as [|fuel IH]; intros stop value Hv; cbn [evaluation_loop].
  - now exists value.
  - destruct stop; [now exists value|].
    destruct (for_each_invariant
                (fun st : list Qc * Qc => Inv (fst st))
                (seq 0 (n_states env))
                (evaluation_state env policy gamma))
      with (st := (value, 0%Qc)) as ((value1 & delta1) & -> & Hv1).
    + intros s (v & d) Hs Hinv. apply in_seq in Hs. cbn [fst] in Hinv.
      destruct (evaluation_state_value policy s v d Hp ltac:(lia)
                  (Hlen v Hinv)) as (d' & ->).
      eexists. split; [reflexivity|].
      cbn [fst]. apply Hkeep; [lia|assumption].
    + exact Hv.
    + unfold bind. cbn [fst] in Hv1. now apply IH.
Qed.

(** The action values of a trap whose value is zero. *)
Lemma trap_action_values (s : nat) (value : list Qc) :
  trap env s -> (s < n_states env)%nat -> nth s value 0%Qc = 0%Qc ->
  forall q, In q (action_values env s gamma value) -> q = 0%Qc.
Proof.
  intros Htrap Hs Hzero q Hq. unfold action_values in Hq.
  apply in_map_iff in Hq. destruct Hq as (a & <- & Ha).
  apply in_seq in Ha. destruct (Htrap a ltac:(lia)) as [Hr Hp].
  apply (@sum_zero nat). intros s' Hs'. apply in_seq in Hs'.
  destruct (Nat.eq_dec s' s) as [->|Hne].
  - rewrite Hr, Hzero. ring.
  - rewrite (Hp s') by (try assumption; lia). ring.
Qed.

End PolicyEvaluationFacts.

Section IterationResults.
Import Np Algorithms.

Variable env : Env.
Variables gamma theta : Qc.
Hypothesis Hact : (0 < n_actions env)%nat.

(** What the [while] loop of [policy_iteration] returns: its inputs when it
    does not run, and otherwise the evaluation of the last policy it
    evaluated with the greedy policy for that value. *)
Lemma iteration_loop_result (max_iterations : Z) (fuel : nat) (stop : bool)
    (policy : list Z) (value : list Qc) :
  policy_ok env policy -> length value = n_states env ->
  exists policy' value',
    iteration_loop env gamma theta max_iterations fuel stop policy value
    = Ok (policy', value')
    /\ ((policy' = policy /\ value' = value /\ (fuel = 0%nat \/ stop = true))
        \/ (exists evaluated,
              policy_ok env evaluated
              /\ policy_evaluation env evaluated gamma theta max_iterations
                 = Ok value'
              /\ greedy env gamma value' policy'
              /\ policy_ok env policy')).
Proof.
  revert stop policy value.
  induction fuel as [|fuel IH]; intros stop policy value Hp Hv;
    cbn [iteration_loop].
  - exists policy, value. split; [reflexivity|]. left. auto.
  - destruct stop.
    { exists policy, value. split; [reflexivity|]. left. auto. }
    destruct (policy_evaluation_ok env gamma theta policy max_iterations Hp)
      as (value1 & Hev & Hv1).
    rewrite Hev. unfold bind at 1.
    destruct (policy_improvement_greedy env policy value1 gamma (proj1 Hp)
                Hv1 Hact) as (policy1 & stable1 & -> & Hgreedy & Hp1).
    unfold bind at 1.
    destruct (IH stable1 policy1 value1 Hp1 Hv1)
      as (policy' & value' & Hrun & Hres).
    exists policy', value'. split; [exact Hrun|]. right.
    destruct Hres as [(-> & -> & _)|Hres]; [|exact Hres].
    exists policy. auto.
Qed.

End IterationResults.

(** Property X11. With at least one action [value_iteration] returns,
    whatever the discount, threshold and iteration cap: a value array with
    one entry per state and the policy that is greedy for that array. *)
Theorem value_iteration_returns_greedy_policy :
  forall (env : Algorithms.Env) (gamma theta : Qc) (max_iterations : Z),
    (0 < Algorithms.n_actions env)%nat ->
    exists policy value,
      Algorithms.value_iteration env gamma theta max_iterations
      = Ok (policy, value)
      /\ length value = Algorithms.n_states env
      /\ greedy env gamma value policy
      /\ policy_ok env policy.
Proof.
  intros env gamma theta max_iterations Hact.
  apply (value_iteration_invariant env gamma theta
           (fun value => length value = Algorithms.n_states env)).
  - exact Hact.
  - auto.
  - intros s value best _ Hlen _. now rewrite length_upd.
  - apply repeat_length.
Qed.

(** Property X12. With at least one action and an iteration cap of at
    least 1, [policy_iteration] returns a value array that is the policy
    evaluation of a policy it evaluated, and the policy that is greedy for
    that array. *)
Theorem policy_iteration_returns_greedy_policy :
  forall (env : Algorithms.Env) (gamma theta : Qc) (max_iterations : Z)
         (fs : Algorithms.FileSystem),
    (0 < Algorithms.n_actions env)%nat ->
    1 <= max_iterations ->
    exists policy value evaluated,
      fst (Algorithms.policy_iteration env gamma theta max_iterations fs)
      = Ok (policy, value)
      /\ policy_ok env evaluated
      /\ Algorithms.policy_evaluation env evaluated gamma theta max_iterations
         = Ok value
      /\ greedy env gamma value policy
      /\ policy_ok env policy.
Proof.
  intros env gamma theta max_iterations fs Hact Hmax.
  unfold Algorithms.policy_iteration.
  destruct (iteration_loop_result env gamma theta Hact max_iterations
              (Z.to_nat max_iterations) false
              (repeat 0 (Algorithms.n_states env))
              (Np.zeros (Algorithms.n_states env)))
    as (policy & value & -> & Hres).
  - now apply zeros_policy_ok.
  - apply repeat_length.
  - destruct Hres as [(_ & _ & [H|H])|(evaluated & H1 & H2 & H3 & H4)].
    + lia.
    + discriminate.
    + exists policy, value, evaluated. cbn [fst]. auto.
Qed.

(** Property X13. A state that no action leaves and whose self-loop pays
    nothing, like the absorbing state of both environments, has value 0 in
    what [policy_evaluation] and [value_iteration] return. *)
Theorem trap_state_keeps_value_zero :
  forall (env : Algorithms.Env) (gamma theta : Qc) (max_iterations : Z)
         (policy : list Z) (s : nat),
    (0 < Algorithms.n_actions env)%nat ->
    trap env s -> (s < Algorithms.n_states env)%nat ->
    policy_ok env policy ->
    (exists value,
        Algorithms.policy_evaluation env policy gamma theta max_iterations
        = Ok value
        /\ nth s value 0%Qc = 0%Qc)
    /\ (exists policy' value,
           Algorithms.value_iteration env gamma theta max_iterations
           = Ok (policy', value)
           /\ nth s value 0%Qc = 0%Qc).
Proof.
  intros env gamma theta max_iterations policy s Hact Htrap Hs Hp.
  set (Inv := fun value : list Qc =>
                length value = Algorithms.n_states env
                /\ nth s value 0%Qc = 0%Qc).
  assert (Hzero : Inv (Np.zeros (Algorithms.n_states env))).
  { split; [apply repeat_length|]. unfold Np.zeros.
    now rewrite nth_repeat_lt. }
  assert (Hkeep : forall t value best,
             (t < Algorithms.n_states env)%nat -> Inv value ->
             In best (Algorithms.action_values env t gamma value) ->
             Inv (Np.upd value t best)).
  { intros t value best Ht [Hlen Hval] Hbest. split.
    - now rewrite length_upd.
    - rewrite nth_upd. destruct (Nat.eqb_spec s t) as [<-|Hne]; [|exact Hval].
      rewrite Hlen. destruct (Nat.ltb_spec s (Algorithms.n_states env));
        [|lia].
      cbn [andb].
      now apply (trap_action_values env gamma s value Htrap Hs Hval). }
  split.
  - unfold Algorithms.policy_evaluation.
    destruct (evaluation_loop_invariant env gamma theta Inv policy Hp)
      with (fuel := Z.to_nat max_iterations) (stop := false)
           (value := Np.zeros (Algorithms.n_states env))
      as (value & Hrun & _ & Hval).
    + now intros value [Hlen _].
    + intros t value Ht Hinv. apply Hkeep; [exact Ht|exact Hinv|].
      apply nth_In. rewrite action_values_length.
      destruct Hp as [Hlen Hall]. rewrite Forall_forall in Hall.
      assert (0 <= nth t policy 0 < Z.of_nat (Algorithms.n_actions env))
        by (apply Hall, nth_In; lia).
      lia.
    + exact Hzero.
    + now exists value.
  - destruct (value_iteration_invariant env gamma theta Inv max_iterations
                Hact) as (policy' & value & Hrun & [_ Hval] & _).
    + now intros value [Hlen _].
    + exact Hkeep.
    + exact Hzero.
    + now exists policy', value.
Qed.

(** ** Invalid policies and the stopping test *)

Section InvalidPolicy.
Import Np Algorithms.

Variable env : Env.
Variables gamma theta : Qc.

Lemma for_each_raises {A S} (Inv : S -> Prop) (e : exn) (l : list A)
    (body : A -> S -> result S) :
  (forall x st, In x l -> Inv st ->
     body x st = Raise e \/ exists st', body x st = Ok st' /\ Inv st') ->
  (exists x, In x l /\ forall st, Inv st -> body x st = Raise e) ->
  forall st, Inv st -> for_each l body st = Raise e.
Proof.
  induction l as [|x l IH]; intros Hstep (y & Hy & Hraise) st Hst.
  - destruct Hy.
  - cbn [for_each]. destruct Hy as [<-|Hy].
    + now rewrite (Hraise st Hst).
    + destruct (Hstep x st (or_introl eq_refl) Hst)
        as [->|(st' & -> & Hst')]; [reflexivity|].
      cbn [bind]. apply IH; [|now exists y|exact Hst'].
      intros z st0 Hz. apply Hstep. now right.
Qed.

Lemma evaluation_state_cases (policy : list Z) (s : nat) (value : list Qc)
    (delta : Qc) :
  length policy = n_states env -> (s < n_states env)%nat ->
  length value = n_states env ->
  (evaluation_state env policy gamma s (value, delta) = Raise IndexError
   \/ exists value' delta',
        evaluation_state env policy gamma s (value, delta)
        = Ok (value', delta')
        /\ length value' = n_states env)
  /\ (beyond (n_actions env) (nth s policy 0) ->
      evaluation_state env policy gamma s (value, delta) = Raise IndexError).
Proof.
  intros Hlen Hs Hv. unfold evaluation_state.
  rewrite (item_in_range value (Z.of_nat s) 0%Qc) by lia. cbn [bind].
  rewrite (item_in_range policy (Z.of_nat s) 0) by lia. cbn [bind].
  rewrite Nat2Z.id. split.
  - destruct (item_cases (identity (n_actions env)) (nth s policy 0) [])
      as [E|(k & E & Hk)]; rewrite E; [now left|].
    right. cbn [bind]. rewrite column_ok by exact Hv. cbn [bind].
    rewrite setitem_in_range by lia. cbn [bind].
    rewrite (item_in_range _ (Z.of_nat s) 0%Qc) by (rewrite length_upd; lia).
    cbn [bind]. eexists. eexists. split; [reflexivity|].
    now rewrite length_upd.
  - intros Hb. rewrite item_beyond; [reflexivity|].
    now rewrite identity_length.
Qed.

Lemma delta_nonnegative (policy : list Z) (value value' : list Qc)
    (delta' : Qc) :
  for_each (seq 0 (n_states env)) (evaluation_state env policy gamma)
           (value, 0%Qc) = Ok (value', delta') ->
  (0 <= delta')%Qc.
Proof.
  intros H.
  apply (for_each_preserves (fun st : list Qc * Qc => (0 <= snd st)%Qc)
           (seq 0 (n_states env)) (evaluation_state env policy gamma)
           ) with (st' := (value', delta')) in H.
  - exact H.
  - intros s (v & d) (v' & d') Hstep Hd. cbn [snd] in *.
    unfold evaluation_state in Hstep.
    destruct (item v (Z.of_nat s)); [|discriminate]. cbn [bind] in Hstep.
    destruct (item policy (Z.of_nat s)); [|discriminate]. cbn [bind] in Hstep.
    destruct (item (identity (n_actions env)) _); [|discriminate].
    cbn [bind] in Hstep.
    destruct (column env v); [|discriminate]. cbn [bind] in Hstep.
    destruct (setitem v _ _); [|discriminate]. cbn [bind] in Hstep.
    destruct (item _ (Z.of_nat s)); [|discriminate]. cbn [bind] in Hstep.
    injection Hstep as _ <-. unfold py_max.
    destruct (Qcltb d _) eqn:E; [|exact Hd].
    apply Qcltb_true in E. apply Qclt_le_weak.
    now apply Qcle_lt_trans with d.
  - apply Qcle_refl.
Qed.

Lemma evaluation_loop_sweeps (policy : list Z) (fuel : nat) (value : list Qc) :
  (theta <= 0)%Qc ->
  evaluation_loop env policy gamma theta fuel false value
  = sweeps env policy gamma fuel value.
Proof.
  intros Htheta. revert value.
  induction fuel as [|fuel IH]; intros value; [reflexivity|].
  cbn [evaluation_loop sweeps]. unfold sweep.
  destruct (for_each _ _ _) as [[value' delta']|e] eqn:E; [|reflexivity].
  cbn [bind]. apply delta_nonnegative in E.
  replace (Qcltb delta' theta) with false; [apply IH|].
  symmetry. destruct (Qcltb delta' theta) eqn:El; [|reflexivity].
  apply Qcltb_true in El. exfalso.
  apply (Qclt_not_le _ _ El). now apply Qcle_trans with 0%Qc.
Qed.

End InvalidPolicy.

(** Property X14. With an iteration cap of at least 1, [policy_evaluation]
    raises [IndexError] on a policy that has, at some state, an entry that
    is not an index into the rows of the identity matrix (at or above
    [n_actions], or below [- n_actions]). *)
Theorem policy_evaluation_rejects_invalid_policy :
  forall (env : Algorithms.Env) (policy : list Z) (gamma theta : Qc)
         (max_iterations : Z) (s : nat),
    1 <= max_iterations ->
    length policy = Algorithms.n_states env ->
    (s < Algorithms.n_states env)%nat ->
    beyond (Algorithms.n_actions env) (nth s policy 0) ->
    Algorithms.policy_evaluation env policy gamma theta max_iterations
    = Raise IndexError.
Proof.
  intros env policy gamma theta max_iterations s Hmax Hlen Hs Hb.
  unfold Algorithms.policy_evaluation.
  destruct (Z.to_nat max_iterations) as [|fuel] eqn:Ef; [lia|].
  cbn [Algorithms.evaluation_loop].
  rewrite (for_each_raises
             (fun st : list Qc * Qc =>
                length (fst st) = Algorithms.n_states env) IndexError).
  - reflexivity.
  - intros t (v & d) Ht Hv. apply in_seq in Ht. cbn [fst] in Hv.
    destruct (evaluation_state_cases env gamma policy t v d Hlen
                ltac:(lia) Hv) as [[E|(v' & d' & E & Hv')] _].
    + now left.
    + right. now exists (v', d').
  - exists s. split; [apply in_seq; lia|].
    intros (v & d) Hv. cbn [fst] in Hv.
    now apply (evaluation_state_cases env gamma policy s v d Hlen Hs Hv).
  - apply repeat_length.
Qed.

Lemma policy_evaluation_rejects_invalid_policy_witness :
  Algorithms.policy_evaluation Examples.small_env [0; 4; 0] 1%Qc
    (Q2Qc (1 # 10000)) 10
  = Raise IndexError.
Proof.
  apply (policy_evaluation_rejects_invalid_policy Examples.small_env
           [0; 4; 0] 1%Qc (Q2Qc (1 # 10000)) 10 1).
  - lia.
  - reflexivity.
  - cbv; lia.
  - left. cbv. discriminate.
Defined.

(** Property X15. The stopping test of [policy_evaluation] is the strict
    [delta < theta] on a [delta] that is never negative: with a threshold
    [theta <= 0] the sweeps are never cut short, and the result is that of
    [max_iterations] full sweeps from the zero array. *)
Theorem policy_evaluation_runs_all_sweeps :
  forall (env : Algorithms.Env) (policy : list Z) (gamma theta : Qc)
         (max_iterations : Z),
    (theta <= 0)%Qc ->
    Algorithms.policy_evaluation env policy gamma theta max_iterations
    = sweeps env policy gamma (Z.to_nat max_iterations)
             (Np.zeros (Algorithms.n_states env)).
Proof.
  intros env policy gamma theta max_iterations Htheta.
  unfold Algorithms.policy_evaluation. now apply evaluation_loop_sweeps.
Qed.

Lemma policy_evaluation_runs_all_sweeps_witness :
  Algorithms.policy_evaluation Examples.small_env [0; 0; 0] 1%Qc 0%Qc 3
  = sweeps Examples.small_env [0; 0; 0] 1%Qc 3 (Np.zeros 3).
Proof.
  apply (policy_evaluation_runs_all_sweeps Examples.small_env [0; 0; 0]
           1%Qc 0%Qc 3).
  discriminate.
Defined.

(** ** Interactive episodes *)

Section RunLoopFacts.
Import RunEnv.

Variable Env : Type.
Variable Frame : Type.
Variable Reward : Type.
Variable render : Env -> result unit * list Frame.
Variable step : Env -> Z -> result (Z * Reward * bool) * Env.
Variable actions : list string.

(** The step counter of the environment, the cap on it, and the states at
    which an episode is over. *)
Variable count : Env -> Z.
Variable max_steps : Z.
Variable over : Env -> Prop.

Hypothesis Hstep : forall env a s r done env',
  step env a = (Ok (s, r, done), env') ->
  count env' = count env + 1
  /\ (done = true <-> max_steps <= count env' \/ over env').


Lemma loop_reads_bounded (inputs : list string) (env : Env)
    (out : list (event Frame Reward)) :
  let r := loop Env Frame Reward render step actions inputs env out in
  let read := Z.of_nat (length inputs) - Z.of_nat (length (unread r)) in
  0 <= read <= Z.max 1 (max_steps - count env)
  /\ (ended r = Finished ->
      count (env_after r) = count env + read
      /\ (max_steps <= count (env_after r) \/ over (env_after r))).
Proof.
  revert env out. induction inputs as [|c inputs IH]; intros env out;
    cbn [loop].
  - cbn [unread ended length]. split; [lia|discriminate].
  - destruct (index actions c) as [i|].
    2:{ cbn [unread ended length]. split; [lia|discriminate]. }
    destruct (step env (Z.of_nat i)) as [[[[s r] done]|e] env'] eqn:Es.
    2:{ cbn [unread ended length]. split; [lia|discriminate]. }
    destruct (Hstep _ _ _ _ _ _ Es) as [Hcount Hdone].
    destruct (render env') as [[u|e] frames].
    2:{ cbn [unread ended length]. split; [lia|discriminate]. }
    destruct done.
    + cbn [unread ended env_after length]. split; [lia|].
      intros _. split; [lia|]. now apply Hdone.
    + specialize (IH env' (((out ++ [Prompt actions]) ++ map Shown frames
                             ++ [RewardLine r]))).
      cbv zeta in IH. destruct IH as [Hread Hfin].
      assert (Hnot : ~ max_steps <= count env').
      { intros H. assert (false = true) by (apply Hdone; now left).
        discriminate. }
      cbn [length]. split; [lia|].
      intros Hend. destruct (Hfin Hend) as [Hc Ho]. split; [lia|exact Ho].
Qed.

Hypothesis Hkeys : forall env i, (i < length actions)%nat ->
  exists triple env', step env (Z.of_nat i) = (Ok triple, env').
Hypothesis Hrender : forall env e frames,
  render env = (Raise e, frames) -> e = IndexError.


End RunLoopFacts.

Section EpisodeFacts.
Import Np Environment.

Context {K : Num}.
Variable RS : Type.
Variable Reward : Type.
Variable choice : RS -> nat -> list num -> result Z * RS.
Variable draw : RS -> Z -> Z -> (Z * Reward) * RS.

Lemma frozenlake_step_counts (fl : FrozenLake.t) (st st' : EnvState RS)
    (a s : Z) (r : Reward) (done : bool) :
  FrozenLake.step RS Reward draw fl st a = (Ok (s, r, done), st') ->
  n_steps st' = n_steps st + 1
  /\ (done = true <->
      FrozenLake.max_steps fl <= n_steps st'
      \/ state st' = FrozenLake.absorbing_state fl).
Proof.
  destruct ((a <? 0) || (a >=? Z.of_nat FrozenLake.n_actions)) eqn:G.
  - apply guard_true_iff in G.
    rewrite (frozenlake_step_invalid RS Reward draw fl st a G). discriminate.
  - apply guard_false_iff in G.
    rewrite (frozenlake_step_valid RS Reward draw fl st a G).
    intros [= <- <- <- <-]. cbn [n_steps state]. split; [reflexivity|].
    apply done_flag_iff.
Qed.

Lemma gridworld_step_counts (gw : GridWorld.t) (st st' : EnvState RS)
    (a s : Z) (r : Reward) (done : bool) :
  GridWorld.step RS Reward draw gw st a = (Ok (s, r, done), st') ->
  n_steps st' = n_steps st + 1
  /\ (done = true <->
      GridWorld.max_steps gw <= n_steps st'
      \/ state st' = GridWorld.absorbing_state gw).
Proof.
  destruct ((a <? 0) || (a >=? Z.of_nat GridWorld.n_actions)) eqn:G.
  - apply guard_true_iff in G.
    rewrite (gridworld_step_invalid RS Reward draw gw st a G). discriminate.
  - apply guard_false_iff in G.
    rewrite (gridworld_step_valid RS Reward draw gw st a G).
    intros [= <- <- <- <-]. cbn [n_steps state]. split; [reflexivity|].
    apply done_flag_iff.
Qed.




Lemma reset_clears_counter (n : nat) (pi : list num) (st : EnvState RS) :
  n_steps (snd (reset RS n num pi choice st)) = 0.
Proof.
  unfold reset. now destruct (choice _ _ _) as [[s|e] rs].
Qed.

End EpisodeFacts.

(** Property X16. An interactive episode of [run_env], on a frozen lake or
    a grid world, reads at most [max_steps] keys (one key when [max_steps]
    is below 1): [reset] clears the step counter and every accepted key
    adds one to it. When the run finishes without an exception the counter
    is the number of keys read, and the cap was reached or the agent is in
    the absorbing state. *)
Theorem run_env_episode_is_truncated :
  forall (K : Num) (RS Reward : Type)
         (choice : RS -> nat -> list num -> result Z * RS)
         (draw : RS -> Z -> Z -> (Z * Reward) * RS)
         (fl : FrozenLake.t) (gw : GridWorld.t) (pi : list num)
         (st : Environment.EnvState RS) (actions inputs : list string),
    let truncated (max_steps absorbing : Z)
                  (r : RunEnv.run (Environment.EnvState RS) Np.printed Reward)
      :=
      let read := Z.of_nat (length inputs)
                  - Z.of_nat (length (RunEnv.unread r)) in
      0 <= read <= Z.max 1 max_steps
      /\ (RunEnv.ended r = RunEnv.Finished ->
          Environment.n_steps (RunEnv.env_after r) = read
          /\ (max_steps <= read
              \/ Environment.state (RunEnv.env_after r) = absorbing)) in
    truncated (FrozenLake.max_steps fl) (FrozenLake.absorbing_state fl)
      (RunEnv.run_env_on_frozenlake RS Reward choice draw fl pi st actions inputs)
    /\ truncated (GridWorld.max_steps gw) (GridWorld.absorbing_state gw)
         (RunEnv.run_env_on_gridworld RS Reward choice draw gw pi st actions
                                   inputs).
Proof.
  intros K RS Reward choice draw fl gw pi st actions inputs truncated.
  subst truncated. cbv beta. split.
  - unfold RunEnv.run_env_on_frozenlake, RunEnv.run_env.
    pose proof (reset_clears_counter RS choice (FrozenLake.n_states fl) pi st)
      as Hreset.
    destruct (Environment.reset _ _ _ _ _ st) as [[s|e] st0].
    2:{ cbn [RunEnv.unread RunEnv.ended]. split; [lia|discriminate]. }
    cbn [snd] in Hreset.
    destruct (FrozenLake.render fl _ None []) as [[u|e] frames].
    2:{ cbn [RunEnv.unread RunEnv.ended]. split; [lia|discriminate]. }
    pose proof (loop_reads_bounded _ _ _
                  (fun st => FrozenLake.render fl (Environment.state st)
                               None [])
                  (FrozenLake.step RS Reward draw fl) actions
                  Environment.n_steps (FrozenLake.max_steps fl)
                  (fun st => Environment.state st
                             = FrozenLake.absorbing_state fl)
                  (fun env a s r done env' =>
                     frozenlake_step_counts RS Reward draw fl env env' a s r
                                            done)
                  inputs st0 (map RunEnv.Shown frames)) as H.
    cbv zeta in H. rewrite Hreset in H. destruct H as [Hread Hfin].
    split; [lia|]. intros Hend. destruct (Hfin Hend) as [Hc Ho].
    split; [lia|]. rewrite Hc in Ho. 
    destruct Ho as [Ho|Ho]; [left; lia|now right].
  - unfold RunEnv.run_env_on_gridworld, RunEnv.run_env.
    pose proof (reset_clears_counter RS choice (GridWorld.n_states gw) pi st)
      as Hreset.
    destruct (Environment.reset _ _ _ _ _ st) as [[s|e] st0].
    2:{ cbn [RunEnv.unread RunEnv.ended]. split; [lia|discriminate]. }
    cbn [snd] in Hreset.
    destruct (GridWorld.render gw _ None []) as [[u|e] frames].
    2:{ cbn [RunEnv.unread RunEnv.ended]. split; [lia|discriminate]. }
    pose proof (loop_reads_bounded _ _ _
                  (fun st => GridWorld.render gw (Environment.state st)
                               None [])
                  (GridWorld.step RS Reward draw gw) actions
                  Environment.n_steps (GridWorld.max_steps gw)
                  (fun st => Environment.state st
                             = GridWorld.absorbing_state gw)
                  (fun env a s r done env' =>
                     gridworld_step_counts RS Reward draw gw env env' a s r
                                           done)
                  inputs st0 (map RunEnv.Shown frames)) as H.
    cbv zeta in H. rewrite Hreset in H. destruct H as [Hread Hfin].
    split; [lia|]. intros Hend. destruct (Hfin Hend) as [Hc Ho].
    split; [lia|]. rewrite Hc in Ho.
    destruct Ho as [Ho|Ho]; [left; lia|now right].
Qed.



(** ** Rendering *)

Section RenderFacts.
Import Np EnvHelper.

Variable grid : chararray.
Hypothesis Hwf : well_formed grid.

Lemma setitem2_at_index (s : nat) (x : string) :
  (s < size grid)%nat ->
  setitem2 grid (Z.of_nat s / Z.of_nat (columns grid))
                (Z.of_nat s mod Z.of_nat (columns grid)) x
  = Ok {| rows := rows grid; columns := columns grid;
          cells := upd (cells grid) s x |}.
Proof.
  intros Hs. destruct (position_in_grid grid s Hs) as [Hx Hy].
  unfold setitem2.
  rewrite (np_index_in_range (rows grid)) by exact Hx. cbn [bind].
  rewrite (np_index_in_range (columns grid)) by exact Hy. cbn [bind].
  do 3 f_equal. apply Nat2Z.inj.
  rewrite Nat2Z.inj_add, Nat2Z.inj_mul, !Z2Nat.id by lia.
  destruct Hwf as [_ Hc].
  pose proof (Z.div_mod (Z.of_nat s) (Z.of_nat (columns grid)) ltac:(lia)).
  lia.
Qed.

Lemma nth_map_in_range {A B} (f : A -> B) (l : list A) (j : nat) (d : A)
    (d' : B) :
  (j < length l)%nat -> nth j (map f l) d' = f (nth j l d).
Proof.
  intros Hj. rewrite (nth_indep _ d' (f d)) by now rewrite length_map.
  apply map_nth.
Qed.

Lemma drawn_symbol (c : string) :
  (fun x => if String.eqb x "£" then "-1"%string else x)
    ((fun x => if String.eqb x "$" then "+1"%string else x)
       ((fun x => if String.eqb x "#" then "##"%string else x)
          (if String.eqb c "." || String.eqb c "&" then "__"%string else c)))
  = world_symbol c.
Proof.
  unfold world_symbol. cbv beta.
  destruct (String.eqb_spec c ".") as [->|_]; [reflexivity|].
  destruct (String.eqb_spec c "&") as [->|_]; [reflexivity|].
  cbn [orb].
  destruct (String.eqb_spec c "#") as [->|_]; [reflexivity|].
  destruct (String.eqb_spec c "$") as [->|_]; [reflexivity|].
  destruct (String.eqb_spec c "£") as [->|_]; reflexivity.
Qed.

End RenderFacts.

Section OverlayFacts.
Import Np.
Context {K : Num}.

Lemma removelast_shorter {A} (l : list A) :
  length (removelast l) = (length l - 1)%nat.
Proof.
  induction l as [|x l IH]; [reflexivity|].
  destruct l as [|y l]; [reflexivity|].
  change (removelast (x :: y :: l)) with (x :: removelast (y :: l)).
  cbn [length] in *. lia.
Qed.

Lemma removelast_In {A} (l : list A) (x : A) :
  In x (removelast l) -> In x l.
Proof.
  induction l as [|y l IH]; [auto|].
  destruct l as [|z l]; [intros []|].
  change (removelast (y :: z :: l)) with (y :: removelast (z :: l)).
  intros [->|H]; [now left|right; now apply IH].
Qed.

Lemma policy_letters (policy : list Z) :
  Forall (valid_action 4) policy ->
  map_result (item FrozenLake.action_letters) (removelast policy)
  = Ok (map action_letter (removelast policy)).
Proof.
  intros Hall. apply map_result_ok. intros a Ha.
  apply removelast_In in Ha. rewrite Forall_forall in Hall.
  specialize (Hall a Ha). unfold valid_action in Hall.
  now apply item_in_range.
Qed.

Lemma overlay_drawn (grid : chararray) (policy : list Z) (value : list num)
    (out : list printed) :
  length policy = (size grid + 1)%nat ->
  length value = (size grid + 1)%nat ->
  Forall (valid_action 4) policy ->
  (let out := out ++ [Text "Policy:"] in
   match
     letters <- map_result (item FrozenLake.action_letters)
                           (removelast policy) ;;
     reshape letters (rows grid) (columns grid)
   with
   | Raise e => (Raise e, out)
   | Ok letters =>
       let out := out ++ [Grid letters; Text "Value:"] in
       if Nat.eqb (length (removelast value)) (size grid)
       then (Ok tt,
             out ++ [Values (rows grid) (columns grid) (removelast value)])
       else (Raise ValueError, out)
   end)
  = (Ok tt, out ++ overlay grid policy value).
Proof.
  intros Hp Hv Hall. cbv zeta. rewrite policy_letters by exact Hall.
  cbn [bind]. unfold reshape.
  rewrite length_map, removelast_shorter, Hp.
  replace (size grid + 1 - 1)%nat with (size grid) by lia.
  unfold size at 1. rewrite Nat.eqb_refl.
  rewrite removelast_shorter, Hv.
  replace (size grid + 1 - 1)%nat with (size grid) by lia.
  rewrite Nat.eqb_refl. unfold overlay.
  now rewrite <- !app_assoc.
Qed.

End OverlayFacts.

(** Property X18. Without a policy, [FrozenLake.render] prints the title
    and the lake in its own shape, with ['@'] in the agent's cell and every
    other cell as it is; in the absorbing state no cell is marked. *)
Theorem frozenlake_render_marks_agent :
  forall (K : Num) (fl : FrozenLake.t) (s : nat) (out : list Np.printed),
    Np.well_formed (FrozenLake.lake fl) ->
    (s < FrozenLake.n_states fl)%nat ->
    exists shown,
      FrozenLake.render fl (Z.of_nat s) None out
      = (Ok tt, out ++ [Np.Text "FrozenLake:"; Np.Grid shown])
      /\ Np.rows shown = Np.rows (FrozenLake.lake fl)
      /\ Np.columns shown = Np.columns (FrozenLake.lake fl)
      /\ forall j, (j < Np.size (FrozenLake.lake fl))%nat ->
           cell shown j
           = if Nat.eqb j s then "@"%string else cell (FrozenLake.lake fl) j.
Proof.
  intros K fl s out Hwf Hs. unfold FrozenLake.render.
  unfold FrozenLake.absorbing_state.
  unfold FrozenLake.n_states in *.
  destruct (Z.ltb_spec (Z.of_nat s)
              (Z.of_nat (Np.size (FrozenLake.lake fl) + 1) - 1)) as [Hlt|Hge].
  - unfold EnvHelper.index_to_position.
    rewrite (setitem2_at_index _ Hwf s) by lia.
    eexists. split; [now rewrite <- app_assoc|].
    cbn [Np.rows Np.columns]. repeat split.
    intros j Hj. unfold cell. cbn [Np.cells]. rewrite nth_upd.
    destruct Hwf as [Hlen _]. rewrite Hlen.
    destruct (Nat.eqb j s); [|reflexivity].
    destruct (Nat.ltb_spec s (Np.size (FrozenLake.lake fl))); [reflexivity|lia].
  - exists (FrozenLake.lake fl). split; [now rewrite <- app_assoc|].
    repeat split. intros j Hj.
    destruct (Nat.eqb_spec j s); [lia|reflexivity].
Qed.

Lemma frozenlake_render_marks_agent_witness :
  exists shown,
    FrozenLake.render Examples.frozenlake (Z.of_nat 5) None []
    = (Ok tt, [] ++ [Np.Text "FrozenLake:"; Np.Grid shown])
    /\ Np.rows shown = Np.rows (FrozenLake.lake Examples.frozenlake)
    /\ Np.columns shown = Np.columns (FrozenLake.lake Examples.frozenlake)
    /\ forall j, (j < Np.size (FrozenLake.lake Examples.frozenlake))%nat ->
         cell shown j
         = if Nat.eqb j 5 then "@"%string
           else cell (FrozenLake.lake Examples.frozenlake) j.
Proof.
  apply (frozenlake_render_marks_agent Exact Examples.frozenlake 5 []).
  - exact example_lake_well_formed.
  - cbv. lia.
Defined.

(** Property X19. [GridWorld.print_world] prints the title and the world
    in its own shape: ['@@'] in the agent's cell, whatever is under it, and
    elsewhere ['__'] for a free or start cell, ['##'] for an obstacle,
    ['+1'] and ['-1'] for the two goals; in the absorbing state no cell is
    marked. The replacements are made one after the other and do not
    interfere. *)
Theorem gridworld_print_world_symbols :
  forall (K : Num) (gw : GridWorld.t) (s : nat) (out : list Np.printed),
    Np.well_formed (GridWorld.world gw) ->
    (s < GridWorld.n_states gw)%nat ->
    exists shown,
      @GridWorld.print_world K gw (Z.of_nat s) out
      = (Ok tt, out ++ [Np.Text "GridWorld:"; Np.Grid shown])
      /\ Np.rows shown = Np.rows (GridWorld.world gw)
      /\ Np.columns shown = Np.columns (GridWorld.world gw)
      /\ forall j, (j < Np.size (GridWorld.world gw))%nat ->
           cell shown j
           = if Nat.eqb j s then "@@"%string
             else world_symbol (cell (GridWorld.world gw) j).
Proof.
  intros K gw s out Hwf Hs. unfold GridWorld.print_world.
  unfold GridWorld.absorbing_state.
  unfold GridWorld.n_states in *.
  assert (Hlen : length (Np.cells (GridWorld.world gw))
                 = Np.size (GridWorld.world gw)) by apply Hwf.
  destruct (Z.ltb_spec (Z.of_nat s)
              (Z.of_nat (Np.size (GridWorld.world gw) + 1) - 1)) as [Hlt|Hge].
  - unfold EnvHelper.index_to_position.
    rewrite (setitem2_at_index _ Hwf s) by lia.
    eexists. split; [now rewrite <- app_assoc|].
    cbn [Np.rows Np.columns Np.replace_eq]. repeat split.
    intros j Hj. unfold cell, Np.replace_eq. cbn [Np.cells].
    rewrite !map_map.
    rewrite (nth_map_in_range _ _ j EmptyString)
      by (rewrite length_upd; lia).
    rewrite drawn_symbol, nth_upd, Hlen.
    destruct (Nat.eqb j s); [|reflexivity].
    destruct (Nat.ltb_spec s (Np.size (GridWorld.world gw)));
      [reflexivity|lia].
  - eexists. split; [now rewrite <- app_assoc|].
    cbn [Np.rows Np.columns Np.replace_eq]. repeat split.
    intros j Hj. unfold cell, Np.replace_eq. cbn [Np.cells].
    rewrite !map_map.
    rewrite (nth_map_in_range _ _ j EmptyString) by lia.
    rewrite drawn_symbol.
    destruct (Nat.eqb_spec j s); [lia|reflexivity].
Qed.

Lemma gridworld_print_world_symbols_witness :
  exists shown,
    @GridWorld.print_world Exact Examples.gridworld (Z.of_nat 5) []
    = (Ok tt, [] ++ [Np.Text "GridWorld:"; Np.Grid shown])
    /\ Np.rows shown = Np.rows (GridWorld.world Examples.gridworld)
    /\ Np.columns shown = Np.columns (GridWorld.world Examples.gridworld)
    /\ forall j, (j < Np.size (GridWorld.world Examples.gridworld))%nat ->
         cell shown j
         = if Nat.eqb j 5 then "@@"%string
           else world_symbol (cell (GridWorld.world Examples.gridworld) j).
Proof.
  apply (gridworld_print_world_symbols Exact Examples.gridworld 5 []).
  - exact example_grid_well_formed.
  - cbv. lia.
Defined.

(** Property X20. Given a policy of valid actions and a value array, both
    with one entry per state, [render] of either environment adds to what
    it prints without them: the letters u, d, l, r of all policy entries
    but the last, in the grid's shape, and all values but the last, in the
    grid's shape. The entries of the absorbing state are not drawn. *)
Theorem render_draws_policy_without_absorbing_entry :
  forall (K : Num) (fl : FrozenLake.t) (gw : GridWorld.t) (state : Z)
         (policy : list Z) (value : list num) (out out' : list Np.printed),
    Forall (valid_action 4) policy ->
    (length policy = FrozenLake.n_states fl ->
     length value = FrozenLake.n_states fl ->
     FrozenLake.render fl state None out = (Ok tt, out') ->
     FrozenLake.render fl state (Some (policy, value)) out
     = (Ok tt, out' ++ overlay (FrozenLake.lake fl) policy value))
    /\ (length policy = GridWorld.n_states gw ->
        length value = GridWorld.n_states gw ->
        GridWorld.render gw state None out = (Ok tt, out') ->
        GridWorld.render gw state (Some (policy, value)) out
        = (Ok tt, out' ++ overlay (GridWorld.world gw) policy value)).
Proof.
  intros K fl gw state policy value out out' Hall. split.
  - intros Hp Hv. unfold FrozenLake.render.
    destruct (if state <? FrozenLake.absorbing_state fl then _ else _)
      as [shown|e]; [|discriminate].
    intros [= <-]. now apply overlay_drawn.
  - intros Hp Hv. unfold GridWorld.render.
    destruct (GridWorld.print_world gw state out) as [[u|e] out0];
      [|discriminate].
    intros [= <-]. now apply overlay_drawn.
Qed.

(** ** Slip one, and instances *)

Section FullSlip.
Import Np.

Variable lake : chararray.

Lemma full_slip_mass_exact (s a l : nat) :
  (a < 4)%nat ->
  @accumulated_mass Exact lake 1%Qc s a l
  = @accumulated_mass Exact lake 1%Qc s 0 l.
Proof.
  intros Ha. unfold accumulated_mass, slip_step.
  change FrozenLake.n_actions with 4%nat. cbn [seq fold_left].
  assert (Hc : (a = 0 \/ a = 1 \/ a = 2 \/ a = 3)%nat) by lia.
  destruct Hc as [->|[->|[->| ->]]]; cbn [Nat.eqb];
    destruct (Nat.eqb (reached lake s 0) l),
             (Nat.eqb (reached lake s 1) l),
             (Nat.eqb (reached lake s 2) l),
             (Nat.eqb (reached lake s 3) l);
    apply Qc_is_canon; reflexivity.
Qed.

Lemma full_slip_mass_binary64 (s a l : nat) :
  (a < 4)%nat ->
  @accumulated_mass Binary64 lake PrimFloat.one s a l
  = @accumulated_mass Binary64 lake PrimFloat.one s 0 l.
Proof.
  intros Ha. unfold accumulated_mass, slip_step.
  change FrozenLake.n_actions with 4%nat. cbn [seq fold_left].
  assert (Hc : (a = 0 \/ a = 1 \/ a = 2 \/ a = 3)%nat) by lia.
  destruct Hc as [->|[->|[->| ->]]]; cbn [Nat.eqb];
    destruct (Nat.eqb (reached lake s 0) l),
             (Nat.eqb (reached lake s 1) l),
             (Nat.eqb (reached lake s 2) l),
             (Nat.eqb (reached lake s 3) l);
    vm_compute; reflexivity.
Qed.

End FullSlip.

Section ActionFree.
Import Np.
Context {K : Num}.
Variable lake : chararray.
Variable slip : num.
Variable max_steps : Z.
Hypothesis Hwf : well_formed lake.
Hypothesis Hmass : forall s a l, (a < 4)%nat ->
  accumulated_mass lake slip s a l = accumulated_mass lake slip s 0 l.

Lemma action_free_lake :
  exists fl,
    FrozenLake.init lake slip max_steps = Ok fl
    /\ forall s a a' s',
        (s < FrozenLake.n_states fl)%nat ->
        (a < FrozenLake.n_actions)%nat -> (a' < FrozenLake.n_actions)%nat ->
        (s' < FrozenLake.n_states fl)%nat ->
        FrozenLake.p fl (Z.of_nat s') (Z.of_nat s) (Z.of_nat a)
        = FrozenLake.p fl (Z.of_nat s') (Z.of_nat s) (Z.of_nat a').
Proof.
  destruct (init_spec lake slip max_steps Hwf)
    as (fl & Hinit & Hlake & _ & _ & _ & _).
  exists fl. split; [exact Hinit|].
  intros s a a' s' Hs Ha Ha' Hs'.
  unfold FrozenLake.n_states in Hs, Hs'. rewrite Hlake in Hs, Hs'.
  rewrite !(p_spec lake slip max_steps Hwf fl) by (try assumption; lia).
  unfold lake_kernel.
  destruct (Nat.eqb s (size lake) || lake_terminal lake s); [reflexivity|].
  now rewrite (Hmass s a), (Hmass s a').
Qed.

End ActionFree.

(** Property X5. With slip 1 the action does not matter: every transition
    probability of the frozen lake is the same under all four actions, in
    exact arithmetic and in binary64. *)
Theorem frozenlake_full_slip_ignores_action :
  forall (lake : Np.chararray) (max_steps : Z),
    Np.well_formed lake ->
    (exists fl,
        @FrozenLake.init Exact lake 1%Qc max_steps = Ok fl
        /\ forall s a a' s',
            (s < FrozenLake.n_states fl)%nat ->
            (a < FrozenLake.n_actions)%nat ->
            (a' < FrozenLake.n_actions)%nat ->
            (s' < FrozenLake.n_states fl)%nat ->
            FrozenLake.p fl (Z.of_nat s') (Z.of_nat s) (Z.of_nat a)
            = FrozenLake.p fl (Z.of_nat s') (Z.of_nat s) (Z.of_nat a'))
    /\ (exists fl,
           @FrozenLake.init Binary64 lake PrimFloat.one max_steps = Ok fl
           /\ forall s a a' s',
               (s < FrozenLake.n_states fl)%nat ->
               (a < FrozenLake.n_actions)%nat ->
               (a' < FrozenLake.n_actions)%nat ->
               (s' < FrozenLake.n_states fl)%nat ->
               FrozenLake.p fl (Z.of_nat s') (Z.of_nat s) (Z.of_nat a)
               = FrozenLake.p fl (Z.of_nat s') (Z.of_nat s) (Z.of_nat a')).
Proof.
  intros lake max_steps Hwf. split.
  - apply (@action_free_lake Exact lake 1%Qc max_steps Hwf).
    intros s a l Ha. now apply full_slip_mass_exact.
  - apply (@action_free_lake Binary64 lake PrimFloat.one max_steps Hwf).
    intros s a l Ha. now apply full_slip_mass_binary64.
Qed.

Lemma frozenlake_full_slip_ignores_action_witness :
  (exists fl,
      @FrozenLake.init Exact Examples.lake 1%Qc 30 = Ok fl
      /\ forall s a a' s',
          (s < FrozenLake.n_states fl)%nat ->
          (a < FrozenLake.n_actions)%nat ->
          (a' < FrozenLake.n_actions)%nat ->
          (s' < FrozenLake.n_states fl)%nat ->
          FrozenLake.p fl (Z.of_nat s') (Z.of_nat s) (Z.of_nat a)
          = FrozenLake.p fl (Z.of_nat s') (Z.of_nat s) (Z.of_nat a'))
  /\ (exists fl,
         @FrozenLake.init Binary64 Examples.lake PrimFloat.one 30 = Ok fl
         /\ forall s a a' s',
             (s < FrozenLake.n_states fl)%nat ->
             (a < FrozenLake.n_actions)%nat ->
             (a' < FrozenLake.n_actions)%nat ->
             (s' < FrozenLake.n_states fl)%nat ->
             FrozenLake.p fl (Z.of_nat s') (Z.of_nat s) (Z.of_nat a)
             = FrozenLake.p fl (Z.of_nat s') (Z.of_nat s) (Z.of_nat a')).
Proof.
  exact (frozenlake_full_slip_ignores_action Examples.lake 30
           example_lake_well_formed).
Defined.

Lemma frozenlake_terminal_cells_exit_witness :
  exists fl,
    @FrozenLake.init Binary64 Examples.lake Examples.fifth 30 = Ok fl
    /\ forall s a s',
        (s < Np.size Examples.lake)%nat ->
        lake_terminal Examples.lake s = true ->
        (a < FrozenLake.n_actions)%nat ->
        (s' < FrozenLake.n_states fl)%nat ->
        FrozenLake.p fl (Z.of_nat s') (Z.of_nat s) (Z.of_nat a)
        = Ok (if Z.of_nat s' =? FrozenLake.absorbing_state fl
              then PrimFloat.one else PrimFloat.zero).
Proof.
  exact (frozenlake_terminal_cells_exit Binary64 Examples.lake Examples.fifth
           30 example_lake_well_formed).
Defined.

Lemma policy_improvement_is_greedy_witness :
  exists improved stable,
    Algorithms.policy_improvement Examples.small_env [0; 0; 1] (Np.zeros 3)
                                  1%Qc
    = Ok (improved, stable)
    /\ greedy Examples.small_env 1%Qc (Np.zeros 3) improved
    /\ policy_ok Examples.small_env improved
    /\ forall other,
         greedy Examples.small_env 1%Qc (Np.zeros 3) other -> other = improved.
Proof.
  apply (policy_improvement_is_greedy Examples.small_env [0; 0; 1]
           (Np.zeros 3) 1%Qc).
  - reflexivity.
  - reflexivity.
  - cbv. lia.
Defined.

Lemma value_iteration_returns_greedy_policy_witness :
  exists policy value,
    Algorithms.value_iteration Examples.small_env (Q2Qc (9 # 10))
                               (Q2Qc (1 # 10000)) 10
    = Ok (policy, value)
    /\ length value = Algorithms.n_states Examples.small_env
    /\ greedy Examples.small_env (Q2Qc (9 # 10)) value policy
    /\ policy_ok Examples.small_env policy.
Proof.
  apply (value_iteration_returns_greedy_policy Examples.small_env
           (Q2Qc (9 # 10)) (Q2Qc (1 # 10000)) 10).
  cbv. lia.
Defined.

Lemma policy_iteration_returns_greedy_policy_witness :
  exists policy value evaluated,
    fst (Algorithms.policy_iteration Examples.small_env (Q2Qc (9 # 10))
           (Q2Qc (1 # 10000)) 10 [])
    = Ok (policy, value)
    /\ policy_ok Examples.small_env evaluated
    /\ Algorithms.policy_evaluation Examples.small_env evaluated
         (Q2Qc (9 # 10)) (Q2Qc (1 # 10000)) 10
       = Ok value
    /\ greedy Examples.small_env (Q2Qc (9 # 10)) value policy
    /\ policy_ok Examples.small_env policy.
Proof.
  apply (policy_iteration_returns_greedy_policy Examples.small_env
           (Q2Qc (9 # 10)) (Q2Qc (1 # 10000)) 10 []).
  - cbv. lia.
  - lia.
Defined.

Lemma small_env_trap : trap Examples.small_env 2.
Proof.
  intros a Ha. change (a < 4)%nat in Ha.
  assert (Hc : (a = 0 \/ a = 1 \/ a = 2 \/ a = 3)%nat) by lia.
  split.
  - destruct Hc as [->|[->|[->| ->]]]; reflexivity.
  - intros s' Hs' Hne. change (s' < 3)%nat in Hs'.
    assert (Hc' : (s' = 0 \/ s' = 1)%nat) by lia.
    destruct Hc as [->|[->|[->| ->]]]; destruct Hc' as [->| ->]; reflexivity.
Defined.

Lemma trap_state_keeps_value_zero_witness :
  (exists value,
      Algorithms.policy_evaluation Examples.small_env [0; 0; 0]
        (Q2Qc (9 # 10)) (Q2Qc (1 # 10000)) 10
      = Ok value
      /\ nth 2 value 0%Qc = 0%Qc)
  /\ (exists policy' value,
         Algorithms.value_iteration Examples.small_env (Q2Qc (9 # 10))
           (Q2Qc (1 # 10000)) 10
         = Ok (policy', value)
         /\ nth 2 value 0%Qc = 0%Qc).
Proof.
  apply (trap_state_keeps_value_zero Examples.small_env (Q2Qc (9 # 10))
           (Q2Qc (1 # 10000)) 10 [0; 0; 0] 2).
  - cbv. lia.
  - exact small_env_trap.
  - cbv. lia.
  - split; [reflexivity|]. repeat constructor; cbv; discriminate.
Defined.

Lemma example_policy_valid : Forall (valid_action 4) (repeat 3 17).
Proof.
  apply Forall_forall. intros a Ha. apply repeat_spec in Ha. subst a.
  unfold valid_action. lia.
Qed.

Lemma render_draws_policy_without_absorbing_entry_witness :
  FrozenLake.render Examples.frozenlake 0
    (Some (repeat 3 17, @Np.zeros Exact 17)) nil
  = (Ok tt,
     snd (FrozenLake.render Examples.frozenlake 0 None nil)
     ++ overlay (FrozenLake.lake Examples.frozenlake) (repeat 3 17)
                (@Np.zeros Exact 17))
  /\ GridWorld.render Examples.gridworld 0
       (Some (repeat 3 17, @Np.zeros Exact 17)) nil
     = (Ok tt,
        snd (@GridWorld.render Exact Examples.gridworld 0 None nil)
        ++ overlay (GridWorld.world Examples.gridworld) (repeat 3 17)
                   (@Np.zeros Exact 17)).
Proof.
  split.
  - apply (proj1 (render_draws_policy_without_absorbing_entry Exact
                    Examples.frozenlake Examples.gridworld 0 (repeat 3 17)
                    (@Np.zeros Exact 17) nil
                    (snd (FrozenLake.render Examples.frozenlake 0 None nil))
                    example_policy_valid)); reflexivity.
  - apply (proj2 (render_draws_policy_without_absorbing_entry Exact
                    Examples.frozenlake Examples.gridworld 0 (repeat 3 17)
                    (@Np.zeros Exact 17) nil
                    (snd (@GridWorld.render Exact Examples.gridworld 0 None
                                            nil))
                    example_policy_valid)); reflexivity.
Defined.

(** ** Signs: values and policy entries *)

Section NonnegativeValues.
Import Np Algorithms.

Variable env : Env.
Variable gamma : Qc.
Hypothesis Hgamma : (0 <= gamma)%Qc.
Hypothesis Henv : nonnegative env.

Lemma Qcmult_nonneg (a b : Qc) : (0 <= a)%Qc -> (0 <= b)%Qc -> (0 <= a * b)%Qc.
Proof.
  intros Ha Hb. replace 0%Qc with (0 * b)%Qc by ring.
  now apply Qcmult_le_compat_r.
Qed.

Lemma Qcplus_nonneg (a b : Qc) : (0 <= a)%Qc -> (0 <= b)%Qc -> (0 <= a + b)%Qc.
Proof.
  intros Ha Hb. replace 0%Qc with (0 + 0)%Qc by ring.
  now apply Qcplus_le_compat.
Qed.

Lemma sum_nonneg {A} (f : A -> Qc) (l : list A) :
  (forall x, In x l -> (0 <= f x)%Qc) -> (0 <= @sum Exact (map f l))%Qc.
Proof.
  induction l as [|x l IH]; intros H.
  - apply Qcle_refl.
  - cbn [map sum fold_right]. apply Qcplus_nonneg.
    + apply H. now left.
    + apply IH. intros y Hy. apply H. now right.
Qed.

Lemma action_values_nonneg (s : nat) (value : list Qc) :
  (s < n_states env)%nat ->
  (forall j, (0 <= nth j value 0)%Qc) ->
  forall q, In q (action_values env s gamma value) -> (0 <= q)%Qc.
Proof.
  intros Hs Hv q Hq. unfold action_values in Hq.
  apply in_map_iff in Hq. destruct Hq as (a & <- & Ha). apply in_seq in Ha.
  apply sum_nonneg. intros s' Hs'. apply in_seq in Hs'.
  destruct (Henv s s' a) as [Hp Hr]; try lia.
  apply Qcmult_nonneg; [exact Hp|].
  apply Qcplus_nonneg; [exact Hr|]. now apply Qcmult_nonneg.
Qed.

Lemma nonneg_upd (value : list Qc) (s : nat) (x : Qc) :
  (forall j, (0 <= nth j value 0)%Qc) -> (0 <= x)%Qc ->
  forall j, (0 <= nth j (upd value s x) 0)%Qc.
Proof.
  intros Hv Hx j. rewrite nth_upd. now destruct (_ && _).
Qed.

Lemma nonneg_zeros (n : nat) (j : nat) : (0 <= nth j (@zeros Exact n) 0)%Qc.
Proof.
  unfold zeros. destruct (Nat.ltb_spec j n).
  - rewrite nth_repeat_lt by assumption. apply Qcle_refl.
  - rewrite nth_overflow by (rewrite repeat_length; lia). apply Qcle_refl.
Qed.

End NonnegativeValues.

(** Property X21. In an environment without negative probabilities or
    rewards and with a discount that is not negative, no entry of the value
    arrays [policy_evaluation] and [value_iteration] return is negative. *)
Theorem values_are_nonnegative :
  forall (env : Algorithms.Env) (gamma theta : Qc) (max_iterations : Z)
         (policy : list Z),
    (0 < Algorithms.n_actions env)%nat ->
    nonnegative env -> (0 <= gamma)%Qc ->
    policy_ok env policy ->
    (exists value,
        Algorithms.policy_evaluation env policy gamma theta max_iterations
        = Ok value
        /\ forall s, (0 <= nth s value 0)%Qc)
    /\ (exists policy' value,
           Algorithms.value_iteration env gamma theta max_iterations
           = Ok (policy', value)
           /\ forall s, (0 <= nth s value 0)%Qc).
Proof.
  intros env gamma theta max_iterations policy Hact Henv Hgamma Hp.
  set (Inv := fun value : list Qc =>
                length value = Algorithms.n_states env
                /\ forall j, (0 <= nth j value 0)%Qc).
  assert (Hzero : Inv (Np.zeros (Algorithms.n_states env))).
  { split; [apply repeat_length|]. intros j. apply nonneg_zeros. }
  assert (Hkeep : forall t value best,
             (t < Algorithms.n_states env)%nat -> Inv value ->
             In best (Algorithms.action_values env t gamma value) ->
             Inv (Np.upd value t best)).
  { intros t value best Ht [Hlen Hval] Hbest. split.
    - now rewrite length_upd.
    - apply nonneg_upd; [exact Hval|].
      now apply (action_values_nonneg env gamma Hgamma Henv t value Ht Hval). }
  split.
  - unfold Algorithms.policy_evaluation.
    destruct (evaluation_loop_invariant env gamma theta Inv policy Hp)
      with (fuel := Z.to_nat max_iterations) (stop := false)
           (value := Np.zeros (Algorithms.n_states env))
      as (value & Hrun & _ & Hval).
    + now intros value [Hlen _].
    + intros t value Ht Hinv. apply Hkeep; [exact Ht|exact Hinv|].
      apply nth_In. rewrite action_values_length.
      destruct Hp as [Hlen Hall]. rewrite Forall_forall in Hall.
      assert (0 <= nth t policy 0 < Z.of_nat (Algorithms.n_actions env))
        by (apply Hall, nth_In; lia).
      lia.
    + exact Hzero.
    + now exists value.
  - destruct (value_iteration_invariant env gamma theta Inv max_iterations
                Hact) as (policy' & value & Hrun & [_ Hval] & _).
    + now intros value [Hlen _].
    + exact Hkeep.
    + exact Hzero.
    + now exists policy', value.
Qed.

Section WrappedPolicy.
Import Np Algorithms.

Variable env : Env.
Variables gamma theta : Qc.
Variable policy : list Z.
Hypothesis Hlen : length policy = n_states env.
Hypothesis Hentries :
  Forall (fun a => - Z.of_nat (n_actions env) <= a < Z.of_nat (n_actions env))
         policy.

Lemma wrapped_policy_ok : policy_ok env (map (wrapped (n_actions env)) policy).
Proof.
  split; [now rewrite length_map|].
  apply Forall_map. eapply Forall_impl; [|exact Hentries].
  intros a Ha. unfold wrapped. cbv beta in Ha.
  destruct (Z.ltb_spec a 0); lia.
Qed.

Lemma evaluation_state_wrapped (s : nat) (st : list Qc * Qc) :
  (s < n_states env)%nat ->
  evaluation_state env policy gamma s st
  = evaluation_state env (map (wrapped (n_actions env)) policy) gamma s st.
Proof.
  intros Hs. destruct st as [value delta]. unfold evaluation_state.
  destruct (item value (Z.of_nat s)) as [current|e]; [|reflexivity].
  cbn [bind].
  rewrite (item_in_range policy (Z.of_nat s) 0) by lia.
  rewrite (item_in_range (map _ policy) (Z.of_nat s) 0)
    by (rewrite length_map; lia).
  cbn [bind]. rewrite Nat2Z.id.
  change 0 with (wrapped (n_actions env) 0) at 2.
  rewrite map_nth.
  assert (Ha : - Z.of_nat (n_actions env) <= nth s policy 0
               < Z.of_nat (n_actions env)).
  { rewrite Forall_forall in Hentries. apply Hentries. apply nth_In. lia. }
  unfold wrapped at 1. destruct (Z.ltb_spec (nth s policy 0) 0); [|reflexivity].
  rewrite (item_wraps (identity (n_actions env)))
    by (rewrite identity_length; lia).
  now rewrite identity_length.
Qed.

Lemma evaluation_loop_wrapped (fuel : nat) (stop : bool) (value : list Qc) :
  evaluation_loop env policy gamma theta fuel stop value
  = evaluation_loop env (map (wrapped (n_actions env)) policy) gamma theta
                    fuel stop value.
Proof.
  revert stop value. induction fuel as [|fuel IH]; intros stop value;
    [reflexivity|].
  cbn [evaluation_loop]. destruct stop; [reflexivity|].
  rewrite (for_each_ext _ _
             (evaluation_state env (map (wrapped (n_actions env)) policy)
                               gamma)).
  - destruct (for_each _ _ _) as [[v d]|e]; [|reflexivity].
    cbn [bind]. apply IH.
  - intros s st Hs. apply in_seq in Hs. apply evaluation_state_wrapped. lia.
Qed.

End WrappedPolicy.

(** Property X22. A policy entry [a] with [- n_actions <= a < 0] is not
    rejected by [policy_evaluation]: it selects row [a + n_actions] of the
    identity matrix, so the policy is evaluated as the policy with action
    [a + n_actions] in that state. *)
Theorem policy_evaluation_wraps_negative_entries :
  forall (env : Algorithms.Env) (policy : list Z) (gamma theta : Qc)
         (max_iterations : Z),
    length policy = Algorithms.n_states env ->
    Forall (fun a => - Z.of_nat (Algorithms.n_actions env) <= a
                     < Z.of_nat (Algorithms.n_actions env)) policy ->
    policy_ok env (map (wrapped (Algorithms.n_actions env)) policy)
    /\ Algorithms.policy_evaluation env policy gamma theta max_iterations
       = Algorithms.policy_evaluation env
           (map (wrapped (Algorithms.n_actions env)) policy)
           gamma theta max_iterations.
Proof.
  intros env policy gamma theta max_iterations Hlen Hentries. split.
  - now apply wrapped_policy_ok.
  - unfold Algorithms.policy_evaluation. now apply evaluation_loop_wrapped.
Qed.

Lemma policy_evaluation_wraps_negative_entries_witness :
  policy_ok Examples.small_env [0; 3; 0]
  /\ Algorithms.policy_evaluation Examples.small_env [0; -1; 0]
       (Q2Qc (9 # 10)) (Q2Qc (1 # 10000)) 10
     = Algorithms.policy_evaluation Examples.small_env [0; 3; 0]
         (Q2Qc (9 # 10)) (Q2Qc (1 # 10000)) 10.
Proof.
  apply (policy_evaluation_wraps_negative_entries Examples.small_env
           [0; -1; 0] (Q2Qc (9 # 10)) (Q2Qc (1 # 10000)) 10).
  - reflexivity.
  - repeat constructor; cbv; discriminate.
Defined.

Lemma small_env_nonnegative : nonnegative Examples.small_env.
Proof.
  intros s s' a Hs Hs' Ha.
  change (s < 3)%nat in Hs. change (s' < 3)%nat in Hs'.
  change (a < 4)%nat in Ha.
  assert (Hc : (s = 0 \/ s = 1 \/ s = 2)%nat) by lia.
  assert (Hc' : (s' = 0 \/ s' = 1 \/ s' = 2)%nat) by lia.
  assert (Hca : (a = 0 \/ a = 1 \/ a = 2 \/ a = 3)%nat) by lia.
  destruct Hc as [->|[->| ->]]; destruct Hc' as [->|[->| ->]];
    destruct Hca as [->|[->|[->| ->]]]; split; vm_compute; discriminate.
Qed.

Lemma values_are_nonnegative_witness :
  (exists value,
      Algorithms.policy_evaluation Examples.small_env [0; 0; 0]
        (Q2Qc (9 # 10)) (Q2Qc (1 # 10000)) 10
      = Ok value
      /\ forall s, (0 <= nth s value 0)%Qc)
  /\ (exists policy' value,
         Algorithms.value_iteration Examples.small_env (Q2Qc (9 # 10))
           (Q2Qc (1 # 10000)) 10
         = Ok (policy', value)
         /\ forall s, (0 <= nth s value 0)%Qc).
Proof.
  apply (values_are_nonnegative Examples.small_env (Q2Qc (9 # 10))
           (Q2Qc (1 # 10000)) 10 [0; 0; 0]).
  - cbv. lia.
  - exact small_env_nonnegative.
  - discriminate.
  - split; [reflexivity|]. repeat constructor; cbv; discriminate.
Defined.

(** ** Evaluation without discount *)

Section Myopic.
Import Np Algorithms.

Variable env : Env.
Variable theta : Qc.
Variable policy : list Z.
Hypothesis Hp : policy_ok env policy.

Let target : list Qc :=
  map (fun s => expected_reward env s (Z.to_nat (nth s policy 0)))
      (seq 0 (n_states env)).

Lemma myopic_backup (s a : nat) (value : list Qc) :
  (a < n_actions env)%nat ->
  nth a (action_values env s 0%Qc value) 0%Qc = expected_reward env s a.
Proof.
  intros Ha. unfold action_values. rewrite nth_map_seq by exact Ha.
  unfold expected_reward. apply sum_ext_in. intros s' _. ring.
Qed.

Lemma policy_entry_in_range (s : nat) :
  (s < n_states env)%nat ->
  (Z.to_nat (nth s policy 0%Z) < n_actions env)%nat.
Proof.
  intros Hs. destruct Hp as [Hlen Hall]. rewrite Forall_forall in Hall.
  assert (0 <= nth s policy 0 < Z.of_nat (n_actions env))
    by (apply Hall, nth_In; lia).
  lia.
Qed.

Lemma myopic_sweep_from (k a : nat) (value : list Qc) (delta : Qc) :
  (a + k = n_states env)%nat -> length value = n_states env ->
  (forall s, (s < a)%nat -> nth s value 0%Qc = nth s target 0%Qc) ->
  exists delta',
    for_each (seq a k) (evaluation_state env policy 0%Qc) (value, delta)
    = Ok (target, delta').
Proof.
  revert a value delta. induction k as [|k IH]; intros a value delta Hak Hv Hdone.
  - exists delta. cbn [seq for_each]. do 2 f_equal.
    apply nth_ext with (d := 0%Qc) (d' := 0%Qc).
    + unfold target. now rewrite length_map, length_seq.
    + intros s Hs. apply Hdone. lia.
  - cbn [seq for_each].
    destruct (evaluation_state_value env 0%Qc policy a value delta Hp
                ltac:(lia) Hv) as (delta1 & ->).
    cbn [bind]. apply IH; [lia | now rewrite length_upd |].
    intros s Hs. rewrite nth_upd.
    destruct (Nat.eqb_spec s a) as [->|Hne]; cbn [andb].
    + destruct (Nat.ltb_spec a (length value)); [|lia].
      rewrite myopic_backup by (apply policy_entry_in_range; lia).
      unfold target. now rewrite nth_map_seq by lia.
    + apply Hdone. lia.
Qed.

Lemma myopic_loop_fixed (fuel : nat) (stop : bool) :
  evaluation_loop env policy 0%Qc theta fuel stop target = Ok target.
Proof.
  revert stop. induction fuel as [|fuel IH]; intros stop; [reflexivity|].
  cbn [evaluation_loop]. destruct stop; [reflexivity|].
  destruct (myopic_sweep_from (n_states env) 0 target 0%Qc) as (delta' & ->).
  - lia.
  - unfold target. now rewrite length_map, length_seq.
  - intros s Hs. lia.
  - cbn [bind]. apply IH.
Qed.

Lemma myopic_evaluation (fuel : nat) :
  evaluation_loop env policy 0%Qc theta (S fuel) false (zeros (n_states env))
  = Ok target.
Proof.
  cbn [evaluation_loop].
  destruct (myopic_sweep_from (n_states env) 0 (zeros (n_states env)) 0%Qc)
    as (delta' & ->).
  - lia.
  - apply repeat_length.
  - intros s Hs. lia.
  - cbn [bind]. apply myopic_loop_fixed.
Qed.

End Myopic.

(** Property X23. With discount 0 and an iteration cap of at least 1,
    [policy_evaluation] returns for a valid policy, whatever the threshold,
    the reward expected from one step of the policy's action in every
    state. *)
Theorem policy_evaluation_without_discount :
  forall (env : Algorithms.Env) (policy : list Z) (theta : Qc)
         (max_iterations : Z),
    policy_ok env policy ->
    1 <= max_iterations ->
    Algorithms.policy_evaluation env policy 0%Qc theta max_iterations
    = Ok (map (fun s => expected_reward env s (Z.to_nat (nth s policy 0)))
              (seq 0 (Algorithms.n_states env))).
Proof.
  intros env policy theta max_iterations Hp Hmax.
  unfold Algorithms.policy_evaluation.
  destruct (Z.to_nat max_iterations) as [|fuel] eqn:E; [lia|].
  now apply myopic_evaluation.
Qed.

Lemma policy_evaluation_without_discount_witness :
  Algorithms.policy_evaluation Examples.small_env [0; 0; 0] 0%Qc
    (Q2Qc (1 # 10000)) 10
  = Ok (map (fun s => expected_reward Examples.small_env s
                        (Z.to_nat (nth s [0; 0; 0] 0)))
            (seq 0 (Algorithms.n_states Examples.small_env))).
Proof.
  apply (policy_evaluation_without_discount Examples.small_env [0; 0; 0]
           (Q2Qc (1 # 10000)) 10).
  - split; [reflexivity|]. repeat constructor; cbv; discriminate.
  - lia.
Defined.
